(** * Max-pump-zone dashboard: indicator engine, classifier, session
      windows and resilient fetcher of [src/src/App.js], embedded in Rocq.

    JavaScript numbers are IEEE-754 binary64 values.  They are modelled by
    the Standard Library's executable specification of binary floating
    point, [spec_float], instantiated at precision 53 and maximal exponent
    1024: every arithmetic step below rounds exactly as the engine does,
    and NaN, the two infinities and the two zeros are first-class values. *)

From Stdlib Require Import String Ascii DecimalString ZArith List Bool Lia.
From Stdlib Require Import Floats.SpecFloat.
Import ListNotations.

Set Implicit Arguments.

(* ===================================================================== *)
(** * JavaScript numbers                                                  *)
(* ===================================================================== *)

Module Num.

Definition prec : Z := 53.
Definition emax : Z := 1024.

Definition num : Type := spec_float.

Definition NaN : num := S754_nan.
Definition Infinity : num := S754_infinity false.
Definition NegInfinity : num := S754_infinity true.
Definition zero : num := S754_zero false.

(** An integer literal or integer-valued variable read as a number. *)
Definition ofZ (z : Z) : num := binary_normalize prec emax z 0 false.
Definition ofNat (n : nat) : num := ofZ (Z.of_nat n).

Definition add : num -> num -> num := SFadd prec emax.
Definition sub : num -> num -> num := SFsub prec emax.
Definition mul : num -> num -> num := SFmul prec emax.
Definition div : num -> num -> num := SFdiv prec emax.
Definition neg : num -> num := SFopp.
Definition abs : num -> num := SFabs.

(** [a < b], [a <= b] and [a === b] on numbers; all three are false as
    soon as one side is NaN, and [+0 === -0] holds. *)
Definition ltb : num -> num -> bool := SFltb.
Definition leb : num -> num -> bool := SFleb.
Definition eqb : num -> num -> bool := SFeqb.
(** [a > b] is [b < a]; [a >= b] is [b <= a]. *)
Definition gtb (a b : num) : bool := ltb b a.
Definition geb (a b : num) : bool := leb b a.

Definition isNaN (x : num) : bool :=
  match x with S754_nan => true | _ => false end.

(** A well-formed double: the mantissa is canonical for its exponent. *)
Definition valid (x : num) : bool := valid_binary prec emax x.

End Num.

Import Num.

Declare Scope num_scope.
Delimit Scope num_scope with num.
Infix "+" := add : num_scope.
Infix "-" := sub : num_scope.
Infix "*" := mul : num_scope.
Infix "/" := div : num_scope.
Infix "<?" := ltb : num_scope.
Infix "<=?" := leb : num_scope.
Infix ">?" := gtb (at level 70) : num_scope.
Infix ">=?" := geb (at level 70) : num_scope.
Infix "===" := eqb (at level 70) : num_scope.

(** Arithmetic is computed on closed inputs only ([vm_compute]); simplifying
    a goal never unfolds it. *)
Arguments add : simpl never.
Arguments sub : simpl never.
Arguments mul : simpl never.
Arguments div : simpl never.
Arguments neg : simpl never.
Arguments abs : simpl never.
Arguments ltb : simpl never.
Arguments leb : simpl never.
Arguments eqb : simpl never.
Arguments gtb : simpl never.
Arguments geb : simpl never.
Arguments ofZ : simpl never.
Arguments ofNat : simpl never.

(** Reading [a[i]] where the value is then used as a number: an index past
    the end yields [undefined], which arithmetic and comparisons turn into
    NaN. *)
Definition item (a : list num) (i : nat) : num := nth i a NaN.

(* ===================================================================== *)
(** * Indicator library                                                   *)
(* ===================================================================== *)

(** ** calculateEMA *)

(** [data.slice(0, period).reduce((sum, val) => sum + val, 0) / period] *)
Definition sma (data : list num) (period : nat) : num :=
  (fold_left add (firstn period data) zero / ofNat period)%num.

(** [k = 2 / (period + 1)] *)
Definition smoothing (period : nat) : num :=
  (ofZ 2 / (ofNat period + ofZ 1))%num.

(** One iteration of the [for] loop of [calculateEMA] at index [i], on the
    loop state [(ema, previousEma)]; [None] is JavaScript's [null]. *)
Definition ema_step (data : list num) (period : nat) (k : num)
    (st : list num * option num) (i : nat) : list num * option num :=
  let '(ema, previousEma) := st in
  if (Z.of_nat i <? Z.of_nat period - 1)%Z then (ema ++ [NaN], previousEma)
  else
    let previousEma :=
      if (Z.of_nat i =? Z.of_nat period - 1)%Z
      then Some (sma data period) else previousEma in
    match previousEma with
    | Some prev =>
        let currentEma := (item data i * k + prev * (ofZ 1 - k))%num in
        (ema ++ [currentEma], Some currentEma)
    | None => (ema, previousEma)
    end.

(** The loop state after the iterations [i = 0 .. n - 1]. *)
Definition ema_state (data : list num) (period n : nat) : list num * option num :=
  fold_left (ema_step data period (smoothing period)) (seq 0 n) ([], None).

Definition calculateEMA (data : list num) (period : nat) : list num :=
  fst (ema_state data period (length data)).

(** The value the loop appends at index [n] when the array so far is [ema]
    (for a period of at least 1): the sentinel before the seed index, the
    smoothed seed at it, the smoothing recurrence after. *)
Definition ema_pushed (data : list num) (period : nat) (ema : list num) (n : nat)
    : num :=
  let k := smoothing period in
  if (S n <? period)%nat then NaN
  else if (S n =? period)%nat
       then (item data n * k + sma data period * (ofZ 1 - k))%num
       else (item data n * k + item ema (n - 1) * (ofZ 1 - k))%num.

(** ** calculateRSI *)

(** A JavaScript array under construction: [None] is a hole. *)
Definition jsarray : Type := list (option num).

(** [a[i] = v]; writing at or past the end extends the array, leaving
    holes in between. *)
Fixpoint array_set (a : jsarray) (i : nat) (v : num) : jsarray :=
  match i, a with
  | O, [] => [Some v]
  | O, _ :: t => Some v :: t
  | S j, [] => None :: array_set [] j v
  | S j, x :: t => x :: array_set t j v
  end.

(** Reading [a[j]]: a hole and an index past the end both read
    [undefined], here [None]. *)
Definition array_get (a : jsarray) (j : nat) : option num := nth j a None.

(** The finished array read as numbers (a hole would read as NaN). *)
Definition array_numbers (a : jsarray) : list num :=
  map (fun x => match x with Some v => v | None => NaN end) a.

(** [rs = avgLoss === 0 ? Number.POSITIVE_INFINITY : avgGain / avgLoss;
     100 - 100 / (1 + rs)] *)
Definition rsi_value (avgGain avgLoss : num) : num :=
  let rs := if (avgLoss === zero)%num then Infinity else (avgGain / avgLoss)%num in
  (ofZ 100 - ofZ 100 / (ofZ 1 + rs))%num.

(** First loop: [i = 1 .. period], state [(gains, losses)]. *)
Definition seed_step (closes : list num) (st : num * num) (i : nat) : num * num :=
  let '(gains, losses) := st in
  let diff := (item closes i - item closes (i - 1))%num in
  if (diff >? zero)%num then ((gains + diff)%num, losses)
  else (gains, (losses - diff)%num).

(** Second loop: [i = period + 1 .. length - 1], state
    [(rsi, avgGain, avgLoss)]. *)
Definition wilder_step (closes : list num) (period : nat)
    (st : jsarray * num * num) (i : nat) : jsarray * num * num :=
  let '(rsi, avgGain, avgLoss) := st in
  let diff := (item closes i - item closes (i - 1))%num in
  let gain := if (diff >? zero)%num then diff else zero in
  let loss := if (diff <? zero)%num then neg diff else zero in
  let p := ofNat period in
  let p1 := (ofNat period - ofZ 1)%num in
  let avgGain := ((avgGain * p1 + gain) / p)%num in
  let avgLoss := ((avgLoss * p1 + loss) / p)%num in
  (array_set rsi i (rsi_value avgGain avgLoss), avgGain, avgLoss).

(** [(gains, losses)] after the first loop. *)
Definition seed_sums (closes : list num) (period : nat) : num * num :=
  fold_left (seed_step closes) (seq 1 period) (zero, zero).

(** The state on entry to the second loop: [rsi[period]] has just been
    written into the empty array. *)
Definition wilder_init (closes : list num) (period : nat) : jsarray * num * num :=
  let '(gains, losses) := seed_sums closes period in
  let avgGain := (gains / ofNat period)%num in
  let avgLoss := (losses / ofNat period)%num in
  (array_set [] period (rsi_value avgGain avgLoss), avgGain, avgLoss).

(** The state after the first [m] iterations of the second loop, that is
    after [i = period + 1 .. period + m]. *)
Definition wilder_state (closes : list num) (period m : nat) : jsarray * num * num :=
  fold_left (wilder_step closes period) (seq (period + 1) m)
            (wilder_init closes period).

(** Third loop: [rsi[i] = NaN] for [i = 0 .. period - 1]. *)
Definition fill_sentinels (period : nat) (rsi : jsarray) : jsarray :=
  fold_left (fun a i => array_set a i NaN) (seq 0 period) rsi.

Definition calculateRSI (closes : list num) (period : nat) : list num :=
  if (length closes <=? period)%nat then []
  else
    let '(rsi, _, _) :=
      wilder_state closes period (length closes - (period + 1)) in
    array_numbers (fill_sentinels period rsi).

(** [calculateRSI(closes)] with the default [period = 3]. *)
Definition calculateRSI_default (closes : list num) : list num :=
  calculateRSI closes 3.

(** ** getRecentRSIDiff *)

Inductive Direction : Type := pump | dump | neutral.

Record MomentumSnapshot : Type := {
  recentHigh : num;
  recentLow : num;
  pumpStrength : num;
  dumpStrength : num;
  direction : Direction;
  strength : num
}.

(** [rsi.slice(-lookback)]: the last [lookback] elements; [slice(-0)] is
    [slice(0)], the whole array. *)
Definition slice_last (rsi : list num) (lookback : nat) : list num :=
  match lookback with
  | O => rsi
  | S _ => skipn (length rsi - lookback) rsi
  end.

(** Body of [for (const value of recentRSI)], on [(recentHigh, recentLow)]. *)
Definition extremes_step (st : num * num) (value : num) : num * num :=
  let '(hi, lo) := st in
  if negb (isNaN value) then
    (if (value >? hi)%num then value else hi,
     if (value <? lo)%num then value else lo)
  else (hi, lo).

Definition extremes (recentRSI : list num) : num * num :=
  fold_left extremes_step recentRSI (NegInfinity, Infinity).

Definition getRecentRSIDiff (rsi : list num) (lookback : nat)
    : option MomentumSnapshot :=
  if (length rsi <? lookback)%nat then None
  else
    let recentRSI := slice_last rsi lookback in
    let '(hi, lo) := extremes recentRSI in
    let startRSI := item recentRSI 0 in
    let endRSI := item recentRSI (length recentRSI - 1) in
    Some {| recentHigh := hi;
            recentLow := lo;
            pumpStrength := (hi - lo)%num;
            dumpStrength := abs (lo - hi)%num;
            direction :=
              if (endRSI >? startRSI)%num then pump
              else if (endRSI <? startRSI)%num then dump
              else neutral;
            strength := abs (endRSI - startRSI)%num |}.

(* ===================================================================== *)
(** * Signal classifier                                                   *)
(* ===================================================================== *)

Inductive Signal : Type :=
  | NO_DATA
  | MAX_ZONE_PUMP
  | MAX_ZONE_DUMP
  | BALANCE_ZONE_PUMP
  | BALANCE_ZONE_DUMP
  | LOWEST_ZONE_PUMP
  | LOWEST_ZONE_DUMP
  | NO_STRONG_SIGNAL.

Definition Direction_eqb (a b : Direction) : bool :=
  match a, b with
  | pump, pump | dump, dump | neutral, neutral => true
  | _, _ => false
  end.

(** [inRange] and [isAbove30]; their argument is always a number here, so
    the [val !== undefined] conjunct is true. *)
Definition inRange (val : num) (lo hi : Z) : bool :=
  (val >=? ofZ lo)%num && (val <=? ofZ hi)%num.

Definition isAbove30 (val : num) : bool := (val >=? ofZ 30)%num.

(** The part of [getSignal] after the snapshot has been obtained. *)
Definition classify_snapshot (pumpDump : MomentumSnapshot) : Signal :=
  let direction := direction pumpDump in
  let pump_ := pumpStrength pumpDump in
  let dump_ := dumpStrength pumpDump in
  let pumpAbove30 := isAbove30 pump_ in
  let dumpAbove30 := isAbove30 dump_ in
  let pumpInRange_21_26 := inRange pump_ 21 26 in
  let dumpInRange_21_26 := inRange dump_ 21 26 in
  let pumpInRange_1_10 := inRange pump_ 1 10 in
  let dumpInRange_1_10 := inRange dump_ 1 10 in
  if Direction_eqb direction pump && pumpAbove30 then MAX_ZONE_PUMP
  else if Direction_eqb direction dump && dumpAbove30 then MAX_ZONE_DUMP
  else if pumpInRange_21_26 && Direction_eqb direction pump then BALANCE_ZONE_PUMP
  else if dumpInRange_21_26 && Direction_eqb direction dump then BALANCE_ZONE_DUMP
  else if pumpInRange_1_10 && Direction_eqb direction pump then LOWEST_ZONE_PUMP
  else if dumpInRange_1_10 && Direction_eqb direction dump then LOWEST_ZONE_DUMP
  else NO_STRONG_SIGNAL.

(** [getSignal(s)] reads only [s.rsi14]; [None] is an absent property. *)
Definition getSignal (rsi14 : option (list num)) : Signal :=
  let pumpDump :=
    match rsi14 with
    | Some rsi => getRecentRSIDiff rsi 14
    | None => None
    end in
  match pumpDump with
  | None => NO_DATA
  | Some pd => classify_snapshot pd
  end.

(** The rule table of the specification: guard and label, in priority
    order; the classification is the label of the first guard that holds. *)
Definition spec_rules : list ((MomentumSnapshot -> bool) * Signal) :=
  [ (fun s => Direction_eqb (direction s) pump && (pumpStrength s >=? ofZ 30)%num,
     MAX_ZONE_PUMP);
    (fun s => Direction_eqb (direction s) dump && (dumpStrength s >=? ofZ 30)%num,
     MAX_ZONE_DUMP);
    (fun s => Direction_eqb (direction s) pump
              && ((ofZ 21 <=? pumpStrength s)%num && (pumpStrength s <=? ofZ 26)%num),
     BALANCE_ZONE_PUMP);
    (fun s => Direction_eqb (direction s) dump
              && ((ofZ 21 <=? dumpStrength s)%num && (dumpStrength s <=? ofZ 26)%num),
     BALANCE_ZONE_DUMP);
    (fun s => Direction_eqb (direction s) pump
              && ((ofZ 1 <=? pumpStrength s)%num && (pumpStrength s <=? ofZ 10)%num),
     LOWEST_ZONE_PUMP);
    (fun s => Direction_eqb (direction s) dump
              && ((ofZ 1 <=? dumpStrength s)%num && (dumpStrength s <=? ofZ 10)%num),
     LOWEST_ZONE_DUMP);
    (fun _ => true, NO_STRONG_SIGNAL) ].

Fixpoint first_match (rules : list ((MomentumSnapshot -> bool) * Signal))
    (s : MomentumSnapshot) : option Signal :=
  match rules with
  | [] => None
  | (guard, label) :: rest => if guard s then Some label else first_match rest s
  end.

(* ===================================================================== *)
(** * Session window calculator                                           *)
(* ===================================================================== *)

(** Time values are integral milliseconds since the epoch, far below 2^53,
    so the engine's arithmetic on them is exact integer arithmetic; they are
    modelled in [Z].  A field holding NaN is [None]. *)
Module DateTime.
Local Open Scope Z_scope.

Definition msPerDay : Z := 86400000.
Definition msPerHour : Z := 3600000.
Definition msPerMinute : Z := 60000.

Definition Day (t : Z) : Z := t / msPerDay.

Definition DayFromYear (y : Z) : Z :=
  365 * (y - 1970) + (y - 1969) / 4 - (y - 1901) / 100 + (y - 1601) / 400.

(** The largest [y] with [DayFromYear y <= d]: an estimate from the mean
    year length, corrected by at most one. *)
Definition YearFromDay (d : Z) : Z :=
  let y0 := 1970 + (400 * d) / 146097 in
  if DayFromYear (y0 + 1) <=? d then y0 + 1
  else if DayFromYear y0 <=? d then y0
  else y0 - 1.

Definition InLeapYear (y : Z) : Z :=
  if DayFromYear (y + 1) - DayFromYear y =? 366 then 1 else 0.

(** Day number within the year on which month [m] (0-based) starts. *)
Definition monthStart (m leap : Z) : Z :=
  match m with
  | 0 => 0
  | 1 => 31
  | 2 => 59 + leap
  | 3 => 90 + leap
  | 4 => 120 + leap
  | 5 => 151 + leap
  | 6 => 181 + leap
  | 7 => 212 + leap
  | 8 => 243 + leap
  | 9 => 273 + leap
  | 10 => 304 + leap
  | _ => 334 + leap
  end.

Definition MonthFromDayWithinYear (dwy leap : Z) : Z :=
  if dwy <? 31 then 0
  else if dwy <? 59 + leap then 1
  else if dwy <? 90 + leap then 2
  else if dwy <? 120 + leap then 3
  else if dwy <? 151 + leap then 4
  else if dwy <? 181 + leap then 5
  else if dwy <? 212 + leap then 6
  else if dwy <? 243 + leap then 7
  else if dwy <? 273 + leap then 8
  else if dwy <? 304 + leap then 9
  else if dwy <? 334 + leap then 10
  else 11.

Definition getUTCFullYear (t : Z) : Z := YearFromDay (Day t).

Definition DayWithinYear (t : Z) : Z :=
  Day t - DayFromYear (getUTCFullYear t).

Definition getUTCMonth (t : Z) : Z :=
  MonthFromDayWithinYear (DayWithinYear t) (InLeapYear (getUTCFullYear t)).

Definition getUTCDate (t : Z) : Z :=
  DayWithinYear t
  - monthStart (getUTCMonth t) (InLeapYear (getUTCFullYear t)) + 1.

(** [MakeDay]: the month may lie outside 0..11 and the date outside the
    month; both carry over. *)
Definition MakeDay (year month date : Z) : Z :=
  let ym := year + month / 12 in
  let mn := month mod 12 in
  DayFromYear ym + monthStart mn (InLeapYear ym) + date - 1.

Definition MakeTime (hour minute : Z) : Z :=
  hour * msPerHour + minute * msPerMinute.

Definition TimeClip (t : Z) : option Z :=
  if Z.abs t <=? 8640000000000000 then Some t else None.

(** [Date.UTC(year, month, date, hour, minute)]; a year in 0..99 means
    1900 + year. *)
Definition DateUTC (year month date hour minute : Z) : option Z :=
  let yr := if (0 <=? year) && (year <=? 99) then 1900 + year else year in
  TimeClip (MakeDay yr month date * msPerDay + MakeTime hour minute).

End DateTime.

Import DateTime.

Record SessionWindow : Type := {
  sessionStart : option Z;
  sessionEnd : option Z;
  prevSessionStart : option Z;
  prevSessionEnd : option Z
}.

(** [a >= b] and [a <= b] where [b] may be NaN. *)
Definition ge_time (a : Z) (b : option Z) : bool :=
  match b with Some b => (b <=? a)%Z | None => false end.
Definition le_time (a : Z) (b : option Z) : bool :=
  match b with Some b => (a <=? b)%Z | None => false end.

(** [Date.UTC(y, m, d, hPH - 8, min)]: a wall-clock time of the UTC+8
    reference clock as a UTC time value. *)
Definition getUTCMillisFor1d (y m d hPH min : Z) : option Z :=
  DateUTC y m d (hPH - 8) min.

(** The ['1d'] branch of [getSessions], after [year], [month] and [date]
    have been read from [now]. *)
Definition sessions1d (nowMillis year month date : Z) : SessionWindow :=
  let today8AM_UTC := getUTCMillisFor1d year month date 8 0 in
  let tomorrow745AM_UTC := getUTCMillisFor1d year month (date + 1) 7 45 in
  let '(sessionStart, sessionEnd) :=
    if ge_time nowMillis today8AM_UTC then (today8AM_UTC, tomorrow745AM_UTC)
    else
      let yesterday8AM_UTC := getUTCMillisFor1d year month (date - 1) 8 0 in
      let today745AM_UTC := getUTCMillisFor1d year month date 7 45 in
      (yesterday8AM_UTC, today745AM_UTC) in
  let prevSessionStart := getUTCMillisFor1d year month (date - 1) 8 0 in
  let prevSessionEnd := getUTCMillisFor1d year month date 7 45 in
  {| sessionStart := sessionStart; sessionEnd := sessionEnd;
     prevSessionStart := prevSessionStart; prevSessionEnd := prevSessionEnd |}.

(** [MILLISECONDS[tf]] for a key the literal does not inherit from
    [Object.prototype]; such a key, when unknown, reads [undefined]. *)
Definition MILLISECONDS (tf : string) : option Z :=
  if String.eqb tf "15m" then Some (15 * 60 * 1000)%Z
  else if String.eqb tf "4h" then Some (4 * 60 * 60 * 1000)%Z
  else None.

(** [getSessions(tf)] at clock reading [now], in a component whose selected
    timeframe is [timeframe].  [tf] is [None] when the argument is omitted;
    an empty string is falsy. *)
Definition getSessions (tf : option string) (timeframe : string) (now : Z)
    : SessionWindow :=
  let timeframeToUse :=
    match tf with
    | Some s => if String.eqb s "" then timeframe else s
    | None => timeframe
    end in
  if String.eqb timeframeToUse "" || String.eqb timeframeToUse "1d" then
    sessions1d now (getUTCFullYear now) (getUTCMonth now) (getUTCDate now)
  else
    match MILLISECONDS timeframeToUse with
    | Some tfMillis =>
        let sessionStart := (now / tfMillis * tfMillis)%Z in
        {| sessionStart := Some sessionStart;
           sessionEnd := Some (sessionStart + tfMillis)%Z;
           prevSessionStart := Some (sessionStart - tfMillis)%Z;
           prevSessionEnd := Some sessionStart |}
    | None =>
        {| sessionStart := None; sessionEnd := None;
           prevSessionStart := None; prevSessionEnd := None |}
    end.

(** Modelled from the spec: the calendar day of [now] on the UTC+8
    reference clock. *)
Definition referenceDay (now : Z) : Z := Day (now + 8 * msPerHour).

(** Modelled from the spec: yesterday 08:00 of the UTC+8 reference clock,
    as UTC epoch milliseconds. *)
Definition reference_yesterday8AM (now : Z) : Z :=
  ((referenceDay now - 1) * msPerDay + 8 * msPerHour - 8 * msPerHour)%Z.

(** Modelled from the spec: today 07:45 of the UTC+8 reference clock, as
    UTC epoch milliseconds. *)
Definition reference_today745AM (now : Z) : Z :=
  (referenceDay now * msPerDay + 7 * msPerHour + 45 * msPerMinute
   - 8 * msPerHour)%Z.

(* ===================================================================== *)
(** * Resilient fetcher                                                   *)
(* ===================================================================== *)

Record Candle : Type := {
  timestamp : Z;
  open : num;
  high : num;
  low : num;
  close : num;
  volume : num
}.

(** The JSON payloads the program reads: the provider's error body
    [{code, msg}], the instrument list, a kline array (fields already
    converted with unary [+]) and a 24h ticker (its [priceChangePercent]
    already read with [parseFloat]). *)
Inductive json : Type :=
  | JErrorBody (code : option Z) (msg : option string)
  | JExchangeInfo (symbols : list string)
  | JKlines (rows : list Candle)
  | JTicker (priceChangePercent : num).

Definition json_code (j : json) : option Z :=
  match j with JErrorBody c _ => c | _ => None end.
Definition json_msg (j : json) : option string :=
  match j with JErrorBody _ m => m | _ => None end.

Record JsError : Type := { message : string }.

Inductive BodyResult : Type :=
  | BodyThrows (e : JsError)
  | BodyJson (j : json).

Record Response : Type := {
  status : Z;
  statusText : string;
  retryAfter : option string;
  body : BodyResult
}.

Definition ok (r : Response) : bool :=
  ((200 <=? status r) && (status r <=? 299))%Z.

Inductive FetchResult : Type :=
  | NetworkError (e : JsError)
  | Responded (r : Response).

Inductive Outcome (A : Type) : Type :=
  | Returned (v : A)
  | Thrown (e : JsError).
Arguments Returned {A} v.
Arguments Thrown {A} e.

(** What a call does to the outside world, in order.  A wait of [None] is
    [setTimeout] with a NaN delay. *)
Inductive Event : Type :=
  | EvGet (url : string)
  | EvSleep (ms : option Z).

(** [s.includes(sub)] *)
Fixpoint includes (s sub : string) : bool :=
  String.prefix sub s
  || match s with
     | EmptyString => false
     | String _ rest => includes rest sub
     end.

Definition digit_value (c : ascii) : option Z :=
  let n := Z.of_nat (nat_of_ascii c) in
  if ((48 <=? n) && (n <=? 57))%Z then Some (n - 48)%Z else None.

Fixpoint digits_prefix (s : string) (acc : option Z) : option Z :=
  match s with
  | EmptyString => acc
  | String c rest =>
      match digit_value c with
      | Some d =>
          digits_prefix rest
            (Some (10 * match acc with Some a => a | None => 0 end + d)%Z)
      | None => acc
      end
  end.

Fixpoint skip_spaces (s : string) : string :=
  match s with
  | String " " rest => skip_spaces rest
  | _ => s
  end.

(** [parseInt(s, 10)]: optional blanks and sign, then the longest run of
    decimal digits; [None] is NaN. *)
Definition parseInt (s : string) : option Z :=
  match skip_spaces s with
  | String "-" rest => option_map Z.opp (digits_prefix rest None)
  | String "+" rest => digits_prefix rest None
  | t => digits_prefix t None
  end.

(** [delay * Math.pow(2, i)] as an integer; the product of the doubles is
    this integer as long as it does not exceed [2^53] ([i] below 1024). *)
Definition backoff (delay : Z) (i : nat) : Z := (delay * 2 ^ Z.of_nat i)%Z.

Definition is_invalid_symbol_body (errorBody : json) : bool :=
  match json_code errorBody with Some c => (c =? -1121)%Z | None => false end
  || match json_msg errorBody with
     | Some m => String.eqb m "Invalid symbol." || String.eqb m "Invalid symbol status."
     | None => false
     end.

Definition is_ip_ban_body (errorBody : json) : bool :=
  match json_code errorBody with Some c => (c =? -1003)%Z | None => false end.

(** [`HTTP error! status: ${response.status}, message: ${errorBody.msg ||
    response.statusText}`] *)
Definition http_error (r : Response) (errorBody : json) : JsError :=
  let m := match json_msg errorBody with
           | Some m => if String.eqb m "" then statusText r else m
           | None => statusText r
           end in
  {| message := "HTTP error! status: "
                ++ NilZero.string_of_int (Z.to_int (status r))
                ++ ", message: " ++ m |}.

Section Fetcher.

(** The transport: [fetch url i] is what the [i]-th GET of [url] issued by
    one call yields. *)
Variable fetch : string -> nat -> FetchResult.

Variable url : string.
Variable retries : nat.
Variable delay : Z.

(** The [for] loop of [fetchWithRetry] from iteration [i] on, [n] being
    the number of iterations left ([n + i = retries]). *)
Fixpoint fetch_attempts (n i : nat) : Outcome (option json) * list Event :=
  match n with
  | O => (Returned None, [])
  | S n' =>
      (* sleep, then go round the loop again *)
      let retry (waitTime : option Z) :=
        let '(result, events) := fetch_attempts n' (S i) in
        (result, EvGet url :: EvSleep waitTime :: events) in
      (* the [catch] block *)
      let caught (error : JsError) :=
        if (Z.of_nat i <? Z.of_nat retries - 1)%Z then
          retry (Some (backoff delay i))
        else if includes (message error) "Invalid symbol" then
          (Returned None, [EvGet url])
        else (Thrown error, [EvGet url]) in
      match fetch url i with
      | NetworkError e => caught e
      | Responded response =>
          if ((status response =? 429) || (status response =? 418))%Z then
            let waitTime :=
              match retryAfter response with
              | Some h =>
                  if String.eqb h "" then Some (backoff delay i)
                  else option_map (fun s => s * 1000)%Z (parseInt h)
              | None => Some (backoff delay i)
              end in
            retry waitTime
          else if negb (ok response) then
            match body response with
            | BodyThrows e => caught e
            | BodyJson errorBody =>
                if is_ip_ban_body errorBody then
                  retry (Some (backoff delay i))
                else if is_invalid_symbol_body errorBody then
                  (Returned None, [EvGet url])
                else caught (http_error response errorBody)
            end
          else
            match body response with
            | BodyThrows e => caught e
            | BodyJson j => (Returned (Some j), [EvGet url])
            end
      end
  end.

Definition fetchWithRetry : Outcome (option json) * list Event :=
  fetch_attempts retries 0.

End Fetcher.

Definition is_get (e : Event) : bool :=
  match e with EvGet _ => true | _ => false end.
Definition is_sleep (e : Event) : bool :=
  match e with EvSleep _ => true | _ => false end.

(** Number of GET requests, and of backoff sleeps, in a trace. *)
Definition gets (t : list Event) : nat := length (filter is_get t).
Definition sleeps (t : list Event) : nat := length (filter is_sleep t).

(** A GET answered with one of the two rate-limit statuses. *)
Definition is_rate_limit (f : FetchResult) : Prop :=
  exists r, f = Responded r /\ (status r = 429%Z \/ status r = 418%Z).

(** The trace of a call that met a rate limit at every iteration: each GET
    is followed by its sleep. *)
Definition get_then_sleep (url : string) (waits : list (option Z)) : list Event :=
  flat_map (fun w => [EvGet url; EvSleep w]) waits.

(* ===================================================================== *)
(** * Batch ingestion scheduler                                           *)
(* ===================================================================== *)

Inductive Trend : Type := bullish | bearish.
Inductive TrendType : Type := support | resistance.
Inductive Color : Type := green | red.

Record MainTrend : Type := {
  trend : Trend;
  type : TrendType;
  crossoverPrice : num;
  isNear : bool;
  isDojiAfterBreakout : bool
}.

Record SymbolAnalysis : Type := {
  symbol : string;
  closes : list num;
  rsi14 : list num;
  priceChangePercent : num;
  mainTrend : MainTrend;
  prevClosedGreen : option bool;
  prevClosedRed : option bool;
  highestVolumeColorPrev : option Color
}.

(** [a.at(-1) || 0]: the last element, or [0] when it is absent, NaN or a
    zero. *)
Definition last_or_zero (a : list num) : num :=
  match rev a with
  | [] => zero
  | S754_nan :: _ => zero
  | S754_zero _ :: _ => zero
  | v :: _ => v
  end.

(** The loop selecting the candle of highest volume, on
    [(maxVolume, highestVolumeCandle)]. *)
Definition highest_volume_step (st : num * option Candle) (candle : Candle)
    : num * option Candle :=
  let '(maxVolume, highestVolumeCandle) := st in
  if (volume candle >? maxVolume)%num then (volume candle, Some candle)
  else (maxVolume, highestVolumeCandle).

Definition highestVolumeColor (candlesPrev : list Candle) : option Color :=
  match candlesPrev with
  | [] => None
  | _ =>
      match snd (fold_left highest_volume_step candlesPrev (neg (ofZ 1), None)) with
      | Some c => Some (if (close c >? open c)%num then green else red)
      | None => None
      end
  end.

(** [s.endsWith(suffix)] *)
Definition endsWith (s suffix : string) : bool :=
  (String.length suffix <=? String.length s)%nat
  && String.eqb
       (substring (String.length s - String.length suffix) (String.length suffix) s)
       suffix.

Definition BATCH_SIZE : nat := 10.
Definition INTERVAL_MS : Z := 1000.

Definition klines_url (symbol interval : string) : string :=
  "https://fapi.binance.com/fapi/v1/klines?symbol=" ++ symbol
  ++ "&interval=" ++ interval ++ "&limit=500".

Definition ticker_url (symbol : string) : string :=
  "https://fapi.binance.com/fapi/v1/ticker/24hr?symbol=" ++ symbol.

Definition exchangeInfo_url : string :=
  "https://fapi.binance.com/fapi/v1/exchangeInfo".

(** What the scheduler reads from outside: the transport, the clock and the
    selected timeframe, and whether the component is still mounted when the
    batch has settled. *)
Record Env : Type := {
  env_fetch : string -> nat -> FetchResult;
  env_now : Z;
  env_localeTime : string;
  env_timeframe : string;
  env_stillMounted : bool
}.

(** [fetchAndAnalyze(symbol, interval)]: [Returned None] is a skipped
    symbol, [Thrown] a rejected promise. *)
Definition fetchAndAnalyze (env : Env) (symbol interval : string)
    : Outcome (option SymbolAnalysis) :=
  match fst (fetchWithRetry (env_fetch env) (klines_url symbol interval) 5 1000) with
  | Thrown e => Thrown e
  | Returned None => Returned None
  | Returned (Some (JKlines candles)) =>
      let closes := map close candles in
      let ema70 := calculateEMA closes 70 in
      let ema200 := calculateEMA closes 200 in
      let rsi14 := calculateRSI closes 14 in
      match fst (fetchWithRetry (env_fetch env) (ticker_url symbol) 5 1000) with
      | Thrown e => Thrown e
      | Returned None => Returned None
      | Returned (Some ticker24h) =>
          let priceChangePercent :=
            match ticker24h with JTicker p => p | _ => NaN end in
          let lastEMA70 := last_or_zero ema70 in
          let lastEMA200 := last_or_zero ema200 in
          let up := (lastEMA70 >=? lastEMA200)%num in
          let mainTrend :=
            {| trend := if up then bullish else bearish;
               type := if up then support else resistance;
               crossoverPrice := last_or_zero closes;
               isNear := false;
               isDojiAfterBreakout := false |} in
          let w := getSessions (Some interval) (env_timeframe env) (env_now env) in
          let candlesPrev :=
            filter (fun c => ge_time (timestamp c) (prevSessionStart w)
                             && le_time (timestamp c) (prevSessionEnd w))
                   candles in
          let prevCandle := nth_error candles (length candles - 2) in
          let '(prevClosedGreen, prevClosedRed) :=
            if (2 <=? length candles)%nat then
              match prevCandle with
              | Some c => (Some (close c >? open c)%num, Some (close c <? open c)%num)
              | None => (None, None)
              end
            else (None, None) in
          Returned (Some
            {| symbol := symbol;
               closes := closes;
               rsi14 := rsi14;
               priceChangePercent := priceChangePercent;
               mainTrend := mainTrend;
               prevClosedGreen := prevClosedGreen;
               prevClosedRed := prevClosedRed;
               highestVolumeColorPrev := highestVolumeColor candlesPrev |})
      end
  | Returned (Some _) =>
      Thrown {| message := "raw.map is not a function" |}
  end.

(** [Promise.all]: rejects as soon as one member rejects; otherwise the
    results, in order. *)
Fixpoint promise_all {A : Type} (ps : list (Outcome A)) : Outcome (list A) :=
  match ps with
  | [] => Returned []
  | Thrown e :: _ => Thrown e
  | Returned v :: rest =>
      match promise_all rest with
      | Returned vs => Returned (v :: vs)
      | Thrown e => Thrown e
      end
  end.

(** [newSignals.filter(Boolean)] *)
Fixpoint filter_non_null {A : Type} (l : list (option A)) : list A :=
  match l with
  | [] => []
  | Some v :: rest => v :: filter_non_null rest
  | None :: rest => filter_non_null rest
  end.

(** The state the effect closes over, and the component state it sets. *)
Record SchedulerState : Type := {
  signals : list SymbolAnalysis;
  loading : bool;
  lastUpdated : option string;
  isMounted : bool;
  currentIndex : nat;
  symbols : list string;
  nextBatchScheduled : bool
}.

Definition set_loading (b : bool) (st : SchedulerState) : SchedulerState :=
  {| signals := signals st; loading := b; lastUpdated := lastUpdated st;
     isMounted := isMounted st; currentIndex := currentIndex st;
     symbols := symbols st; nextBatchScheduled := nextBatchScheduled st |}.

Definition set_symbols (l : list string) (st : SchedulerState) : SchedulerState :=
  {| signals := signals st; loading := loading st; lastUpdated := lastUpdated st;
     isMounted := isMounted st; currentIndex := currentIndex st;
     symbols := l; nextBatchScheduled := nextBatchScheduled st |}.

(** The batch part of [processBatch], once the universe is known. *)
Definition run_batch (env : Env) (st : SchedulerState)
    : Outcome unit * SchedulerState :=
  let batch := firstn BATCH_SIZE (skipn (currentIndex st) (symbols st)) in
  match promise_all (map (fun s => fetchAndAnalyze env s (env_timeframe env)) batch) with
  | Thrown e => (Thrown e, st)
  | Returned newSignals =>
      if env_stillMounted env then
        let idx := (currentIndex st + BATCH_SIZE)%nat in
        let more := (idx <? length (symbols st))%nat in
        (Returned tt,
         {| signals := signals st ++ filter_non_null newSignals;
            loading := if more then loading st else false;
            lastUpdated := Some (env_localeTime env);
            isMounted := isMounted st;
            currentIndex := idx;
            symbols := symbols st;
            nextBatchScheduled := more |})
      else (Returned tt, st)
  end.

(** One run of [processBatch]: the timer that started it has fired, so no
    further run is scheduled unless this one schedules it. *)
Definition processBatch (env : Env) (st0 : SchedulerState)
    : Outcome unit * SchedulerState :=
  let st :=
    {| signals := signals st0; loading := loading st0;
       lastUpdated := lastUpdated st0; isMounted := isMounted st0;
       currentIndex := currentIndex st0; symbols := symbols st0;
       nextBatchScheduled := false |} in
  if negb (isMounted st) then (Returned tt, st)
  else
    match symbols st with
    | [] =>
        match fst (fetchWithRetry (env_fetch env) exchangeInfo_url 5 1000) with
        | Thrown _ => (Returned tt, set_loading false st)
        | Returned None => (Returned tt, set_loading false st)
        | Returned (Some (JExchangeInfo l)) =>
            run_batch env (set_symbols (filter (fun s => endsWith s "USDT") l) st)
        | Returned (Some _) => (Returned tt, set_loading false st)
        end
    | _ :: _ => run_batch env st
    end.

(** The state the effect sets up before its first [processBatch()]. *)
Definition initial_state : SchedulerState :=
  {| signals := []; loading := true; lastUpdated := None; isMounted := true;
     currentIndex := 0; symbols := []; nextBatchScheduled := false |}.

(** [signals.filter(s => getSignal(s) === 'MAX ZONE PUMP')] *)
Definition Signal_eqb (a b : Signal) : bool :=
  match a, b with
  | NO_DATA, NO_DATA | MAX_ZONE_PUMP, MAX_ZONE_PUMP
  | MAX_ZONE_DUMP, MAX_ZONE_DUMP | BALANCE_ZONE_PUMP, BALANCE_ZONE_PUMP
  | BALANCE_ZONE_DUMP, BALANCE_ZONE_DUMP | LOWEST_ZONE_PUMP, LOWEST_ZONE_PUMP
  | LOWEST_ZONE_DUMP, LOWEST_ZONE_DUMP | NO_STRONG_SIGNAL, NO_STRONG_SIGNAL => true
  | _, _ => false
  end.

Definition maxPumpZoneSignals (signals : list SymbolAnalysis) : list SymbolAnalysis :=
  filter (fun s => Signal_eqb (getSignal (Some (rsi14 s))) MAX_ZONE_PUMP) signals.

(* ===================================================================== *)
(** * Sample inputs                                                       *)
(* ===================================================================== *)

(** Thirteen readings of 10 followed by one of 45: the window rises, and
    its spread is 35. *)
Definition rising_rsi : list num := repeat (ofZ 10) 13 ++ [ofZ 45].

Definition rising_snapshot : MomentumSnapshot :=
  {| recentHigh := ofZ 45; recentLow := ofZ 10;
     pumpStrength := ofZ 35; dumpStrength := ofZ 35;
     direction := pump; strength := ofZ 35 |}.

(** A window made of sentinels only. *)
Definition all_nan_rsi : list num := repeat NaN 14.

(** A window whose first reading is the sentinel. *)
Definition nan_start_rsi : list num := NaN :: repeat (ofZ 10) 12 ++ [ofZ 45].

Definition rate_limited (code : Z) : Response :=
  {| status := code; statusText := "Too Many Requests"; retryAfter := None;
     body := BodyJson (JErrorBody None None) |}.

(** A transport that answers every GET with HTTP 429. *)
Definition always_429 (_ : string) (_ : nat) : FetchResult :=
  Responded (rate_limited 429).

Definition invalid_symbol_400 : Response :=
  {| status := 400; statusText := "Bad Request"; retryAfter := None;
     body := BodyJson (JErrorBody (Some (-1121)%Z) (Some "Invalid symbol."%string)) |}.

Definition ok_200 (j : json) : Response :=
  {| status := 200; statusText := "OK"; retryAfter := None; body := BodyJson j |}.

(** A transport whose first answer is HTTP 429 carrying the invalid-symbol
    error body, and whose later answers are a ticker. *)
Definition invalid_symbol_429_then_ok (_ : string) (i : nat) : FetchResult :=
  match i with
  | O => Responded {| status := 429; statusText := "Too Many Requests";
                      retryAfter := None;
                      body := BodyJson (JErrorBody (Some (-1121)%Z)
                                                   (Some "Invalid symbol."%string)) |}
  | S _ => Responded (ok_200 (JTicker (ofZ 1)))
  end.

(** A transport whose first answer is HTTP 400 with the IP-ban code and the
    invalid-symbol message, and whose later answers are a ticker. *)
Definition ip_ban_invalid_message_then_ok (_ : string) (i : nat) : FetchResult :=
  match i with
  | O => Responded {| status := 400; statusText := "Bad Request";
                      retryAfter := None;
                      body := BodyJson (JErrorBody (Some (-1003)%Z)
                                                   (Some "Invalid symbol."%string)) |}
  | S _ => Responded (ok_200 (JTicker (ofZ 1)))
  end.

Definition invalid_symbol_then_anything (_ : string) (i : nat) : FetchResult :=
  match i with
  | O => Responded invalid_symbol_400
  | S _ => Responded (ok_200 (JTicker (ofZ 1)))
  end.

Definition sample_candle (t : Z) (o c : Z) : Candle :=
  {| timestamp := t; open := ofZ o; high := ofZ (Z.max o c);
     low := ofZ (Z.min o c); close := ofZ c; volume := ofZ 5 |}.

(** A transport on which every request about [BADUSDT] fails at the network
    level, while [GOODUSDT] is served klines and a ticker. *)
Definition one_symbol_down (url : string) (_ : nat) : FetchResult :=
  if includes url "BADUSDT" then
    NetworkError {| message := "Failed to fetch" |}
  else if includes url "klines" then
    Responded (ok_200 (JKlines [sample_candle 0 1 2; sample_candle 1 2 3]))
  else Responded (ok_200 (JTicker (ofZ 1))).

Definition sample_env : Env :=
  {| env_fetch := one_symbol_down; env_now := 1709200000000;
     env_localeTime := "10:00:00 AM"; env_timeframe := "1d";
     env_stillMounted := true |}.

Definition two_symbol_state : SchedulerState :=
  {| signals := []; loading := true; lastUpdated := None; isMounted := true;
     currentIndex := 0; symbols := ["GOODUSDT"%string; "BADUSDT"%string];
     nextBatchScheduled := false |}.


(* ===================================================================== *)
(** * Order and magnitude of doubles (used in the proofs)                 *)
(* ===================================================================== *)

(** A number other than NaN, placed in [Z * Z * Z] so that the
    lexicographic order of the images is the order [<] of the numbers:
    class (minus infinity, negative, zero, positive, plus infinity), then
    exponent, then mantissa, the last two reversed for negative numbers. *)
Definition rank (x : num) : Z * Z * Z :=
  match x with
  | S754_nan => (0, 0, 0)
  | S754_infinity true => (-2, 0, 0)
  | S754_infinity false => (2, 0, 0)
  | S754_zero _ => (0, 0, 0)
  | S754_finite true m e => (-1, - e, - Z.pos m)
  | S754_finite false m e => (1, e, Z.pos m)
  end%Z.

Definition lex_lt (a b : Z * Z * Z) : Prop :=
  let '(a1, a2, a3) := a in
  let '(b1, b2, b3) := b in
  (a1 < b1 \/ (a1 = b1 /\ (a2 < b2 \/ (a2 = b2 /\ a3 < b3))))%Z.

(** The mantissa of a finite number once its exponent has been lowered to
    [e], with the sign of the number: the number is [scaled x e * 2 ^ e]. *)
Definition scaled (x : num) (e : Z) : Z :=
  match x with
  | S754_finite s m ex => cond_Zopp s (Z.pos (fst (shl_align m ex e)))
  | _ => 0%Z
  end.

(** Consecutive elements increase strictly. *)
Fixpoint strictly_increasing (l : list num) : Prop :=
  match l with
  | [] => True
  | a :: rest =>
      match rest with
      | [] => True
      | b :: _ => (a <? b)%num = true /\ strictly_increasing rest
      end
  end.

(** The state of the extremes loop once a defined reading has been seen:
    both extremes are defined, valid readings, and the high one is the low
    one or lies strictly above it. *)
Definition extremes_ok (st : num * num) : Prop :=
  let '(hi, lo) := st in
  isNaN hi = false /\ isNaN lo = false
  /\ valid hi = true /\ valid lo = true
  /\ (hi = lo \/ (lo <? hi)%num = true).

(** A number that is one of the two zeros. *)
Definition is_zero (x : num) : Prop := exists s, x = S754_zero s.

(** Six strictly increasing closes. *)
Definition rising_closes : list num :=
  [ofZ 1; ofZ 2; ofZ 4; ofZ 5; ofZ 7; ofZ 11].

(* ===================================================================== *)
(** * Further definitions                                                 *)
(* ===================================================================== *)

(** The waits of the exponential backoff for the iterations
    [i, i + 1, ..., i + n - 1]. *)
Definition backoff_waits (delay : Z) (i n : nat) : list (option Z) :=
  map (fun j => Some (backoff delay j)) (seq i n).

(** A transport whose first two answers are HTTP 429 and whose third is a
    ticker. *)
Definition twice_429_then_ok (_ : string) (i : nat) : FetchResult :=
  match i with
  | 0%nat | 1%nat => Responded (rate_limited 429)
  | _ => Responded (ok_200 (JTicker (ofZ 1)))
  end.

(** A transport that is down: every GET fails at the network level. *)
Definition network_down (_ : string) (_ : nat) : FetchResult :=
  NetworkError {| message := "Failed to fetch" |}.

(** [Number.isFinite(x)]: neither NaN nor an infinity. *)
Definition is_finite (x : num) : bool :=
  match x with
  | S754_finite _ _ _ | S754_zero _ => true
  | _ => false
  end.

(** Twenty closes that rise by one. *)
Definition twenty_closes : list num := map (fun i => ofZ (Z.of_nat i)) (seq 1 20).

(** What the extremes loop has established after the readings [seen]:
    while every reading was the sentinel the extremes are the initial
    infinities; afterwards both are defined readings among [seen]; and no
    defined reading lies above the high one or below the low one. *)
Definition extremes_of (seen : list num) (st : num * num) : Prop :=
  let '(hi, lo) := st in
  (if forallb isNaN seen then hi = NegInfinity /\ lo = Infinity
   else In hi seen /\ In lo seen /\ isNaN hi = false /\ isNaN lo = false)
  /\ forall v, In v seen -> isNaN v = false ->
       (hi <? v)%num = false /\ (v <? lo)%num = false.

(** The direction a zone label speaks of. *)
Definition label_direction (s : Signal) : option Direction :=
  match s with
  | MAX_ZONE_PUMP | BALANCE_ZONE_PUMP | LOWEST_ZONE_PUMP => Some pump
  | MAX_ZONE_DUMP | BALANCE_ZONE_DUMP | LOWEST_ZONE_DUMP => Some dump
  | NO_DATA | NO_STRONG_SIGNAL => None
  end.

(** A falling window: thirteen readings of 60 followed by one of 25. *)
Definition falling_rsi : list num := repeat (ofZ 60) 13 ++ [ofZ 25].

(** The colour of a candle: green when it closed above its open. *)
Definition candle_color (c : Candle) : Color :=
  if (close c >? open c)%num then green else red.

(** What the highest-volume loop has established after the candles [seen]:
    either no candle had a volume above the initial -1, or the candle kept
    is one of them, its volume is the running maximum, and no candle seen
    has a larger volume. *)
Definition highest_volume_of (seen : list Candle) (st : num * option Candle) : Prop :=
  let '(maxVolume, kept) := st in
  (forall c, In c seen -> (maxVolume <? volume c)%num = false)
  /\ match kept with
     | None => maxVolume = neg (ofZ 1)
     | Some c0 => In c0 seen /\ volume c0 = maxVolume
                  /\ (neg (ofZ 1) <? maxVolume)%num = true
     end.

(** The instrument list of a small exchange. *)
Definition sample_exchange (url : string) (_ : nat) : FetchResult :=
  if includes url "exchangeInfo" then
    Responded (ok_200 (JExchangeInfo ["GOODUSDT"; "BTCBUSD"; "ETHUSDT"]%string))
  else if includes url "klines" then
    Responded (ok_200 (JKlines [sample_candle 0 1 2; sample_candle 1 2 3]))
  else Responded (ok_200 (JTicker (ofZ 1))).

Definition exchange_env : Env :=
  {| env_fetch := sample_exchange; env_now := 1709200000000;
     env_localeTime := "10:00:00 AM"; env_timeframe := "1d";
     env_stillMounted := true |}.

(** The state [processBatch] starts from: the timer that started the run
    has fired. *)
Definition timer_fired (st : SchedulerState) : SchedulerState :=
  {| signals := signals st; loading := loading st;
     lastUpdated := lastUpdated st; isMounted := isMounted st;
     currentIndex := currentIndex st; symbols := symbols st;
     nextBatchScheduled := false |}.

(** A state of a pass abandoned by an unmount. *)
Definition unmounted_state : SchedulerState :=
  {| signals := []; loading := true; lastUpdated := None; isMounted := false;
     currentIndex := 0; symbols := ["GOODUSDT"%string];
     nextBatchScheduled := true |}.

(** The chain of runs of one pass: [processBatch] runs, and runs again
    after its timer whenever it has scheduled a further batch; a rejected
    run ends the chain.  [envs k] is what the [k]-th run meets, and [fuel]
    bounds the number of runs. *)
Fixpoint run_pass (envs : nat -> Env) (fuel k : nat) (st : SchedulerState)
    : Outcome unit * SchedulerState :=
  match fuel with
  | O => (Returned tt, st)
  | S fuel' =>
      let '(result, st') := processBatch (envs k) st in
      match result with
      | Thrown e => (Thrown e, st')
      | Returned _ =>
          if nextBatchScheduled st' then run_pass envs fuel' (S k) st'
          else (Returned tt, st')
      end
  end.

(** An exchange listing fourteen instruments, twelve of them quoted in
    USDT. *)
Definition big_exchange (url : string) (_ : nat) : FetchResult :=
  if includes url "exchangeInfo" then
    Responded (ok_200 (JExchangeInfo
      (List.app ["BTCBUSD"%string; "ETHBTC"%string]
         (map (fun i => String (ascii_of_nat (65 + i)) "USDT") (seq 0 12)))))
  else if includes url "klines" then
    Responded (ok_200 (JKlines [sample_candle 0 1 2; sample_candle 1 2 3]))
  else Responded (ok_200 (JTicker (ofZ 1))).

Definition big_env (_ : nat) : Env :=
  {| env_fetch := big_exchange; env_now := 1709200000000;
     env_localeTime := "10:00:00 AM"; env_timeframe := "1d";
     env_stillMounted := true |}.

(** Where a run takes the universe from: the instrument list, on the first
    run of a pass, or the state (lines 408 to 417). *)
Definition universe_of (env : Env) (st : SchedulerState)
    (universe : list string) : Prop :=
  (symbols st = []
   /\ exists l, fst (fetchWithRetry (env_fetch env) exchangeInfo_url 5 1000)
                = Returned (Some (JExchangeInfo l))
                /\ universe = filter (fun s => endsWith s "USDT") l)
  \/ (symbols st <> [] /\ universe = symbols st).

(** The property names every object literal inherits from
    [Object.prototype] (ECMAScript, with the legacy accessors of its Annex
    B): [MILLISECONDS[tf]] finds them on the prototype chain and reads a
    function or an object there, not [undefined]. *)
Definition Object_prototype_keys : list string :=
  ["constructor"; "hasOwnProperty"; "isPrototypeOf"; "propertyIsEnumerable";
   "toLocaleString"; "toString"; "valueOf"; "__proto__";
   "__defineGetter__"; "__defineSetter__";
   "__lookupGetter__"; "__lookupSetter__"]%string.
(* ===================================================================== *)
(** * Signal classifier: properties                                       *)
(* ===================================================================== *)

Section ClassifierFacts.

Lemma Direction_eqb_eq (a b : Direction) : Direction_eqb a b = true <-> a = b.
Proof. destruct a, b; simpl; split; (reflexivity || discriminate). Qed.

(** [getSignal] walks the rule table of the specification top down. *)
Lemma classify_snapshot_first_match (s : MomentumSnapshot) :
  first_match spec_rules s = Some (classify_snapshot s).
Proof.
  unfold classify_snapshot, spec_rules, first_match, isAbove30, inRange, geb.
  generalize (Direction_eqb (direction s) pump)
             (Direction_eqb (direction s) dump)
             (ofZ 30 <=? pumpStrength s)%num (ofZ 30 <=? dumpStrength s)%num
             (ofZ 21 <=? pumpStrength s)%num (pumpStrength s <=? ofZ 26)%num
             (ofZ 21 <=? dumpStrength s)%num (dumpStrength s <=? ofZ 26)%num
             (ofZ 1 <=? pumpStrength s)%num (pumpStrength s <=? ofZ 10)%num
             (ofZ 1 <=? dumpStrength s)%num (dumpStrength s <=? ofZ 10)%num.
  intros [] [] [] [] [] [] [] [] [] [] [] []; reflexivity.
Qed.

Lemma getSignal_snapshot (rsi : list num) (snap : MomentumSnapshot) :
  getRecentRSIDiff rsi 14 = Some snap ->
  getSignal (Some rsi) = classify_snapshot snap.
Proof. intros H. unfold getSignal. rewrite H. reflexivity. Qed.

Lemma slice_last_length (rsi : list num) (n : nat) :
  (0 < n <= length rsi)%nat -> length (slice_last rsi n) = n.
Proof.
  intros H. unfold slice_last. destruct n as [|n]; [lia|].
  rewrite length_skipn. lia.
Qed.

Lemma classify_snapshot_neutral (s : MomentumSnapshot) :
  direction s = neutral -> classify_snapshot s = NO_STRONG_SIGNAL.
Proof.
  intros H. unfold classify_snapshot. rewrite H. simpl.
  rewrite !andb_false_r. reflexivity.
Qed.

(** A comparison with NaN on either side is false in both directions. *)
Lemma nan_compare_neutral (a b : num) :
  isNaN a = true \/ isNaN b = true ->
  (if (b >? a)%num then pump
   else if (b <? a)%num then dump else neutral) = neutral.
Proof.
  intros [H|H]; [destruct a|destruct b]; try discriminate H;
    unfold gtb, ltb, SFltb; [destruct b|destruct a]; reflexivity.
Qed.

Lemma getRecentRSIDiff_direction (rsi : list num) :
  (14 <= length rsi)%nat ->
  exists snap,
    getRecentRSIDiff rsi 14 = Some snap
    /\ direction snap =
       let w := slice_last rsi 14 in
       if (item w 13 >? item w 0)%num then pump
       else if (item w 13 <? item w 0)%num then dump else neutral.
Proof.
  intros Hlen.
  assert (Hw : length (slice_last rsi 14) = 14%nat)
    by (apply slice_last_length; lia).
  assert (Hlt : (length rsi <? 14)%nat = false) by (apply Nat.ltb_ge; exact Hlen).
  unfold getRecentRSIDiff. rewrite Hlt.
  destruct (extremes (slice_last rsi 14)) as [hi lo].
  rewrite Hw. eexists. split; reflexivity.
Qed.

End ClassifierFacts.

(** C1. [getSignal] walks the seven rules in the order MAX, BALANCE,
    LOWEST, otherwise NO STRONG SIGNAL: for every RSI series with a
    snapshot, its answer is the label of the first rule of the table whose
    guard holds (and NO DATA when there is no snapshot).  In particular,
    whenever the last-14 window gives direction pump and a pump strength
    of at least 30, the answer is MAX ZONE PUMP and not BALANCE ZONE
    PUMP. *)
Theorem getSignal_max_zone_first (rsi : list num) :
  match getRecentRSIDiff rsi 14 with
  | None => getSignal (Some rsi) = NO_DATA
  | Some snap =>
      first_match spec_rules snap = Some (getSignal (Some rsi))
      /\ (direction snap = pump ->
          (pumpStrength snap >=? ofZ 30)%num = true ->
          getSignal (Some rsi) = MAX_ZONE_PUMP
          /\ getSignal (Some rsi) <> BALANCE_ZONE_PUMP)
  end.
Proof.
  destruct (getRecentRSIDiff rsi 14) as [snap|] eqn:Hsnap.
  - rewrite (getSignal_snapshot _ Hsnap). split.
    + apply classify_snapshot_first_match.
    + intros Hdir Hstrength.
      assert (Hmax : classify_snapshot snap = MAX_ZONE_PUMP).
      { unfold classify_snapshot, isAbove30.
        rewrite Hdir, Hstrength. reflexivity. }
      rewrite Hmax. split; [reflexivity | discriminate].
  - unfold getSignal. rewrite Hsnap. reflexivity.
Qed.

Lemma getSignal_max_zone_first_witness :
  getRecentRSIDiff rising_rsi 14 = Some rising_snapshot
  /\ direction rising_snapshot = pump
  /\ (pumpStrength rising_snapshot >=? ofZ 30)%num = true
  /\ getSignal (Some rising_rsi) = MAX_ZONE_PUMP
  /\ first_match spec_rules rising_snapshot = Some MAX_ZONE_PUMP.
Proof.
  assert (H1 : getRecentRSIDiff rising_rsi 14 = Some rising_snapshot)
    by (vm_compute; reflexivity).
  assert (H2 : direction rising_snapshot = pump) by reflexivity.
  assert (H3 : (pumpStrength rising_snapshot >=? ofZ 30)%num = true)
    by (vm_compute; reflexivity).
  split; [exact H1|]. split; [exact H2|]. split; [exact H3|].
  pose proof (getSignal_max_zone_first rising_rsi) as H.
  rewrite H1 in H. destruct H as [Hfirst Hmax].
  destruct (Hmax H2 H3) as [Hlabel _].
  split; [exact Hlabel|]. rewrite Hfirst, Hlabel. reflexivity.
Defined.

(** C10. When the first or the last reading of the last-14 window is the
    sentinel NaN, [getRecentRSIDiff] reports direction neutral, and
    [getSignal] can only answer NO STRONG SIGNAL. *)
Theorem nan_endpoint_neutral (rsi : list num) :
  (14 <= length rsi)%nat ->
  isNaN (item (slice_last rsi 14) 0) = true
  \/ isNaN (item (slice_last rsi 14) 13) = true ->
  (exists snap, getRecentRSIDiff rsi 14 = Some snap /\ direction snap = neutral)
  /\ getSignal (Some rsi) = NO_STRONG_SIGNAL.
Proof.
  intros Hlen Hnan.
  destruct (getRecentRSIDiff_direction rsi Hlen) as (snap & Hsnap & Hdir).
  cbv zeta in Hdir. rewrite (nan_compare_neutral _ _ Hnan) in Hdir.
  split.
  - exists snap. split; assumption.
  - rewrite (getSignal_snapshot _ Hsnap).
    apply classify_snapshot_neutral, Hdir.
Qed.

Lemma nan_endpoint_neutral_witness :
  (14 <= length nan_start_rsi)%nat
  /\ getSignal (Some nan_start_rsi) = NO_STRONG_SIGNAL.
Proof.
  split; [vm_compute; lia|].
  apply (@nan_endpoint_neutral nan_start_rsi); [vm_compute; lia|].
  left; reflexivity.
Defined.

(* ===================================================================== *)
(** * Resilient fetcher: properties                                       *)
(* ===================================================================== *)

Section FetcherFacts.

Variable fetch : string -> nat -> FetchResult.
Variable url : string.
Variable retries : nat.
Variable delay : Z.

Lemma gets_get_then_sleep (waits : list (option Z)) :
  gets (get_then_sleep url waits) = length waits.
Proof.
  unfold gets. induction waits as [|w waits IH]; simpl; [reflexivity|].
  f_equal. exact IH.
Qed.

Lemma sleeps_get_then_sleep (waits : list (option Z)) :
  sleeps (get_then_sleep url waits) = length waits.
Proof.
  unfold sleeps. induction waits as [|w waits IH]; simpl; [reflexivity|].
  f_equal. exact IH.
Qed.

Lemma fetch_attempts_rate_limited (n : nat) : forall i : nat,
  (forall j, (i <= j < i + n)%nat -> is_rate_limit (fetch url j)) ->
  exists waits,
    length waits = n
    /\ fetch_attempts fetch url retries delay n i
       = (Returned None, get_then_sleep url waits).
Proof.
  induction n as [|n IH]; intros i Hall.
  - exists []. split; reflexivity.
  - destruct (Hall i ltac:(lia)) as (r & Hr & Hstatus).
    destruct (IH (S i)) as (waits & Hlen & Hrest).
    { intros j Hj. apply Hall. lia. }
    simpl. rewrite Hr, Hrest.
    assert (Hcode : ((status r =? 429) || (status r =? 418))%Z = true).
    { destruct Hstatus as [-> | ->]; reflexivity. }
    rewrite Hcode.
    eexists (_ :: waits). split; [simpl; f_equal; exact Hlen|].
    reflexivity.
Qed.

End FetcherFacts.

(** C5 (as amended). When every GET is answered with HTTP 429 or 418,
    [fetchWithRetry] sleeps after every response, the one received on the
    last allowed attempt included, and then returns null: it performs
    exactly [retries] GET requests and [retries] sleeps, so the number of
    GET requests stays within the budget. *)
Theorem fetchWithRetry_rate_limited
    (fetch : string -> nat -> FetchResult) (url : string)
    (retries : nat) (delay : Z) :
  (forall i, (i < retries)%nat -> is_rate_limit (fetch url i)) ->
  let '(result, trace) := fetchWithRetry fetch url retries delay in
  result = Returned None
  /\ (exists waits, length waits = retries /\ trace = get_then_sleep url waits)
  /\ gets trace = retries
  /\ sleeps trace = retries.
Proof.
  intros Hall. unfold fetchWithRetry.
  destruct (@fetch_attempts_rate_limited fetch url retries delay retries 0%nat)
    as (waits & Hlen & Heq).
  { intros j Hj. apply Hall. lia. }
  rewrite Heq. split; [reflexivity|]. split.
  - exists waits. split; [exact Hlen | reflexivity].
  - rewrite (gets_get_then_sleep url), (sleeps_get_then_sleep url). split; exact Hlen.
Qed.

Lemma always_429_rate_limited (i : nat) : is_rate_limit (always_429 "u" i).
Proof. exists (rate_limited 429). split; [reflexivity | left; reflexivity]. Qed.

Lemma fetchWithRetry_rate_limited_witness :
  (forall i, (i < 5)%nat -> is_rate_limit (always_429 "u" i))
  /\ gets (snd (fetchWithRetry always_429 "u" 5 1000)) = 5%nat.
Proof.
  split; [intros i _; apply always_429_rate_limited|].
  pose proof (@fetchWithRetry_rate_limited always_429 "u" 5 1000
                (fun i _ => always_429_rate_limited i)) as H.
  destruct (fetchWithRetry always_429 "u" 5 1000) as [result trace].
  destruct H as (_ & _ & Hgets & _). exact Hgets.
Defined.

(** C5 as first stated fails: with a budget of five and a transport that
    always answers 429, five GET requests are made, not more. *)
Lemma rate_limited_gets_within_budget :
  (forall i, is_rate_limit (always_429 "u" i))
  /\ gets (snd (fetchWithRetry always_429 "u" 5 1000)) = 5%nat
  /\ ~ (5 < gets (snd (fetchWithRetry always_429 "u" 5 1000)))%nat.
Proof.
  split; [exact always_429_rate_limited|].
  split; [reflexivity | vm_compute; lia].
Qed.

(** C7 (as amended). When the first GET is answered with a non-success
    status other than 429 and 418, and the error body is not the IP-ban
    body (code -1003) and signals an invalid symbol (code -1121, or message
    "Invalid symbol." or "Invalid symbol status."), [fetchWithRetry] returns
    null on that first attempt: one GET, no retry, no sleep. *)
Theorem fetchWithRetry_invalid_symbol
    (fetch : string -> nat -> FetchResult) (url : string)
    (retries : nat) (delay : Z) (r : Response) (errorBody : json) :
  (0 < retries)%nat ->
  fetch url 0%nat = Responded r ->
  ok r = false ->
  status r <> 429%Z -> status r <> 418%Z ->
  body r = BodyJson errorBody ->
  is_ip_ban_body errorBody = false ->
  is_invalid_symbol_body errorBody = true ->
  fetchWithRetry fetch url retries delay = (Returned None, [EvGet url]).
Proof.
  intros Hpos Hfetch Hok H429 H418 Hbody Hban Hinvalid.
  unfold fetchWithRetry. destruct retries as [|n]; [lia|].
  simpl. rewrite Hfetch.
  apply Z.eqb_neq in H429. apply Z.eqb_neq in H418.
  rewrite H429, H418, Hok, Hbody, Hban, Hinvalid. reflexivity.
Qed.

Lemma fetchWithRetry_invalid_symbol_witness :
  ok invalid_symbol_400 = false
  /\ fetchWithRetry invalid_symbol_then_anything "u" 5 1000
     = (Returned None, [EvGet "u"]).
Proof.
  split; [reflexivity|].
  apply (@fetchWithRetry_invalid_symbol invalid_symbol_then_anything "u" 5 1000
           invalid_symbol_400
           (JErrorBody (Some (-1121)%Z) (Some "Invalid symbol."%string)));
    try reflexivity; try lia; discriminate.
Defined.

(** C7 as first stated fails: a first answer with the non-success status 429
    and the invalid-symbol error body is slept on and retried, and the call
    returns the payload of the second answer; so is a first answer with
    status 400 whose body has the IP-ban code next to the invalid-symbol
    message. *)
Lemma invalid_symbol_body_can_be_retried :
  (exists r errorBody,
     invalid_symbol_429_then_ok "u" 0%nat = Responded r
     /\ ok r = false
     /\ body r = BodyJson errorBody
     /\ is_invalid_symbol_body errorBody = true)
  /\ fetchWithRetry invalid_symbol_429_then_ok "u" 5 1000
     = (Returned (Some (JTicker (ofZ 1))),
        [EvGet "u"; EvSleep (Some 1000%Z); EvGet "u"])
  /\ fetchWithRetry invalid_symbol_429_then_ok "u" 5 1000
     <> (Returned None, [EvGet "u"])
  /\ (exists r errorBody,
       ip_ban_invalid_message_then_ok "u" 0%nat = Responded r
       /\ ok r = false
       /\ body r = BodyJson errorBody
       /\ is_invalid_symbol_body errorBody = true)
  /\ fetchWithRetry ip_ban_invalid_message_then_ok "u" 5 1000
     = (Returned (Some (JTicker (ofZ 1))),
        [EvGet "u"; EvSleep (Some 1000%Z); EvGet "u"]).
Proof.
  split; [eexists _, _; repeat split; reflexivity|].
  split; [reflexivity|]. split; [discriminate|].
  split; [eexists _, _; repeat split; reflexivity | reflexivity].
Qed.

(* ===================================================================== *)
(** * Batch scheduler: one failing symbol                                 *)
(* ===================================================================== *)

(** C6 (the program departs from it). In a batch of two symbols where every
    request about the second fails at the network level, the first symbol
    analyses fine, the second call of [fetchAndAnalyze] rejects once
    [fetchWithRetry] has used its five attempts, and [processBatch] rejects
    with it: nothing is appended to [signals], the cursor does not move, no
    further batch is scheduled and [loading] stays set. *)
Theorem processBatch_one_failure_aborts_batch :
  (exists a, fetchAndAnalyze sample_env "GOODUSDT" "1d" = Returned (Some a))
  /\ fetchWithRetry one_symbol_down (klines_url "BADUSDT" "1d") 5 1000
     = (Thrown {| message := "Failed to fetch" |},
        get_then_sleep (klines_url "BADUSDT" "1d")
          [Some 1000%Z; Some 2000%Z; Some 4000%Z; Some 8000%Z]
        ++ [EvGet (klines_url "BADUSDT" "1d")])
  /\ fetchAndAnalyze sample_env "BADUSDT" "1d"
     = Thrown {| message := "Failed to fetch" |}
  /\ processBatch sample_env two_symbol_state
     = (Thrown {| message := "Failed to fetch" |}, two_symbol_state)
  /\ signals (snd (processBatch sample_env two_symbol_state)) = []
  /\ nextBatchScheduled (snd (processBatch sample_env two_symbol_state)) = false
  /\ loading (snd (processBatch sample_env two_symbol_state)) = true.
Proof.
  split; [eexists; vm_compute; reflexivity|].
  repeat split; vm_compute; reflexivity.
Qed.

(* ===================================================================== *)
(** * Indicator library: the EMA loop                                     *)
(* ===================================================================== *)

Section EMAFacts.

Variable data : list num.
Variable period : nat.
Hypothesis period_pos : (1 <= period)%nat.

Lemma ema_state_S (n : nat) :
  ema_state data period (S n)
  = ema_step data period (smoothing period) (ema_state data period n) n.
Proof. unfold ema_state. rewrite seq_S, fold_left_app. reflexivity. Qed.

Lemma item_app_last (l : list num) (x : num) (n : nat) :
  length l = n -> item (l ++ [x]) n = x.
Proof.
  intros <-. unfold item. rewrite app_nth2, Nat.sub_diag by lia. reflexivity.
Qed.

Lemma item_app_old (l : list num) (x : num) (i : nat) :
  (i < length l)%nat -> item (l ++ [x]) i = item l i.
Proof. intros H. unfold item. apply app_nth1, H. Qed.

(** Loop invariant: the array has one entry per iteration done, and
    [previousEma] is null until the seed index, the last entry after. *)
Lemma ema_state_inv (n : nat) :
  length (fst (ema_state data period n)) = n
  /\ snd (ema_state data period n)
     = if (n <? period)%nat then None
       else Some (item (fst (ema_state data period n)) (n - 1)).
Proof.
  induction n as [|n [IHlen IHprev]].
  - split; [reflexivity|].
    destruct (Nat.ltb_spec 0 period); [reflexivity | lia].
  - rewrite ema_state_S.
    destruct (ema_state data period n) as [ema prev]. cbn [fst snd] in IHlen, IHprev.
    unfold ema_step.
    destruct (Z.ltb_spec (Z.of_nat n) (Z.of_nat period - 1)) as [Hlt|Hge].
    + cbn [fst snd]. rewrite length_app. cbn [length]. split; [lia|].
      destruct (Nat.ltb_spec (S n) period); [|lia].
      destruct (Nat.ltb_spec n period); [exact IHprev | lia].
    + assert (Hprev : exists p,
               (if (Z.of_nat n =? Z.of_nat period - 1)%Z
                then Some (sma data period) else prev) = Some p).
      { destruct (Z.eqb_spec (Z.of_nat n) (Z.of_nat period - 1)).
        - eexists; reflexivity.
        - destruct (Nat.ltb_spec n period); [lia|]. eexists; exact IHprev. }
      destruct Hprev as [p ->]. cbn [fst snd]. rewrite length_app. cbn [length].
      split; [lia|].
      destruct (Nat.ltb_spec (S n) period); [lia|].
      rewrite item_app_last by lia. reflexivity.
Qed.

(** Each iteration appends exactly one entry, the value [ema_pushed]. *)
Lemma ema_state_push (n : nat) :
  fst (ema_state data period (S n))
  = fst (ema_state data period n)
    ++ [ema_pushed data period (fst (ema_state data period n)) n].
Proof.
  destruct (ema_state_inv n) as [Hlen Hprev].
  rewrite ema_state_S.
  destruct (ema_state data period n) as [ema prev]. cbn [fst snd] in Hlen, Hprev |- *.
  unfold ema_step, ema_pushed.
  destruct (Z.ltb_spec (Z.of_nat n) (Z.of_nat period - 1)) as [Hlt|Hge].
  - destruct (Nat.ltb_spec (S n) period); [reflexivity | lia].
  - destruct (Nat.ltb_spec (S n) period); [lia|].
    destruct (Z.eqb_spec (Z.of_nat n) (Z.of_nat period - 1)) as [Heq|Hne].
    + destruct (Nat.eqb_spec (S n) period); [reflexivity | lia].
    + destruct (Nat.eqb_spec (S n) period); [lia|].
      destruct (Nat.ltb_spec n period); [lia|].
      rewrite Hprev. reflexivity.
Qed.

(** Entries already written are never touched again. *)
Lemma ema_state_stable (m n i : nat) :
  (i < n)%nat -> (n <= m)%nat ->
  item (fst (ema_state data period m)) i = item (fst (ema_state data period n)) i.
Proof.
  intros Hi Hnm. induction Hnm as [|m Hnm IH]; [reflexivity|].
  rewrite ema_state_push, item_app_old; [exact IH|].
  rewrite (proj1 (ema_state_inv m)). lia.
Qed.

Lemma ema_state_item (m n : nat) :
  (n < m)%nat ->
  item (fst (ema_state data period m)) n
  = ema_pushed data period (fst (ema_state data period m)) n.
Proof.
  intros Hnm.
  rewrite (@ema_state_stable m (S n) n) by lia.
  rewrite ema_state_push.
  rewrite item_app_last by apply ema_state_inv.
  unfold ema_pushed.
  destruct (Nat.ltb_spec (S n) period); [reflexivity|].
  destruct (Nat.eqb_spec (S n) period); [reflexivity|].
  destruct n as [|n]; [lia|].
  replace (S n - 1)%nat with n by lia.
  rewrite (@ema_state_stable m (S n) n) by lia. reflexivity.
Qed.

Lemma calculateEMA_length : length (calculateEMA data period) = length data.
Proof. unfold calculateEMA. apply ema_state_inv. Qed.

Lemma calculateEMA_item (i : nat) :
  (i < length data)%nat ->
  item (calculateEMA data period) i
  = ema_pushed data period (calculateEMA data period) i.
Proof. intros H. unfold calculateEMA. apply ema_state_item, H. Qed.

End EMAFacts.

(* ===================================================================== *)
(** * Indicator library: the RSI array                                    *)
(* ===================================================================== *)

Section ArrayFacts.

Lemma array_set_length (a : jsarray) (i : nat) (v : num) :
  length (array_set a i v) = Nat.max (length a) (S i).
Proof.
  revert a. induction i as [|i IH]; intros [|x a]; simpl;
    try rewrite IH; simpl; lia.
Qed.

Lemma array_get_set (a : jsarray) (i j : nat) (v : num) :
  array_get (array_set a i v) j
  = if (j =? i)%nat then Some v else array_get a j.
Proof.
  unfold array_get. revert a j.
  induction i as [|i IH]; intros [|x a] [|j]; simpl; try reflexivity.
  - destruct j; reflexivity.
  - rewrite IH. destruct (j =? i)%nat; [reflexivity | destruct j; reflexivity].
  - apply IH.
Qed.

Lemma array_numbers_length (a : jsarray) :
  length (array_numbers a) = length a.
Proof. unfold array_numbers. apply length_map. Qed.

Lemma array_numbers_item (a : jsarray) (j : nat) :
  item (array_numbers a) j
  = match array_get a j with Some v => v | None => NaN end.
Proof.
  unfold item, array_numbers, array_get.
  exact (map_nth (fun x : option num =>
                    match x with Some v => v | None => NaN end) a None j).
Qed.

Lemma fill_sentinels_S (p : nat) (a : jsarray) :
  fill_sentinels (S p) a = array_set (fill_sentinels p a) p NaN.
Proof. unfold fill_sentinels. rewrite seq_S, fold_left_app. reflexivity. Qed.

Lemma fill_sentinels_length (p : nat) (a : jsarray) :
  (p <= length a)%nat -> length (fill_sentinels p a) = length a.
Proof.
  induction p as [|p IH]; intros H; [reflexivity|].
  rewrite fill_sentinels_S, array_set_length, IH by lia. lia.
Qed.

Lemma fill_sentinels_get (p : nat) (a : jsarray) (j : nat) :
  array_get (fill_sentinels p a) j
  = if (j <? p)%nat then Some NaN else array_get a j.
Proof.
  induction p as [|p IH]; [reflexivity|].
  rewrite fill_sentinels_S, array_get_set, IH.
  destruct (Nat.eqb_spec j p), (Nat.ltb_spec j p), (Nat.ltb_spec j (S p));
    try lia; reflexivity.
Qed.

End ArrayFacts.

Section RSIFacts.

Variable closes : list num.
Variable period : nat.

Lemma wilder_state_S (m : nat) :
  wilder_state closes period (S m)
  = wilder_step closes period (wilder_state closes period m) (period + 1 + m).
Proof. unfold wilder_state. rewrite seq_S, fold_left_app. reflexivity. Qed.

Lemma wilder_init_array :
  fst (fst (wilder_init closes period))
  = array_set [] period
      (rsi_value (snd (fst (wilder_init closes period)))
                 (snd (wilder_init closes period))).
Proof. unfold wilder_init. destruct (seed_sums closes period). reflexivity. Qed.

Lemma wilder_state_array_S (m : nat) :
  fst (fst (wilder_state closes period (S m)))
  = array_set (fst (fst (wilder_state closes period m))) (period + 1 + m)
      (rsi_value (snd (fst (wilder_state closes period (S m))))
                 (snd (wilder_state closes period (S m)))).
Proof.
  rewrite wilder_state_S.
  destruct (wilder_state closes period m) as [[rsi g] l]. reflexivity.
Qed.

(** After [m] rounds of the second loop the array reaches index
    [period + m], and every index from [period] on has been written. *)
Lemma wilder_state_shape (m : nat) :
  length (fst (fst (wilder_state closes period m))) = (period + 1 + m)%nat
  /\ forall j, (period <= j < period + 1 + m)%nat ->
       array_get (fst (fst (wilder_state closes period m))) j <> None.
Proof.
  induction m as [|m [IHlen IHget]].
  - unfold wilder_state. simpl fold_left. rewrite wilder_init_array. split.
    + rewrite array_set_length. simpl. lia.
    + intros j Hj. rewrite array_get_set.
      destruct (Nat.eqb_spec j period); [discriminate | lia].
  - rewrite wilder_state_array_S. split.
    + rewrite array_set_length, IHlen. lia.
    + intros j Hj. rewrite array_get_set.
      destruct (Nat.eqb_spec j (period + 1 + m)); [discriminate|].
      apply IHget. lia.
Qed.

Lemma calculateRSI_short :
  (length closes <= period)%nat -> calculateRSI closes period = [].
Proof.
  intros H. unfold calculateRSI.
  destruct (Nat.leb_spec (length closes) period); [reflexivity | lia].
Qed.

Lemma calculateRSI_long :
  (period < length closes)%nat ->
  calculateRSI closes period
  = array_numbers
      (fill_sentinels period
         (fst (fst (wilder_state closes period (length closes - (period + 1)))))).
Proof.
  intros H. unfold calculateRSI.
  destruct (Nat.leb_spec (length closes) period); [lia|].
  destruct (wilder_state closes period _) as [[rsi g] l]. reflexivity.
Qed.

Lemma calculateRSI_length :
  length (calculateRSI closes period)
  = if (length closes <=? period)%nat then 0%nat else length closes.
Proof.
  destruct (Nat.leb_spec (length closes) period) as [H|H].
  - rewrite calculateRSI_short by exact H. reflexivity.
  - rewrite calculateRSI_long by exact H.
    rewrite array_numbers_length, fill_sentinels_length;
      rewrite (proj1 (wilder_state_shape _)); lia.
Qed.

(** No hole is left in the array that [calculateRSI] returns. *)
Lemma calculateRSI_dense (j : nat) :
  (j < length closes)%nat -> (period < length closes)%nat ->
  array_get
    (fill_sentinels period
       (fst (fst (wilder_state closes period (length closes - (period + 1))))))
    j <> None.
Proof.
  intros Hj Hp. rewrite fill_sentinels_get.
  destruct (Nat.ltb_spec j period); [discriminate|].
  apply wilder_state_shape. lia.
Qed.

(** The first [period] positions hold the sentinel. *)
Lemma calculateRSI_sentinels (j : nat) :
  (j < period)%nat -> (period < length closes)%nat ->
  item (calculateRSI closes period) j = NaN.
Proof.
  intros Hj Hp. rewrite calculateRSI_long by exact Hp.
  rewrite array_numbers_item, fill_sentinels_get.
  destruct (Nat.ltb_spec j period); [reflexivity | lia].
Qed.

End RSIFacts.

(** C2 (as amended). For a period of at least 1, [calculateEMA] returns a
    series as long as its input, whatever the input length; [calculateRSI]
    returns a series as long as its input when the input is longer than the
    period, and the empty series when it is not. *)
Theorem indicator_series_length (series : list num) (period : nat) :
  (1 <= period)%nat ->
  length (calculateEMA series period) = length series
  /\ length (calculateRSI series period)
     = if (length series <=? period)%nat then 0%nat else length series.
Proof.
  intros Hp. split.
  - apply calculateEMA_length, Hp.
  - apply calculateRSI_length.
Qed.

Lemma indicator_series_length_witness :
  (1 <= 3)%nat
  /\ length (calculateEMA [ofZ 1; ofZ 2; ofZ 4; ofZ 3; ofZ 5] 3) = 5%nat
  /\ length (calculateRSI [ofZ 1; ofZ 2; ofZ 4; ofZ 3; ofZ 5] 3) = 5%nat.
Proof.
  split; [lia|].
  apply (@indicator_series_length [ofZ 1; ofZ 2; ofZ 4; ofZ 3; ofZ 5] 3). lia.
Defined.

(** C2 as first stated fails: on a three-value input with period 3,
    [calculateRSI] returns the empty series; and with a period of 0,
    [calculateEMA] never leaves its null previous value and returns the
    empty series too. *)
Lemma calculateRSI_length_at_most_period :
  (length [ofZ 1; ofZ 2; ofZ 3] <= 3)%nat
  /\ calculateRSI [ofZ 1; ofZ 2; ofZ 3] 3 = []
  /\ length (calculateRSI [ofZ 1; ofZ 2; ofZ 3] 3)
     <> length [ofZ 1; ofZ 2; ofZ 3]
  /\ calculateEMA [ofZ 1; ofZ 2; ofZ 3] 0 = [].
Proof.
  split; [simpl; lia|]. split; [reflexivity|].
  split; [discriminate | reflexivity].
Qed.

(** C3 (as amended). For [1 <= period <= length], the value at position
    [period - 1] is [close[period-1] * k + sma * (1 - k)], where [sma] is
    the simple average of the first [period] inputs and [k = 2 / (period +
    1)]: the average is the previous EMA of the first smoothing step, not
    the stored value.  Every later position [i] holds
    [close[i] * k + ema[i-1] * (1 - k)], and every earlier one the
    sentinel. *)
Theorem calculateEMA_values (data : list num) (period : nat) :
  (1 <= period)%nat ->
  (period <= length data)%nat ->
  let k := (ofZ 2 / (ofNat period + ofZ 1))%num in
  let ema := calculateEMA data period in
  item ema (period - 1)
  = (item data (period - 1) * k + sma data period * (ofZ 1 - k))%num
  /\ (forall i, (period <= i < length data)%nat ->
        item ema i = (item data i * k + item ema (i - 1) * (ofZ 1 - k))%num)
  /\ (forall i, (i < period - 1)%nat -> item ema i = NaN).
Proof.
  intros Hp Hlen k ema. subst ema. split; [|split].
  - rewrite calculateEMA_item by lia. unfold ema_pushed.
    destruct (Nat.ltb_spec (S (period - 1)) period); [lia|].
    destruct (Nat.eqb_spec (S (period - 1)) period); [reflexivity | lia].
  - intros i Hi. rewrite calculateEMA_item at 1 by lia. unfold ema_pushed.
    destruct (Nat.ltb_spec (S i) period); [lia|].
    destruct (Nat.eqb_spec (S i) period); [lia | reflexivity].
  - intros i Hi. rewrite calculateEMA_item by lia. unfold ema_pushed.
    destruct (Nat.ltb_spec (S i) period); [reflexivity | lia].
Qed.

Lemma calculateEMA_values_witness :
  (1 <= 2)%nat /\ (2 <= length [ofZ 1; ofZ 3; ofZ 5])%nat
  /\ item (calculateEMA [ofZ 1; ofZ 3; ofZ 5] 2) 1
     = (item [ofZ 1; ofZ 3; ofZ 5] 1 * (ofZ 2 / (ofNat 2 + ofZ 1))
        + sma [ofZ 1; ofZ 3; ofZ 5] 2 * (ofZ 1 - ofZ 2 / (ofNat 2 + ofZ 1)))%num.
Proof.
  split; [lia|]. split; [simpl; lia|].
  apply (@calculateEMA_values [ofZ 1; ofZ 3; ofZ 5] 2); simpl; lia.
Defined.

(** C3 as first stated fails: for the series 1, 3 and period 2 the average
    of the first two values is 2, while position 1 holds
    3 * (2/3) + 2 * (1/3), a different double. *)
Lemma calculateEMA_seed_is_smoothed :
  (2 <= length [ofZ 1; ofZ 3])%nat
  /\ sma [ofZ 1; ofZ 3] 2 = ofZ 2
  /\ item (calculateEMA [ofZ 1; ofZ 3] 2) 1
     = S754_finite false 6004799503160662 (-51)
  /\ item (calculateEMA [ofZ 1; ofZ 3] 2) 1 <> sma [ofZ 1; ofZ 3] 2.
Proof.
  split; [simpl; lia|].
  split; [vm_compute; reflexivity|].
  split; [vm_compute; reflexivity|].
  vm_compute. discriminate.
Qed.

(* ===================================================================== *)
(** * Session window calculator: properties                               *)
(* ===================================================================== *)

Section CalendarFacts.
Local Open Scope Z_scope.

(** [YearFromDay d] is the year whose first day is the last one not after
    [d]. *)
Lemma YearFromDay_bounds (d : Z) :
  DayFromYear (YearFromDay d) <= d < DayFromYear (YearFromDay d + 1).
Proof.
  unfold YearFromDay.
  destruct (Z.leb_spec (DayFromYear (1970 + 400 * d / 146097 + 1)) d) as [H1|H1];
    [|destruct (Z.leb_spec (DayFromYear (1970 + 400 * d / 146097)) d) as [H2|H2]].
  - split; [assumption|]. unfold DayFromYear in *.
    Z.div_mod_to_equations; lia.
  - split; assumption.
  - replace (1970 + 400 * d / 146097 - 1 + 1) with (1970 + 400 * d / 146097)
      by lia.
    split; [|assumption]. unfold DayFromYear in *.
    Z.div_mod_to_equations; lia.
Qed.

Lemma YearFromDay_largest (d y : Z) : DayFromYear y <= d -> y <= YearFromDay d.
Proof.
  intros H. pose proof (YearFromDay_bounds d) as [_ Hlt].
  destruct (Z.le_gt_cases y (YearFromDay d)) as [Hle|Hgt]; [exact Hle|].
  exfalso. unfold DayFromYear in *. Z.div_mod_to_equations; lia.
Qed.

(** Time values from the start of the year 100 on have a year of at least
    100. *)
Lemma getUTCFullYear_from_100 (t : Z) :
  -59011459200000 <= t -> 100 <= getUTCFullYear t.
Proof.
  intros H. unfold getUTCFullYear. apply YearFromDay_largest.
  unfold Day, msPerDay. change (DayFromYear 100) with (-683003).
  apply Z.div_le_lower_bound; lia.
Qed.

Lemma MonthFromDayWithinYear_range (dwy leap : Z) :
  0 <= MonthFromDayWithinYear dwy leap <= 11.
Proof.
  unfold MonthFromDayWithinYear.
  repeat match goal with
         | |- context [if ?c then _ else _] => destruct c
         end; lia.
Qed.

(** Reading year, month and date off a time value and handing them back
    to [MakeDay], with the date shifted by [c], gives the day of the time
    value shifted by [c]. *)
Lemma MakeDay_of_fields (t c : Z) :
  MakeDay (getUTCFullYear t) (getUTCMonth t) (getUTCDate t + c) = Day t + c.
Proof.
  pose proof (MonthFromDayWithinYear_range
                (DayWithinYear t) (InLeapYear (getUTCFullYear t))) as Hm.
  fold (getUTCMonth t) in Hm.
  unfold MakeDay.
  rewrite Z.div_small, Z.mod_small, Z.add_0_r by lia.
  unfold getUTCDate, DayWithinYear. lia.
Qed.

Lemma DateUTC_of_fields (t c hour minute : Z) :
  -59011459200000 <= t ->
  DateUTC (getUTCFullYear t) (getUTCMonth t) (getUTCDate t + c) hour minute
  = TimeClip ((Day t + c) * msPerDay + MakeTime hour minute).
Proof.
  intros Ht. pose proof (@getUTCFullYear_from_100 t Ht) as Hy.
  unfold DateUTC.
  destruct (Z.leb_spec (getUTCFullYear t) 99); [lia|].
  rewrite andb_false_r, MakeDay_of_fields. reflexivity.
Qed.

Lemma TimeClip_in_range (t : Z) :
  - 8640000000000000 <= t <= 8640000000000000 -> TimeClip t = Some t.
Proof.
  intros H. unfold TimeClip.
  destruct (Z.leb_spec (Z.abs t) 8640000000000000); [reflexivity | lia].
Qed.

Lemma Day_bounds (t : Z) : Day t * msPerDay <= t < Day t * msPerDay + msPerDay.
Proof. unfold Day, msPerDay. Z.div_mod_to_equations; lia. Qed.

(** The boundary the ['1d'] branch compares [now] with is the UTC midnight
    that opened the current UTC day, so [now] is never before it. *)
Lemma today8AM_not_after_now (now : Z) :
  -59011459200000 <= now <= 8640000000000000 ->
  getUTCMillisFor1d (getUTCFullYear now) (getUTCMonth now) (getUTCDate now) 8 0
  = Some (Day now * msPerDay)
  /\ ge_time now (getUTCMillisFor1d (getUTCFullYear now) (getUTCMonth now)
                                    (getUTCDate now) 8 0) = true.
Proof.
  intros H. pose proof (Day_bounds now) as Hd.
  unfold getUTCMillisFor1d.
  rewrite <- (Z.add_0_r (getUTCDate now)), DateUTC_of_fields by lia.
  unfold MakeTime.
  rewrite TimeClip_in_range
    by (unfold msPerHour, msPerMinute, msPerDay in *; lia).
  split; [f_equal; lia|]. unfold ge_time. apply Z.leb_le. lia.
Qed.

Lemma yesterday8AM_value (now : Z) :
  -59011459200000 <= now <= 8640000000000000 ->
  getUTCMillisFor1d (getUTCFullYear now) (getUTCMonth now)
                    (getUTCDate now - 1) 8 0
  = Some (Day now * msPerDay - msPerDay).
Proof.
  intros H. pose proof (Day_bounds now) as Hd.
  unfold getUTCMillisFor1d.
  rewrite <- (Z.add_opp_r (getUTCDate now) 1), DateUTC_of_fields by lia.
  unfold MakeTime.
  rewrite TimeClip_in_range
    by (unfold msPerHour, msPerMinute, msPerDay in *; lia).
  f_equal. unfold msPerDay. lia.
Qed.

Lemma today745AM_value (now : Z) :
  -59011459200000 <= now <= 8640000000000000 ->
  getUTCMillisFor1d (getUTCFullYear now) (getUTCMonth now) (getUTCDate now) 7 45
  = Some (Day now * msPerDay - 15 * msPerMinute).
Proof.
  intros H. pose proof (Day_bounds now) as Hd.
  unfold getUTCMillisFor1d.
  rewrite <- (Z.add_0_r (getUTCDate now)), DateUTC_of_fields by lia.
  unfold MakeTime.
  rewrite TimeClip_in_range
    by (unfold msPerHour, msPerMinute, msPerDay in *; lia).
  f_equal. unfold msPerHour, msPerMinute. lia.
Qed.

Lemma getSessions_1d (timeframe : string) (now : Z) :
  getSessions (Some "1d"%string) timeframe now
  = sessions1d now (getUTCFullYear now) (getUTCMonth now) (getUTCDate now).
Proof. reflexivity. Qed.

(** The two branches of the ['1d'] case, spelt out. *)
Lemma sessions1d_branches (clock y m d : Z) :
  sessions1d clock y m d
  = if ge_time clock (getUTCMillisFor1d y m d 8 0)
    then {| sessionStart := getUTCMillisFor1d y m d 8 0;
            sessionEnd := getUTCMillisFor1d y m (d + 1) 7 45;
            prevSessionStart := getUTCMillisFor1d y m (d - 1) 8 0;
            prevSessionEnd := getUTCMillisFor1d y m d 7 45 |}
    else {| sessionStart := getUTCMillisFor1d y m (d - 1) 8 0;
            sessionEnd := getUTCMillisFor1d y m d 7 45;
            prevSessionStart := getUTCMillisFor1d y m (d - 1) 8 0;
            prevSessionEnd := getUTCMillisFor1d y m d 7 45 |}.
Proof.
  unfold sessions1d.
  destruct (ge_time clock (getUTCMillisFor1d y m d 8 0)); reflexivity.
Qed.

Lemma sessions1d_previous (clock y m d : Z) :
  prevSessionStart (sessions1d clock y m d) = getUTCMillisFor1d y m (d - 1) 8 0
  /\ prevSessionEnd (sessions1d clock y m d) = getUTCMillisFor1d y m d 7 45.
Proof.
  rewrite sessions1d_branches.
  generalize (getUTCMillisFor1d y m d 8 0) (getUTCMillisFor1d y m (d + 1) 7 45)
             (getUTCMillisFor1d y m (d - 1) 8 0) (getUTCMillisFor1d y m d 7 45).
  intros a b c e. destruct (ge_time clock a); split; reflexivity.
Qed.

(** On the before-08:00 side the current session is the previous one; on
    the other side it starts at the boundary. *)
Lemma sessions1d_current (clock y m d boundary : Z) :
  getUTCMillisFor1d y m d 8 0 = Some boundary ->
  if clock <? boundary
  then sessionStart (sessions1d clock y m d)
       = prevSessionStart (sessions1d clock y m d)
       /\ sessionEnd (sessions1d clock y m d)
          = prevSessionEnd (sessions1d clock y m d)
  else sessionStart (sessions1d clock y m d) = Some boundary.
Proof.
  intros H8. rewrite sessions1d_branches, H8.
  generalize (getUTCMillisFor1d y m (d + 1) 7 45)
             (getUTCMillisFor1d y m (d - 1) 8 0) (getUTCMillisFor1d y m d 7 45).
  intros b c e. unfold ge_time.
  destruct (Z.ltb_spec clock boundary), (Z.leb_spec boundary clock); try lia.
  - split; reflexivity.
  - reflexivity.
Qed.

End CalendarFacts.

(** C9 (as amended). With timeframe ['1d'], [getSessions] returns as
    previous session the window from 08:00 to 07:45 of the UTC+8 clock on
    the dates read from [now] in UTC: as time values, the UTC midnight
    that opened the UTC day before that of [now], and a quarter of an hour
    before the UTC midnight that opened the UTC day of [now].  On the
    calendar of the UTC+8 clock these are yesterday 08:00 and today 07:45
    while the UTC time of day of [now] is before 16:00, and a day earlier
    than that during the remaining eight hours.  The current session
    always starts at the UTC midnight that opened the day of [now], so it
    never coincides with the previous session. *)
Theorem getSessions_1d_previous_session (timeframe : string) (now : Z) :
  (-59011459200000 <= now <= 8640000000000000)%Z ->
  let w := getSessions (Some "1d"%string) timeframe now in
  let y := getUTCFullYear now in
  let m := getUTCMonth now in
  let d := getUTCDate now in
  prevSessionStart w = getUTCMillisFor1d y m (d - 1) 8 0
  /\ prevSessionEnd w = getUTCMillisFor1d y m d 7 45
  /\ prevSessionStart w = Some (Day now * msPerDay - msPerDay)%Z
  /\ prevSessionEnd w = Some (Day now * msPerDay - 15 * msPerMinute)%Z
  /\ (if (now mod msPerDay <? 16 * msPerHour)%Z
      then prevSessionStart w = Some (reference_yesterday8AM now)
           /\ prevSessionEnd w = Some (reference_today745AM now)
      else prevSessionStart w = Some (reference_yesterday8AM now - msPerDay)%Z
           /\ prevSessionEnd w = Some (reference_today745AM now - msPerDay)%Z)
  /\ sessionStart w = Some (Day now * msPerDay)%Z
  /\ sessionStart w <> prevSessionStart w.
Proof.
  intros H w y m d. subst w. rewrite getSessions_1d. fold y m d.
  destruct (today8AM_not_after_now H) as [H8 _]. fold y m d in H8.
  pose proof (yesterday8AM_value H) as Hstart. fold y m d in Hstart.
  pose proof (today745AM_value H) as Hend. fold y m d in Hend.
  clearbody y m d.
  destruct (sessions1d_previous now y m d) as [Hs He].
  pose proof (sessions1d_current now y m d H8) as Hcur.
  pose proof (Day_bounds now) as Hday.
  destruct (Z.ltb_spec now (Day now * msPerDay)) as [Hlt|_]; [lia|].
  rewrite Hs, He, Hcur, Hstart, Hend.
  split; [reflexivity|]. split; [reflexivity|].
  split; [reflexivity|]. split; [reflexivity|].
  split; [|split; [reflexivity|]].
  - unfold reference_yesterday8AM, reference_today745AM, referenceDay, Day,
      msPerDay, msPerHour, msPerMinute.
    destruct (Z.ltb_spec (now mod 86400000) (16 * 3600000));
      split; f_equal; Z.div_mod_to_equations; lia.
  - intros Heq. injection Heq as Heq. unfold msPerDay in Heq. lia.
Qed.

Lemma getSessions_1d_previous_session_witness :
  (-59011459200000 <= 1709200000000 <= 8640000000000000)%Z
  /\ prevSessionStart (getSessions (Some "1d"%string) "4h" 1709200000000)
     = Some 1709078400000%Z
  /\ prevSessionEnd (getSessions (Some "1d"%string) "4h" 1709200000000)
     = Some 1709163900000%Z
  /\ sessionStart (getSessions (Some "1d"%string) "4h" 1709200000000)
     = Some 1709164800000%Z.
Proof.
  split; [lia|].
  pose proof (@getSessions_1d_previous_session "4h" 1709200000000
                ltac:(lia)) as H.
  cbv zeta in H. destruct H as (_ & _ & Hs & He & _ & Hc & _).
  split; [exact Hs|]. split; [exact He | exact Hc].
Defined.

(** C9 as first stated fails: at 20:00 UTC on 29 February 2024, which is
    04:00 on 1 March on the UTC+8 clock and so before that day's 08:00
    boundary, yesterday 08:00 of the UTC+8 clock is the UTC midnight of 29
    February, where [getSessions] returns the UTC midnight of 28 February;
    the end it returns is a day early too; and the current session, which
    starts at the UTC midnight of 29 February, is not the previous one. *)
Lemma getSessions_1d_not_reference_calendar :
  reference_yesterday8AM 1709236800000 = 1709164800000%Z
  /\ prevSessionStart (getSessions (Some "1d"%string) "1d" 1709236800000)
     = Some 1709078400000%Z
  /\ reference_today745AM 1709236800000 = 1709250300000%Z
  /\ prevSessionEnd (getSessions (Some "1d"%string) "1d" 1709236800000)
     = Some 1709163900000%Z
  /\ sessionStart (getSessions (Some "1d"%string) "1d" 1709236800000)
     = Some 1709164800000%Z
  /\ sessionStart (getSessions (Some "1d"%string) "1d" 1709236800000)
     <> prevSessionStart (getSessions (Some "1d"%string) "1d" 1709236800000).
Proof.
  repeat split; try (vm_compute; reflexivity).
  vm_compute. discriminate.
Qed.

(* ===================================================================== *)
(** * Doubles: order                                                      *)
(* ===================================================================== *)

Section OrderFacts.

Lemma compare_lex (x y : num) :
  isNaN x = false -> isNaN y = false ->
  SFcompare x y = Some Lt <-> lex_lt (rank x) (rank y).
Proof.
  intros Hx Hy.
  destruct x as [sx|sx| |sx mx ex], y as [sy|sy| |sy my ey];
    try discriminate Hx; try discriminate Hy;
    try destruct sx; try destruct sy; simpl;
    try (split; [intros H; try discriminate H; lia
                | intros H; try reflexivity; exfalso; lia]).
  - (* both negative *)
    destruct (Z.compare_spec ex ey) as [He|He|He].
    + subst ey. change (Pos.compare_cont Eq mx my) with (Pos.compare mx my).
      destruct (Pos.compare_spec mx my) as [Hm|Hm|Hm]; simpl;
        (split; [intros H; try discriminate H; lia
                | intros H; try reflexivity; exfalso; lia]).
    + split; [intros H; discriminate H | intros H; exfalso; lia].
    + split; [intros _; lia | reflexivity].
  - (* both positive *)
    destruct (Z.compare_spec ex ey) as [He|He|He].
    + subst ey. change (Pos.compare_cont Eq mx my) with (Pos.compare mx my).
      destruct (Pos.compare_spec mx my) as [Hm|Hm|Hm]; simpl;
        (split; [intros H; try discriminate H; lia
                | intros H; try reflexivity; exfalso; lia]).
    + split; [intros _; lia | reflexivity].
    + split; [intros H; discriminate H | intros H; exfalso; lia].
Qed.

Lemma ltb_not_nan (x y : num) :
  (x <? y)%num = true -> isNaN x = false /\ isNaN y = false.
Proof.
  unfold ltb, SFltb. destruct x, y; simpl; intros H;
    try discriminate H; split; reflexivity.
Qed.

Lemma ltb_lex (x y : num) :
  (x <? y)%num = true
  <-> isNaN x = false /\ isNaN y = false /\ lex_lt (rank x) (rank y).
Proof.
  split.
  - intros H. destruct (@ltb_not_nan _ _ H) as [Hx Hy].
    repeat split; try assumption.
    apply compare_lex; try assumption.
    unfold ltb, SFltb in H.
    destruct (SFcompare x y) as [[]|]; try discriminate H; reflexivity.
  - intros (Hx & Hy & Hlt). unfold ltb, SFltb.
    rewrite (proj2 (@compare_lex x y Hx Hy) Hlt). reflexivity.
Qed.

Lemma lex_lt_trans (a b c : Z * Z * Z) : lex_lt a b -> lex_lt b c -> lex_lt a c.
Proof. destruct a as [[? ?] ?], b as [[? ?] ?], c as [[? ?] ?]; simpl; lia. Qed.

Lemma lex_lt_asym (a b : Z * Z * Z) : lex_lt a b -> lex_lt b a -> False.
Proof. destruct a as [[? ?] ?], b as [[? ?] ?]; simpl; lia. Qed.

Lemma ltb_trans (x y z : num) :
  (x <? y)%num = true -> (y <? z)%num = true -> (x <? z)%num = true.
Proof.
  rewrite !ltb_lex. intros (Hx & _ & H1) (_ & Hz & H2).
  repeat split; try assumption. exact (@lex_lt_trans _ _ _ H1 H2).
Qed.

Lemma ltb_asym (x y : num) :
  (x <? y)%num = true -> (y <? x)%num = false.
Proof.
  intros H. destruct (y <? x)%num eqn:E; [|reflexivity].
  apply ltb_lex in H. apply ltb_lex in E.
  destruct H as (_ & _ & H1), E as (_ & _ & H2).
  destruct (@lex_lt_asym _ _ H1 H2).
Qed.

End OrderFacts.

(* ===================================================================== *)
(** * Doubles: mantissas and alignment                                    *)
(* ===================================================================== *)

Section MantissaFacts.
Local Open Scope Z_scope.

Lemma digits2_pos_log2 (p : positive) :
  Z.pos (digits2_pos p) = Z.log2 (Z.pos p) + 1.
Proof.
  assert (Hsize : forall q, digits2_pos q = Pos.size q).
  { induction q as [q IH|q IH|]; simpl; try rewrite IH; reflexivity. }
  destruct p as [p|p|]; simpl; rewrite ?Hsize; lia.
Qed.

(** A mantissa of [d] binary digits lies in [2^(d-1), 2^d). *)
Lemma digits2_pos_bounds (p : positive) :
  2 ^ (Z.pos (digits2_pos p) - 1) <= Z.pos p < 2 ^ Z.pos (digits2_pos p).
Proof.
  rewrite digits2_pos_log2.
  pose proof (Z.log2_spec (Z.pos p) ltac:(lia)) as H.
  replace (Z.log2 (Z.pos p) + 1 - 1) with (Z.log2 (Z.pos p)) by lia.
  replace (Z.log2 (Z.pos p) + 1) with (Z.succ (Z.log2 (Z.pos p))) by lia.
  exact H.
Qed.

Lemma digits2_pos_unique (p : positive) (k : Z) :
  2 ^ (k - 1) <= Z.pos p < 2 ^ k -> Z.pos (digits2_pos p) = k.
Proof.
  intros H. rewrite digits2_pos_log2.
  assert (Hk : 0 <= k - 1).
  { destruct (Z.le_gt_cases 0 (k - 1)) as [Hle|Hgt]; [exact Hle|].
    exfalso. assert (k <= 0) by lia.
    assert (2 ^ k <= 2 ^ 0) by (apply Z.pow_le_mono_r; lia).
    change (2 ^ 0) with 1 in *. lia. }
  rewrite (Z.log2_unique (Z.pos p) (k - 1)); [lia | exact Hk|].
  replace (Z.succ (k - 1)) with k by lia. exact H.
Qed.

Lemma Zdigits2_nonneg (m : Z) : 0 <= Zdigits2 m.
Proof. destruct m; simpl; lia. Qed.

(** For a positive [m], [Zdigits2 m <= k] says [m < 2^k]. *)
Lemma Zdigits2_le (m k : Z) : 0 < m -> 0 <= k -> (Zdigits2 m <= k <-> m < 2 ^ k).
Proof.
  intros Hm Hk. destruct m as [|p|p]; try lia. simpl.
  pose proof (digits2_pos_bounds p) as [Hlo Hhi].
  split; intros H.
  - apply Z.lt_le_trans with (1 := Hhi). apply Z.pow_le_mono_r; lia.
  - destruct (Z.le_gt_cases (Z.pos (digits2_pos p)) k) as [Hle|Hgt]; [exact Hle|].
    exfalso.
    assert (2 ^ k <= 2 ^ (Z.pos (digits2_pos p) - 1))
      by (apply Z.pow_le_mono_r; lia).
    lia.
Qed.

Lemma iter_xO (m d : positive) : Z.pos (Pos.iter xO m d) = Z.pos m * 2 ^ Z.pos d.
Proof.
  induction d as [|d IH] using Pos.peano_ind.
  - simpl. lia.
  - rewrite Pos.iter_succ, Pos2Z.inj_succ, Z.pow_succ_r by lia.
    rewrite Pos2Z.inj_xO, IH. lia.
Qed.

(** Lowering the exponent multiplies the mantissa by the matching power
    of two; the exponent is never raised. *)
Lemma shl_align_fst (m : positive) (e e' : Z) :
  e' <= e -> Z.pos (fst (shl_align m e e')) = Z.pos m * 2 ^ (e - e').
Proof.
  intros H. unfold shl_align.
  destruct (e' - e) as [|d|d] eqn:E; simpl.
  - replace (e - e') with 0 by lia. simpl. lia.
  - lia.
  - rewrite iter_xO. replace (e - e') with (Z.pos d) by lia. reflexivity.
Qed.

Lemma shl_align_snd (m : positive) (e e' : Z) :
  e' <= e -> snd (shl_align m e e') = e'.
Proof.
  intros H. unfold shl_align.
  destruct (e' - e) as [|d|d] eqn:E; simpl; lia.
Qed.

Lemma shl_align_keep (m : positive) (e e' : Z) :
  e <= e' -> shl_align m e e' = (m, e).
Proof.
  intros H. unfold shl_align.
  destruct (e' - e) as [|d|d] eqn:E; try reflexivity. lia.
Qed.

(** What validity says about a finite double: the exponent is at least
    -1074 and at most 971, the mantissa has at most 53 digits, and exactly
    53 above the least exponent. *)
Lemma valid_finite (s : bool) (m : positive) (e : Z) :
  valid (S754_finite s m e) = true ->
  -1074 <= e <= 971
  /\ Z.pos (digits2_pos m) <= 53
  /\ (-1074 < e -> Z.pos (digits2_pos m) = 53).
Proof.
  unfold valid, valid_binary, bounded, canonical_mantissa, fexp, SpecFloat.emin,
    prec, emax.
  intros H. apply andb_true_iff in H. destruct H as [Hc Hb].
  apply Z.eqb_eq in Hc. apply Z.leb_le in Hb. lia.
Qed.

(** On valid finite doubles, [<] is the order of the aligned signed
    mantissas. *)
Lemma ltb_scaled (x y : num) (sx sy : bool) (mx my : positive) (ex ey : Z) :
  x = S754_finite sx mx ex -> y = S754_finite sy my ey ->
  valid x = true -> valid y = true ->
  (x <? y)%num = true ->
  scaled x (Z.min ex ey) < scaled y (Z.min ex ey).
Proof.
  intros -> -> Vx Vy Hlt.
  apply valid_finite in Vx, Vy.
  destruct Vx as (Hex & Hdx & Hnx), Vy as (Hey & Hdy & Hny).
  pose proof (digits2_pos_bounds mx) as [Hxlo Hxhi].
  pose proof (digits2_pos_bounds my) as [Hylo Hyhi].
  apply ltb_lex in Hlt. destruct Hlt as (_ & _ & Hlt).
  unfold scaled. rewrite !shl_align_fst by lia.
  assert (Hpow : forall a b, a < b -> 2 * 2 ^ 0 <= 2 ^ (b - a)).
  { intros a b Hab. change (2 * 2 ^ 0) with (2 ^ 1).
    apply Z.pow_le_mono_r; lia. }
  assert (H53 : forall d, d <= 53 -> 2 ^ d <= 2 ^ 53)
    by (intros d Hd; apply Z.pow_le_mono_r; lia).
  assert (H52 : 2 * 2 ^ 52 = 2 ^ 53) by reflexivity.
  destruct (Z.compare_spec ex ey) as [He|He|He].
  - subst ey. rewrite Z.min_id, Z.sub_diag. change (2 ^ 0) with 1.
    destruct sx, sy; unfold cond_Zopp; cbn [rank lex_lt] in Hlt; lia.
  - (* ex < ey: y sits above the least exponent, so it has 53 digits *)
    rewrite Z.min_l, Z.sub_diag by lia. change (2 ^ 0) with 1.
    specialize (Hny ltac:(lia)). rewrite Hny in Hylo.
    change (2 ^ (53 - 1)) with (2 ^ 52) in Hylo.
    specialize (Hpow ex ey He). specialize (H53 _ Hdx).
    change (2 ^ 0) with 1 in Hpow.
    destruct sx, sy; unfold cond_Zopp; cbn [rank lex_lt] in Hlt; try lia; nia.
  - rewrite Z.min_r, Z.sub_diag by lia. change (2 ^ 0) with 1.
    specialize (Hnx ltac:(lia)). rewrite Hnx in Hxlo.
    change (2 ^ (53 - 1)) with (2 ^ 52) in Hxlo.
    specialize (Hpow ey ex He). specialize (H53 _ Hdy).
    change (2 ^ 0) with 1 in Hpow.
    destruct sx, sy; unfold cond_Zopp; cbn [rank lex_lt] in Hlt; try lia; nia.
Qed.

End MantissaFacts.

(* ===================================================================== *)
(** * Doubles: subtraction                                                *)
(* ===================================================================== *)

Section SubtractionFacts.
Local Open Scope Z_scope.

Lemma sub_finite (sx sy : bool) (mx my : positive) (ex ey : Z) :
  sub (S754_finite sx mx ex) (S754_finite sy my ey)
  = binary_normalize prec emax
      (scaled (S754_finite sx mx ex) (Z.min ex ey)
       - scaled (S754_finite sy my ey) (Z.min ex ey))
      (Z.min ex ey) false.
Proof. reflexivity. Qed.

(** The sign given to the rounding function only labels its result. *)
Lemma abs_binary_round_aux (s : bool) (m e : Z) (l : location) :
  abs (binary_round_aux prec emax s m e l) = binary_round_aux prec emax false m e l.
Proof.
  unfold binary_round_aux.
  destruct (shr_fexp prec emax m e l) as [mrs' e'].
  destruct (shr_fexp prec emax _ e' loc_Exact) as [mrs'' e''].
  destruct (shr_m mrs''); try reflexivity.
  destruct (e'' <=? emax - prec); reflexivity.
Qed.

Lemma abs_binary_round (s : bool) (m : positive) (e : Z) :
  abs (binary_round prec emax s m e) = binary_round prec emax false m e.
Proof.
  unfold binary_round.
  destruct (shl_align m e _) as [mz ez]. apply abs_binary_round_aux.
Qed.

(** Swapping the operands of a subtraction of finite doubles whose aligned
    mantissas differ changes the sign of the result and nothing else. *)
Lemma sub_finite_swap (x y : num) (sx sy : bool) (mx my : positive) (ex ey : Z) :
  x = S754_finite sx mx ex -> y = S754_finite sy my ey ->
  scaled y (Z.min ey ex) < scaled x (Z.min ey ex) ->
  sub x y = abs (sub y x).
Proof.
  intros -> -> Hlt. rewrite !sub_finite. rewrite (Z.min_comm ex ey).
  set (X := scaled (S754_finite sx mx ex) (Z.min ey ex)) in *.
  set (Y := scaled (S754_finite sy my ey) (Z.min ey ex)) in *.
  destruct (X - Y) as [|d|d] eqn:E; try lia.
  replace (Y - X) with (Z.neg d) by lia.
  unfold binary_normalize. symmetry. apply abs_binary_round.
Qed.

Lemma sub_self (x : num) : sub x x = abs (sub x x).
Proof.
  destruct x as [s|s| |s m e].
  - destruct s; reflexivity.
  - destruct s; reflexivity.
  - reflexivity.
  - rewrite sub_finite, Z.sub_diag. reflexivity.
Qed.

(** For valid readings [lo < hi], [hi - lo] is [|lo - hi|]. *)
Lemma sub_ordered (hi lo : num) :
  valid hi = true -> valid lo = true -> (lo <? hi)%num = true ->
  sub hi lo = abs (sub lo hi).
Proof.
  intros Vhi Vlo Hlt.
  destruct lo as [sl|sl| |sl ml el], hi as [sh|sh| |sh mh eh];
    try (destruct sl); try (destruct sh);
    try discriminate Hlt; try reflexivity;
    eapply sub_finite_swap; try reflexivity;
    eapply ltb_scaled; try reflexivity; assumption.
Qed.

End SubtractionFacts.

(* ===================================================================== *)
(** * Indicator library: the extremes of the window                       *)
(* ===================================================================== *)

Section ExtremesFacts.

Lemma extremes_step_nan (st : num * num) (v : num) :
  isNaN v = true -> extremes_step st v = st.
Proof. intros H. destruct st as [hi lo]. unfold extremes_step. rewrite H. reflexivity. Qed.

(** The first defined reading becomes both extremes. *)
Lemma extremes_step_first (v : num) :
  isNaN v = false -> extremes_step (NegInfinity, Infinity) v = (v, v).
Proof.
  intros H. unfold extremes_step. rewrite H.
  destruct v as [s|s| |s m e]; try discriminate H; destruct s; reflexivity.
Qed.

Lemma extremes_step_ok (st : num * num) (v : num) :
  valid v = true -> extremes_ok st -> extremes_ok (extremes_step st v).
Proof.
  intros Vv. destruct st as [hi lo].
  intros (Nhi & Nlo & Vhi & Vlo & Hord).
  unfold extremes_step.
  destruct (isNaN v) eqn:Nv; simpl negb; cbv iota.
  - repeat split; assumption.
  - unfold gtb.
    destruct (hi <? v)%num eqn:Hhv, (v <? lo)%num eqn:Hvl;
      unfold extremes_ok; repeat split; try assumption.
    + (* above the high extreme and below the low one: impossible *)
      exfalso. destruct Hord as [-> | Hlh].
      * rewrite (ltb_asym _ _ Hhv) in Hvl. discriminate.
      * pose proof (ltb_trans _ _ _ Hvl Hlh) as Hvh.
        rewrite (ltb_asym _ _ Hhv) in Hvh. discriminate.
    + right. destruct Hord as [-> | Hlh]; [exact Hhv|].
      exact (ltb_trans _ _ _ Hlh Hhv).
    + right. destruct Hord as [-> | Hlh]; [exact Hvl|].
      exact (ltb_trans _ _ _ Hvl Hlh).
Qed.

Lemma extremes_fold_ok (l : list num) : forall st : num * num,
  Forall (fun x => valid x = true) l -> extremes_ok st ->
  extremes_ok (fold_left extremes_step l st).
Proof.
  induction l as [|v l IH]; intros st Hl Hst; [exact Hst|].
  simpl. inversion Hl; subst. apply IH; [assumption|].
  apply extremes_step_ok; assumption.
Qed.

(** Either every reading of the window is the sentinel and the extremes keep
    their initial infinities, or the extremes are defined and ordered. *)
Lemma extremes_cases (l : list num) :
  Forall (fun x => valid x = true) l ->
  if forallb isNaN l then extremes l = (NegInfinity, Infinity)
  else extremes_ok (extremes l).
Proof.
  unfold extremes. induction l as [|v l IH]; intros Hl; [reflexivity|].
  inversion Hl; subst. cbn [forallb fold_left].
  destruct (isNaN v) eqn:Nv; cbn [andb].
  - rewrite extremes_step_nan by exact Nv. apply IH. assumption.
  - rewrite extremes_step_first by exact Nv.
    apply extremes_fold_ok; [assumption|].
    unfold extremes_ok. repeat split; try assumption. left; reflexivity.
Qed.

Lemma extremes_ok_strengths (hi lo : num) :
  extremes_ok (hi, lo) -> sub hi lo = abs (sub lo hi).
Proof.
  intros (_ & _ & Vhi & Vlo & [-> | Hlt]).
  - apply sub_self.
  - apply sub_ordered; assumption.
Qed.

Lemma Forall_skipn {A : Type} (P : A -> Prop) (n : nat) (l : list A) :
  Forall P l -> Forall P (skipn n l).
Proof.
  revert l. induction n as [|n IH]; intros l H; [exact H|].
  destruct l as [|a l]; [exact H|]. inversion H; subst. apply IH. assumption.
Qed.

Lemma getRecentRSIDiff_strengths (rsi : list num) :
  (14 <= length rsi)%nat ->
  exists snap,
    getRecentRSIDiff rsi 14 = Some snap
    /\ (recentHigh snap, recentLow snap) = extremes (slice_last rsi 14)
    /\ pumpStrength snap = sub (recentHigh snap) (recentLow snap)
    /\ dumpStrength snap = abs (sub (recentLow snap) (recentHigh snap)).
Proof.
  intros Hlen.
  assert (Hlt : (length rsi <? 14)%nat = false) by (apply Nat.ltb_ge; exact Hlen).
  unfold getRecentRSIDiff. rewrite Hlt.
  destruct (extremes (slice_last rsi 14)) as [hi lo].
  eexists. repeat split; reflexivity.
Qed.

End ExtremesFacts.

(** C4 (as amended). For an RSI series of valid doubles of length at least
    14 whose last-14 window holds at least one defined reading, the
    snapshot has pumpStrength = dumpStrength, as the same double (both are
    NaN when the two extremes are one infinity).  When every reading of the
    window is the sentinel NaN, the extremes keep their initial infinities,
    pumpStrength is minus infinity and dumpStrength is plus infinity. *)
Theorem snapshot_strengths (rsi : list num) :
  (14 <= length rsi)%nat ->
  Forall (fun x => valid x = true) rsi ->
  exists snap,
    getRecentRSIDiff rsi 14 = Some snap
    /\ if forallb isNaN (slice_last rsi 14)
       then recentHigh snap = NegInfinity /\ recentLow snap = Infinity
            /\ pumpStrength snap = NegInfinity /\ dumpStrength snap = Infinity
       else pumpStrength snap = dumpStrength snap.
Proof.
  intros Hlen Hvalid.
  destruct (getRecentRSIDiff_strengths rsi Hlen) as (snap & Hsnap & Hext & Hp & Hd).
  exists snap. split; [exact Hsnap|].
  assert (Hw : Forall (fun x => valid x = true) (slice_last rsi 14))
    by (apply Forall_skipn; exact Hvalid).
  pose proof (extremes_cases Hw) as Hcases.
  destruct (forallb isNaN (slice_last rsi 14)).
  - rewrite Hcases in Hext. injection Hext as Hhi Hlo.
    rewrite Hp, Hd, Hhi, Hlo. repeat split; reflexivity.
  - rewrite <- Hext in Hcases. rewrite Hp, Hd.
    apply extremes_ok_strengths, Hcases.
Qed.

Lemma snapshot_strengths_witness :
  (14 <= length rising_rsi)%nat
  /\ Forall (fun x => valid x = true) rising_rsi
  /\ exists snap,
       getRecentRSIDiff rising_rsi 14 = Some snap
       /\ pumpStrength snap = dumpStrength snap.
Proof.
  assert (Hlen : (14 <= length rising_rsi)%nat) by (vm_compute; lia).
  assert (Hvalid : Forall (fun x => valid x = true) rising_rsi)
    by (repeat constructor).
  split; [exact Hlen|]. split; [exact Hvalid|].
  destruct (@snapshot_strengths rising_rsi Hlen Hvalid) as (snap & Hsnap & H).
  exists snap. split; [exact Hsnap | exact H].
Defined.

(** C4 as first stated fails on a window of fourteen NaN readings: there
    pumpStrength is minus infinity while dumpStrength is plus infinity. *)
Lemma all_nan_window_strengths_differ :
  (14 <= length all_nan_rsi)%nat
  /\ forallb isNaN (slice_last all_nan_rsi 14) = true
  /\ exists snap,
       getRecentRSIDiff all_nan_rsi 14 = Some snap
       /\ pumpStrength snap = NegInfinity
       /\ dumpStrength snap = Infinity
       /\ pumpStrength snap <> dumpStrength snap.
Proof.
  split; [vm_compute; lia|]. split; [reflexivity|].
  eexists. split; [vm_compute; reflexivity|].
  repeat split. discriminate.
Qed.

(* ===================================================================== *)
(** * Doubles: rounding                                                   *)
(* ===================================================================== *)

Section RoundingFacts.
Local Open Scope Z_scope.

Lemma shr_1_m (r : shr_record) : 0 <= shr_m r -> shr_m (shr_1 r) = shr_m r / 2.
Proof.
  destruct r as [m b s]. simpl. intros Hm.
  destruct m as [|[q|q|]|q]; simpl; try lia; try reflexivity.
  - rewrite Pos2Z.inj_xI. Z.div_mod_to_equations; lia.
  - rewrite Pos2Z.inj_xO. Z.div_mod_to_equations; lia.
Qed.

Lemma pow2_xO (p : positive) : 2 ^ Z.pos p~0 = 2 ^ Z.pos p * 2 ^ Z.pos p.
Proof.
  replace (Z.pos p~0) with (Z.pos p + Z.pos p) by lia.
  apply Z.pow_add_r; lia.
Qed.

Lemma pow2_xI (p : positive) : 2 ^ Z.pos p~1 = 2 * (2 ^ Z.pos p * 2 ^ Z.pos p).
Proof.
  replace (Z.pos p~1) with (1 + (Z.pos p + Z.pos p)) by lia.
  rewrite !Z.pow_add_r by lia. reflexivity.
Qed.

(** Shifting right by [p] places divides the mantissa by [2^p]. *)
Lemma iter_shr_1_m (p : positive) : forall r : shr_record,
  0 <= shr_m r -> shr_m (iter_pos shr_1 p r) = shr_m r / 2 ^ Z.pos p.
Proof.
  induction p as [p IH|p IH|]; intros r Hr; simpl iter_pos.
  - assert (H1 : 0 <= shr_m (shr_1 r))
      by (rewrite shr_1_m by exact Hr; apply Z.div_pos; lia).
    assert (H2 : 0 <= shr_m (iter_pos shr_1 p (shr_1 r)))
      by (rewrite IH by exact H1; apply Z.div_pos; [exact H1 | lia]).
    rewrite IH by exact H2. rewrite IH by exact H1. rewrite shr_1_m by exact Hr.
    assert (Hpos : 0 < 2 ^ Z.pos p) by (apply Z.pow_pos_nonneg; lia).
    rewrite !Z.div_div by lia.
    f_equal. rewrite pow2_xI. lia.
  - assert (H1 : 0 <= shr_m (iter_pos shr_1 p r))
      by (rewrite IH by exact Hr; apply Z.div_pos; [exact Hr | lia]).
    rewrite IH by exact H1. rewrite IH by exact Hr.
    assert (Hpos : 0 < 2 ^ Z.pos p) by (apply Z.pow_pos_nonneg; lia).
    rewrite Z.div_div by lia.
    f_equal. rewrite pow2_xO. reflexivity.
  - rewrite shr_1_m by exact Hr. reflexivity.
Qed.

Lemma shr_record_of_loc_m (m : Z) (l : location) : shr_m (shr_record_of_loc m l) = m.
Proof. destruct l as [|[]]; reflexivity. Qed.

(** Bringing a positive mantissa at an exponent of at least -1074 to its
    canonical exponent keeps it positive, does not enlarge it, and raises
    the exponent to [digits + e - 53] when that is larger. *)
Lemma shr_fexp_pos (m e : Z) (l : location) :
  0 < m -> -1074 <= e ->
  0 < shr_m (fst (shr_fexp prec emax m e l)) <= m
  /\ snd (shr_fexp prec emax m e l) = Z.max e (Zdigits2 m + e - 53).
Proof.
  intros Hm He. unfold shr_fexp, shr, fexp, SpecFloat.emin, prec, emax.
  destruct m as [|q|q]; try lia. simpl Zdigits2.
  pose proof (digits2_pos_bounds q) as [Hlo Hhi].
  set (d := Z.pos (digits2_pos q)) in *.
  destruct (Z.max (d + e - 53) (3 - 1024 - 53) - e) as [|sh|sh] eqn:E; simpl fst; simpl snd.
  - rewrite shr_record_of_loc_m. lia.
  - rewrite iter_shr_1_m by (rewrite shr_record_of_loc_m; lia).
    rewrite shr_record_of_loc_m.
    assert (Hsh : Z.pos sh = d - 53) by lia.
    assert (Hpow : 2 ^ Z.pos sh <= 2 ^ (d - 1)) by (apply Z.pow_le_mono_r; lia).
    assert (Hpos : 0 < 2 ^ Z.pos sh) by (apply Z.pow_pos_nonneg; lia).
    repeat split.
    + apply Z.div_str_pos. lia.
    + apply Z.div_le_upper_bound; [lia | nia].
    + lia.
  - rewrite shr_record_of_loc_m. lia.
Qed.

Lemma round_nearest_even_bounds (m : Z) (l : location) :
  m <= round_nearest_even m l <= m + 1.
Proof.
  unfold round_nearest_even. destruct l as [|[]]; try lia.
  destruct (Z.even m); lia.
Qed.

(** Rounding a positive mantissa of at most [D] digits at an exponent [e]
    of at least -1074: the result is positive, finite when its exponent fits
    and infinite otherwise; the exponent is not lowered, and it is raised by
    no more than the excess of [D + 1] digits over 53 allows. *)
Lemma binary_round_aux_pos (s : bool) (m e D : Z) (l : location) :
  0 < m -> -1074 <= e -> Zdigits2 m <= D ->
  exists (m' : positive) (e' : Z),
    e <= e' <= Z.max e (D + e - 53) + Z.max 0 (D + 1 - 53)
    /\ Z.pos (digits2_pos m') <= D + 1
    /\ binary_round_aux prec emax s m e l
       = if e' <=? 971 then S754_finite s m' e' else S754_infinity s.
Proof.
  intros Hm He HD.
  pose proof (Zdigits2_nonneg m) as Hd0.
  unfold binary_round_aux.
  pose proof (@shr_fexp_pos m e l Hm He) as [[Hm1 Hm1'] He1].
  destruct (shr_fexp prec emax m e l) as [r1 e1]. simpl fst in *. simpl snd in *.
  set (m2 := round_nearest_even (shr_m r1) (loc_of_shr_record r1)).
  pose proof (round_nearest_even_bounds (shr_m r1) (loc_of_shr_record r1)) as Hm2.
  fold m2 in Hm2.
  assert (Hm2pos : 0 < m2) by lia.
  assert (He1' : -1074 <= e1) by lia.
  pose proof (@shr_fexp_pos m2 e1 loc_Exact Hm2pos He1') as [[Hm3 Hm3'] He2].
  destruct (shr_fexp prec emax m2 e1 loc_Exact) as [r2 e2].
  simpl fst in *. simpl snd in *.
  assert (HmD : m < 2 ^ D) by (apply Zdigits2_le; lia).
  assert (Hpow : 2 * 2 ^ D = 2 ^ (D + 1))
    by (rewrite Z.pow_add_r by lia; change (2 ^ 1) with 2; lia).
  assert (Hd2 : Zdigits2 m2 <= D + 1) by (apply Zdigits2_le; lia).
  destruct (shr_m r2) as [|m3|m3] eqn:E3; try lia.
  exists m3, e2. split; [|split].
  - pose proof (Zdigits2_nonneg m2). lia.
  - change (Z.pos (digits2_pos m3)) with (Zdigits2 (Z.pos m3)).
    apply Zdigits2_le; lia.
  - reflexivity.
Qed.

(** Rounding never turns a positive mantissa at an exponent of at least
    -1074 into zero or NaN. *)
Lemma binary_round_aux_positive (s : bool) (m e : Z) (l : location) :
  0 < m -> -1074 <= e ->
  (exists m' e', binary_round_aux prec emax s m e l = S754_finite s m' e')
  \/ binary_round_aux prec emax s m e l = S754_infinity s.
Proof.
  intros Hm He.
  destruct (@binary_round_aux_pos s m e (Zdigits2 m) l Hm He (Z.le_refl _))
    as (m' & e' & _ & _ & H).
  rewrite H. destruct (e' <=? 971); [left; eauto | right; reflexivity].
Qed.

End RoundingFacts.

Section NormalizeFacts.
Local Open Scope Z_scope.

Lemma Zdigits2_shift (m : positive) (k : Z) :
  0 <= k -> Zdigits2 (Z.pos m * 2 ^ k) = Z.pos (digits2_pos m) + k.
Proof.
  intros Hk. pose proof (digits2_pos_bounds m) as [Hlo Hhi].
  set (d := Z.pos (digits2_pos m)) in *.
  assert (Hd : 0 < d) by (unfold d; lia).
  clearbody d.
  assert (Hpos : 0 < 2 ^ k) by (apply Z.pow_pos_nonneg; lia).
  assert (H1 : 2 ^ (d + k - 1) = 2 ^ (d - 1) * 2 ^ k).
  { replace (d + k - 1) with (d - 1 + k) by lia. apply Z.pow_add_r; lia. }
  assert (H2 : 2 ^ (d + k) = 2 ^ d * 2 ^ k) by (apply Z.pow_add_r; lia).
  destruct (Z.pos m * 2 ^ k) as [|q|q] eqn:E; try nia.
  change (Zdigits2 (Z.pos q)) with (Z.pos (digits2_pos q)).
  apply digits2_pos_unique. rewrite <- E, H1, H2. nia.
Qed.

(** [binary_round] first lowers the exponent to the canonical one when it
    is above it; that exponent is never below -1074. *)
Lemma binary_round_align (s : bool) (m : positive) (e : Z) :
  -1074 <= e ->
  exists (mz : positive) (ez : Z),
    binary_round prec emax s m e = binary_round_aux prec emax s (Z.pos mz) ez loc_Exact
    /\ -1074 <= ez <= e
    /\ Z.min e (Z.pos (digits2_pos m) + e - 53) <= ez
    /\ Z.pos (digits2_pos mz) <= Z.max (Z.pos (digits2_pos m)) 53.
Proof.
  intros He. unfold binary_round.
  set (t := fexp prec emax (Z.pos (digits2_pos m) + e)).
  assert (Ht : t = Z.max (Z.pos (digits2_pos m) + e - 53) (-1074)) by reflexivity.
  destruct (Z.le_gt_cases e t) as [Hle|Hgt].
  - rewrite shl_align_keep by exact Hle. exists m, e. repeat split; lia.
  - pose proof (@shl_align_fst m e t ltac:(lia)) as Hfst.
    pose proof (@shl_align_snd m e t ltac:(lia)) as Hsnd.
    destruct (shl_align m e t) as [mz ez]. cbn [fst snd] in Hfst, Hsnd. subst ez.
    exists mz, t. repeat split; try lia.
    change (Z.pos (digits2_pos mz)) with (Zdigits2 (Z.pos mz)).
    rewrite Hfst, Zdigits2_shift by lia. lia.
Qed.

Lemma binary_round_positive (s : bool) (m : positive) (e : Z) :
  -1074 <= e ->
  (exists m' e', binary_round prec emax s m e = S754_finite s m' e')
  \/ binary_round prec emax s m e = S754_infinity s.
Proof.
  intros He.
  destruct (@binary_round_align s m e He) as (mz & ez & -> & Hez & _).
  apply binary_round_aux_positive; lia.
Qed.

(** A mantissa of at most [D >= 53] digits at a moderate exponent rounds to
    a finite number, whose exponent and mantissa stay in a known window. *)
Lemma binary_round_finite (s : bool) (m : positive) (e D : Z) :
  -1074 <= e -> Z.pos (digits2_pos m) <= D -> 53 <= D ->
  Z.max e (D + e - 53) + (D - 52) <= 971 ->
  exists (m' : positive) (e' : Z),
    binary_round prec emax s m e = S754_finite s m' e'
    /\ Z.min e (Z.pos (digits2_pos m) + e - 53) <= e'
    /\ e' <= Z.max e (D + e - 53) + (D - 52)
    /\ Z.pos (digits2_pos m') <= D + 1.
Proof.
  intros He Hd HD Hfit.
  destruct (@binary_round_align s m e He) as (mz & ez & -> & Hez & Hlow & Hdz).
  destruct (@binary_round_aux_pos s (Z.pos mz) ez D loc_Exact)
    as (m' & e' & He' & Hd' & Heq); try lia.
  { simpl. lia. }
  exists m', e'.
  destruct (Z.leb_spec e' 971); [|lia].
  repeat split; try assumption; lia.
Qed.

(** A positive integer below [2^53] read as a number. *)
Lemma ofZ_small (z : Z) :
  0 < z < 2 ^ 53 ->
  exists (m : positive) (e : Z),
    ofZ z = S754_finite false m e
    /\ -52 <= e <= 1 /\ Z.pos (digits2_pos m) <= 54.
Proof.
  intros Hz. destruct z as [|q|q]; try lia.
  unfold ofZ, binary_normalize.
  assert (Hq : Z.pos (digits2_pos q) <= 53).
  { change (Z.pos (digits2_pos q)) with (Zdigits2 (Z.pos q)).
    apply Zdigits2_le; lia. }
  destruct (@binary_round_finite false q 0 53) as (m & e & Heq & Hlo & Hhi & Hd);
    try lia.
  exists m, e. split; [exact Heq|].
  pose proof (Pos2Z.is_pos (digits2_pos q)). lia.
Qed.

(** The result of a subtraction of finite numbers is never NaN. *)
Lemma binary_normalize_finite (z e D : Z) :
  -1074 <= e -> Z.abs z < 2 ^ D -> 53 <= D ->
  Z.max e (D + e - 53) + (D - 52) <= 971 ->
  (exists s, binary_normalize prec emax z e false = S754_zero s)
  \/ (exists s m' e', binary_normalize prec emax z e false = S754_finite s m' e').
Proof.
  intros He Hz HD Hfit. destruct z as [|q|q]; simpl binary_normalize.
  - left. eexists; reflexivity.
  - right. destruct (@binary_round_finite false q e D) as (m' & e' & Heq & _);
      try lia.
    { change (Z.pos (digits2_pos q)) with (Zdigits2 (Z.pos q)).
      apply Zdigits2_le; lia. }
    eauto.
  - right. destruct (@binary_round_finite true q e D) as (m' & e' & Heq & _);
      try lia.
    { change (Z.pos (digits2_pos q)) with (Zdigits2 (Z.pos q)).
      apply Zdigits2_le; lia. }
    eauto.
Qed.

(** [period - 1] for an array-sized period: zero or finite. *)
Lemma period_minus_one (p : nat) :
  (1 <= p)%nat -> Z.of_nat p < 2 ^ 32 ->
  (exists s, sub (ofNat p) (ofZ 1) = S754_zero s)
  \/ (exists s m e, sub (ofNat p) (ofZ 1) = S754_finite s m e).
Proof.
  intros Hp Hbound. unfold ofNat.
  destruct (@ofZ_small (Z.of_nat p)) as (m & e & -> & He & Hd).
  { split; [lia|]. apply Z.lt_trans with (1 := Hbound). reflexivity. }
  change (ofZ 1) with (S754_finite false 4503599627370496 (-52)).
  rewrite sub_finite. unfold scaled, cond_Zopp.
  rewrite Z.min_r by lia. rewrite shl_align_fst by lia.
  rewrite shl_align_fst by lia. rewrite Z.sub_diag. change (2 ^ 0) with 1.
  pose proof (digits2_pos_bounds m) as [_ Hm].
  assert (Hm54 : Z.pos m < 2 ^ 54).
  { apply Z.lt_le_trans with (1 := Hm). apply Z.pow_le_mono_r; lia. }
  assert (Hsh : 0 < 2 ^ (e - -52) <= 2 ^ 53).
  { split; [apply Z.pow_pos_nonneg; lia | apply Z.pow_le_mono_r; lia]. }
  apply (@binary_normalize_finite _ (-52) 107); try lia.
  change (2 ^ 107) with (2 ^ 54 * 2 ^ 53).
  change (4503599627370496 * 1) with 4503599627370496.
  assert (4503599627370496 < 2 ^ 54 * 2 ^ 53) by reflexivity.
  assert (0 < 2 ^ 54) by reflexivity.
  nia.
Qed.

(** An array-sized period of at least 1 is a positive finite number. *)
Lemma period_finite (p : nat) :
  (1 <= p)%nat -> Z.of_nat p < 2 ^ 32 ->
  exists m e, ofNat p = S754_finite false m e.
Proof.
  intros Hp Hbound. unfold ofNat.
  destruct (@ofZ_small (Z.of_nat p)) as (m & e & Heq & _).
  { split; [lia|]. apply Z.lt_trans with (1 := Hbound). reflexivity. }
  eauto.
Qed.

(** For valid doubles [a < b], the difference [b - a] is positive: it never
    rounds to zero. *)
Lemma sub_positive (a b : num) :
  valid a = true -> valid b = true -> (a <? b)%num = true ->
  (sub b a >? zero)%num = true.
Proof.
  intros Va Vb Hlt.
  destruct a as [sa|sa| |sa ma ea], b as [sb|sb| |sb mb eb];
    try (destruct sa); try (destruct sb);
    try discriminate Hlt; try reflexivity.
  all: pose proof (@ltb_scaled _ _ _ _ _ _ _ _ eq_refl eq_refl Va Vb Hlt) as Hs;
    apply valid_finite in Va, Vb;
    rewrite sub_finite, (Z.min_comm eb ea);
    match goal with
    | |- context [binary_normalize _ _ ?z _ _] =>
        destruct z as [|d|d] eqn:E; try lia
    end;
    unfold binary_normalize;
    destruct (@binary_round_positive false d (Z.min ea eb) ltac:(lia))
      as [(m' & e' & ->) | ->]; reflexivity.
Qed.

End NormalizeFacts.

(* ===================================================================== *)
(** * Indicator library: RSI of a rising series                           *)
(* ===================================================================== *)

Section RisingRSI.

Variable closes : list num.
Variable period : nat.
Hypothesis period_pos : (1 <= period)%nat.
Hypothesis period_lt : (period < length closes)%nat.
Hypothesis array_sized : (Z.of_nat (length closes) < 2 ^ 32)%Z.
Hypothesis closes_valid : Forall (fun x => valid x = true) closes.
Hypothesis closes_rising : strictly_increasing closes.

Lemma strictly_increasing_item (l : list num) : forall i : nat,
  strictly_increasing l -> (S i < length l)%nat ->
  (item l i <? item l (S i))%num = true.
Proof.
  induction l as [|a l IH]; intros i Hinc Hi; [simpl in Hi; lia|].
  destruct l as [|b l]; [simpl in Hi; lia|].
  destruct Hinc as [Hab Hrest].
  destruct i as [|i]; [exact Hab|].
  apply (IH i Hrest). simpl in Hi |- *. lia.
Qed.

Lemma valid_item (i : nat) : (i < length closes)%nat -> valid (item closes i) = true.
Proof.
  intros Hi. unfold item.
  exact (proj1 (Forall_forall _ closes) closes_valid _ (nth_In closes NaN Hi)).
Qed.

(** Every step of the series is a positive difference. *)
Lemma diff_positive (i : nat) :
  (1 <= i < length closes)%nat ->
  (item closes i - item closes (i - 1) >? zero)%num = true.
Proof.
  intros Hi. destruct i as [|i]; [lia|].
  replace (S i - 1)%nat with i by lia.
  apply sub_positive; try (apply valid_item; lia).
  apply strictly_increasing_item; [exact closes_rising | lia].
Qed.

Lemma rsi_value_zero_loss (avgGain avgLoss : num) :
  is_zero avgLoss -> rsi_value avgGain avgLoss = ofZ 100.
Proof. intros [s ->]. destruct s; reflexivity. Qed.

(** The first loop never touches [losses]. *)
Lemma seed_losses (idxs : list nat) : forall st : num * num,
  (forall i, In i idxs -> (1 <= i < length closes)%nat) ->
  snd (fold_left (seed_step closes) idxs st) = snd st.
Proof.
  induction idxs as [|i idxs IH]; intros [gains losses] Hidx; [reflexivity|].
  cbn [fold_left]. rewrite IH by (intros j Hj; apply Hidx; right; exact Hj).
  unfold seed_step. rewrite diff_positive by (apply Hidx; left; reflexivity).
  reflexivity.
Qed.

Lemma div_zero_period (x : num) : is_zero x -> is_zero (x / ofNat period)%num.
Proof.
  intros [s ->].
  destruct (@period_finite period period_pos) as (m & e & ->); [lia|].
  eexists. reflexivity.
Qed.

Lemma wilder_init_rising :
  is_zero (snd (wilder_init closes period))
  /\ fst (fst (wilder_init closes period)) = array_set [] period (ofZ 100).
Proof.
  assert (Hloss : is_zero (snd (wilder_init closes period))).
  { unfold wilder_init.
    pose proof (@seed_losses (seq 1 period) (zero, zero)) as Hl.
    fold (seed_sums closes period) in Hl.
    destruct (seed_sums closes period) as [gains losses]. cbn [snd] in Hl |- *.
    rewrite Hl by (intros i Hi; apply in_seq in Hi; lia).
    apply div_zero_period. exists false. reflexivity. }
  split; [exact Hloss|].
  rewrite wilder_init_array. f_equal. apply rsi_value_zero_loss, Hloss.
Qed.

(** One round of the second loop keeps the average loss at zero. *)
Lemma wilder_step_loss (st : jsarray * num * num) (i : nat) :
  (1 <= i < length closes)%nat ->
  is_zero (snd st) -> is_zero (snd (wilder_step closes period st i)).
Proof.
  intros Hi Hz. destruct st as [[rsi g] l]. cbn [snd] in Hz.
  unfold wilder_step. cbn [snd].
  pose proof (diff_positive Hi) as Hpos. unfold gtb in Hpos.
  rewrite (ltb_asym _ _ Hpos).
  apply div_zero_period.
  destruct Hz as [s ->].
  destruct (@period_minus_one period period_pos) as [[s1 ->] | (s1 & m & e & ->)];
    try lia; destruct s, s1; eexists; reflexivity.
Qed.

Lemma wilder_state_rising (m : nat) :
  (period + m < length closes)%nat ->
  is_zero (snd (wilder_state closes period m))
  /\ forall j, (period <= j < period + 1 + m)%nat ->
       array_get (fst (fst (wilder_state closes period m))) j = Some (ofZ 100).
Proof.
  induction m as [|m IH]; intros Hm.
  - unfold wilder_state. cbn [seq fold_left].
    destruct wilder_init_rising as [Hz Harr]. split; [exact Hz|].
    intros j Hj. rewrite Harr, array_get_set.
    destruct (Nat.eqb_spec j period); [reflexivity | lia].
  - destruct (IH ltac:(lia)) as [Hz Hget].
    assert (Hz' : is_zero (snd (wilder_state closes period (S m)))).
    { rewrite wilder_state_S. apply wilder_step_loss; [lia | exact Hz]. }
    split; [exact Hz'|].
    intros j Hj. rewrite wilder_state_array_S, array_get_set.
    destruct (Nat.eqb_spec j (period + 1 + m)).
    + f_equal. apply rsi_value_zero_loss, Hz'.
    + apply Hget. lia.
Qed.

Lemma calculateRSI_rising (i : nat) :
  (i < length closes)%nat ->
  item (calculateRSI closes period) i = if (i <? period)%nat then NaN else ofZ 100.
Proof.
  intros Hi. destruct (Nat.ltb_spec i period) as [Hlt|Hge].
  - apply calculateRSI_sentinels; assumption.
  - rewrite calculateRSI_long by exact period_lt.
    rewrite array_numbers_item, fill_sentinels_get.
    destruct (Nat.ltb_spec i period); [lia|].
    destruct (@wilder_state_rising (length closes - (period + 1))) as [_ Hget];
      [lia|].
    rewrite Hget by lia. reflexivity.
Qed.

End RisingRSI.

(** With a period of 0 the seed averages are 0/0: every position then
    holds NaN, whatever the series. *)
Section ZeroPeriodRSI.

Variable closes : list num.

Lemma rsi_value_nan_loss (avgGain : num) : rsi_value avgGain NaN = NaN.
Proof. destruct avgGain; reflexivity. Qed.

Lemma wilder_state_zero_period (m : nat) :
  snd (wilder_state closes 0 m) = NaN
  /\ forall j, (j < 1 + m)%nat ->
       array_get (fst (fst (wilder_state closes 0 m))) j = Some NaN.
Proof.
  induction m as [|m [IHl IHget]].
  - split; [reflexivity|]. intros j Hj.
    replace j with 0%nat by lia. reflexivity.
  - assert (Hl : snd (wilder_state closes 0 (S m)) = NaN).
    { rewrite wilder_state_S.
      destruct (wilder_state closes 0 m) as [[rsi g] l]. cbn [snd] in IHl.
      subst l. reflexivity. }
    split; [exact Hl|].
    intros j Hj. rewrite wilder_state_array_S, array_get_set, Hl.
    destruct (Nat.eqb_spec j (0 + 1 + m)).
    + f_equal. apply rsi_value_nan_loss.
    + apply IHget. lia.
Qed.

Lemma calculateRSI_zero_period (i : nat) :
  (i < length closes)%nat -> item (calculateRSI closes 0) i = NaN.
Proof.
  intros Hi. rewrite calculateRSI_long by lia.
  rewrite array_numbers_item, fill_sentinels_get.
  destruct (Nat.ltb_spec i 0); [lia|].
  destruct (wilder_state_zero_period (length closes - (0 + 1))) as [_ Hget].
  rewrite Hget by lia. reflexivity.
Qed.

End ZeroPeriodRSI.

(** C8. On a strictly increasing series of valid doubles that is longer
    than the period (an array holds fewer than 2^32 elements),
    [calculateRSI] returns 100 at every defined position, that is wherever
    the returned value is not the sentinel NaN; for a period of at least 1
    these are the positions from [period] on: the average loss stays zero,
    RS is plus infinity, and [100 - 100 / (1 + RS)] is exactly 100. *)
Theorem calculateRSI_strictly_increasing (closes : list num) (period : nat) :
  (period < length closes)%nat ->
  (Z.of_nat (length closes) < 2 ^ 32)%Z ->
  Forall (fun x => valid x = true) closes ->
  strictly_increasing closes ->
  length (calculateRSI closes period) = length closes
  /\ (forall i, (i < length closes)%nat ->
        isNaN (item (calculateRSI closes period) i) = false ->
        item (calculateRSI closes period) i = ofZ 100)
  /\ (forall i, (i < period)%nat -> item (calculateRSI closes period) i = NaN)
  /\ ((1 <= period)%nat ->
      forall i, (period <= i < length closes)%nat ->
        item (calculateRSI closes period) i = ofZ 100).
Proof.
  intros Hlen Hsize Hvalid Hrising.
  assert (Hitem : (1 <= period)%nat -> forall i, (i < length closes)%nat ->
            item (calculateRSI closes period) i
            = if (i <? period)%nat then NaN else ofZ 100)
    by (intros Hp i Hi; apply calculateRSI_rising; assumption).
  split; [|split; [|split]].
  - rewrite calculateRSI_length.
    destruct (Nat.leb_spec (length closes) period); [lia | reflexivity].
  - intros i Hi. destruct period as [|p].
    + rewrite calculateRSI_zero_period by exact Hi. discriminate.
    + rewrite Hitem by lia.
      destruct (i <? S p)%nat; [discriminate | reflexivity].
  - intros i Hi. apply calculateRSI_sentinels; assumption.
  - intros Hp i Hi. rewrite Hitem by lia.
    destruct (Nat.ltb_spec i period); [lia | reflexivity].
Qed.

Lemma calculateRSI_strictly_increasing_witness :
  (3 < length rising_closes)%nat
  /\ strictly_increasing rising_closes
  /\ calculateRSI rising_closes 3 = [NaN; NaN; NaN; ofZ 100; ofZ 100; ofZ 100]
  /\ item (calculateRSI rising_closes 3) 5 = ofZ 100.
Proof.
  assert (Hlen : (3 < length rising_closes)%nat) by (vm_compute; lia).
  assert (Hinc : strictly_increasing rising_closes)
    by (repeat split; reflexivity).
  split; [exact Hlen|]. split; [exact Hinc|]. split; [vm_compute; reflexivity|].
  destruct (@calculateRSI_strictly_increasing rising_closes 3)
    as (_ & _ & _ & H); try assumption.
  - vm_compute. reflexivity.
  - repeat constructor.
  - apply H; [lia|]. vm_compute. lia.
Defined.

(* ===================================================================== *)
(** * Resilient fetcher: budget, backoff and provenance                   *)
(* ===================================================================== *)

Section FetcherBudget.

Variable fetch : string -> nat -> FetchResult.
Variable url : string.
Variable retries : nat.
Variable delay : Z.

(** One iteration either sleeps and hands over to the next iteration, or
    ends the call after its GET.  It ends with an exception only when no
    attempt is left and the message does not mention an invalid symbol; it
    ends with a payload only when the GET was answered with a success
    status and that payload. *)
Lemma fetch_attempts_step (n i : nat) :
  (exists w,
     fetch_attempts fetch url retries delay (S n) i
     = (fst (fetch_attempts fetch url retries delay n (S i)),
        EvGet url :: EvSleep w
        :: snd (fetch_attempts fetch url retries delay n (S i))))
  \/ (exists result,
        fetch_attempts fetch url retries delay (S n) i = (result, [EvGet url])
        /\ (forall e, result = Thrown e ->
              (Z.of_nat retries - 1 <= Z.of_nat i)%Z
              /\ includes (message e) "Invalid symbol" = false)
        /\ (forall j, result = Returned (Some j) ->
              exists r, fetch url i = Responded r
                        /\ ok r = true
                        /\ status r <> 429%Z /\ status r <> 418%Z
                        /\ body r = BodyJson j)).
Proof.
  assert (Hcaught : forall error : JsError,
    (exists w,
       (if (Z.of_nat i <? Z.of_nat retries - 1)%Z
        then let '(result, events) :=
               fetch_attempts fetch url retries delay n (S i) in
             (result, EvGet url :: EvSleep (Some (backoff delay i)) :: events)
        else if includes (message error) "Invalid symbol"
             then (Returned None, [EvGet url])
             else (Thrown error, [EvGet url]))
       = (fst (fetch_attempts fetch url retries delay n (S i)),
          EvGet url :: EvSleep w
          :: snd (fetch_attempts fetch url retries delay n (S i))))
    \/ (exists result,
          (if (Z.of_nat i <? Z.of_nat retries - 1)%Z
           then let '(result, events) :=
                  fetch_attempts fetch url retries delay n (S i) in
                (result, EvGet url :: EvSleep (Some (backoff delay i)) :: events)
           else if includes (message error) "Invalid symbol"
                then (Returned None, [EvGet url])
                else (Thrown error, [EvGet url]))
          = (result, [EvGet url])
          /\ (forall e, result = Thrown e ->
                (Z.of_nat retries - 1 <= Z.of_nat i)%Z
                /\ includes (message e) "Invalid symbol" = false)
          /\ (forall j, result = Returned (Some j) ->
                exists r, fetch url i = Responded r
                          /\ ok r = true
                          /\ status r <> 429%Z /\ status r <> 418%Z
                          /\ body r = BodyJson j))).
  { intros error.
    destruct (Z.ltb_spec (Z.of_nat i) (Z.of_nat retries - 1)) as [Hlt|Hge].
    - left. eexists.
      destruct (fetch_attempts fetch url retries delay n (S i)); reflexivity.
    - right. destruct (includes (message error) "Invalid symbol") eqn:Hinc.
      + eexists. split; [reflexivity|]. split; intros ? H; discriminate H.
      + eexists. split; [reflexivity|]. split.
        * intros e H. injection H as <-. split; [lia | exact Hinc].
        * intros ? H; discriminate H. }
  cbn [fetch_attempts].
  destruct (fetch url i) as [e|r] eqn:Hf; [apply Hcaught|].
  destruct ((status r =? 429) || (status r =? 418))%Z eqn:Hrate.
  - left. eexists.
    destruct (fetch_attempts fetch url retries delay n (S i)); reflexivity.
  - apply orb_false_iff in Hrate. destruct Hrate as [H429 H418].
    apply Z.eqb_neq in H429, H418.
    destruct (ok r) eqn:Hok; cbn [negb].
    + destruct (body r) as [e|j] eqn:Hb; [apply Hcaught|].
      right. eexists. split; [reflexivity|]. split.
      * intros ? H; discriminate H.
      * intros j' H. injection H as <-. exists r. repeat split; assumption.
    + destruct (body r) as [e|errorBody] eqn:Hb; [apply Hcaught|].
      destruct (is_ip_ban_body errorBody).
      * left. eexists.
        destruct (fetch_attempts fetch url retries delay n (S i)); reflexivity.
      * destruct (is_invalid_symbol_body errorBody); [|apply Hcaught].
        right. eexists. split; [reflexivity|]. split; intros ? H; discriminate H.
Qed.

Lemma fetch_attempts_budget (n : nat) : forall i : nat,
  let t := snd (fetch_attempts fetch url retries delay n i) in
  (gets t <= n)%nat /\ (sleeps t <= gets t <= sleeps t + 1)%nat.
Proof.
  induction n as [|n IH]; intros i; [cbn; lia|].
  specialize (IH (S i)). cbv zeta in IH |- *.
  destruct (fetch_attempts_step n i) as [[w ->] | (result & -> & _)].
  - cbn [snd]. unfold gets, sleeps in *. cbn. lia.
  - cbn. lia.
Qed.

Lemma fetch_attempts_thrown (n : nat) : forall (i : nat) (e : JsError),
  (n + i = retries)%nat ->
  fst (fetch_attempts fetch url retries delay n i) = Thrown e ->
  gets (snd (fetch_attempts fetch url retries delay n i)) = n
  /\ (1 <= n)%nat
  /\ includes (message e) "Invalid symbol" = false.
Proof.
  induction n as [|n IH]; intros i e Hsum Hres; [discriminate Hres|].
  destruct (fetch_attempts_step n i) as [[w Heq] | (result & Heq & Hthrown & _)];
    rewrite Heq in Hres |- *; cbn [fst snd] in Hres |- *.
  - destruct (IH (S i) e ltac:(lia) Hres) as (Hg & Hn & Hm).
    unfold gets in *. cbn. split; [lia|]. split; [lia | exact Hm].
  - destruct (Hthrown e Hres) as [Hlast Hm].
    assert (n = 0%nat) by lia. subst n.
    split; [reflexivity|]. split; [lia | exact Hm].
Qed.

Lemma fetch_attempts_payload (n : nat) : forall (i : nat) (j : json),
  (n + i = retries)%nat ->
  fst (fetch_attempts fetch url retries delay n i) = Returned (Some j) ->
  exists (k : nat) (r : Response),
    (i <= k < retries)%nat
    /\ fetch url k = Responded r
    /\ ok r = true /\ status r <> 429%Z /\ status r <> 418%Z
    /\ body r = BodyJson j.
Proof.
  induction n as [|n IH]; intros i j Hsum Hres; [discriminate Hres|].
  destruct (fetch_attempts_step n i) as [[w Heq] | (result & Heq & _ & Hpay)];
    rewrite Heq in Hres; cbn [fst] in Hres.
  - destruct (IH (S i) j ltac:(lia) Hres) as (k & r & Hk & H).
    exists k, r. split; [lia | exact H].
  - destruct (Hpay j Hres) as (r & H). exists i, r. split; [lia | exact H].
Qed.

(** A run of [k] rate-limited answers costs [k] GETs and [k] sleeps and
    leaves the rest of the budget to the following attempts. *)
Lemma fetch_attempts_rate_limited_prefix (k : nat) : forall n i : nat,
  (forall j, (i <= j < i + k)%nat -> is_rate_limit (fetch url j)) ->
  exists waits,
    length waits = k
    /\ fetch_attempts fetch url retries delay (k + n) i
       = (fst (fetch_attempts fetch url retries delay n (i + k)),
          get_then_sleep url waits
          ++ snd (fetch_attempts fetch url retries delay n (i + k))).
Proof.
  induction k as [|k IH]; intros n i Hall.
  - exists []. split; [reflexivity|]. rewrite Nat.add_0_r. cbn [Nat.add].
    destruct (fetch_attempts fetch url retries delay n i); reflexivity.
  - destruct (Hall i ltac:(lia)) as (r & Hr & Hstatus).
    destruct (IH n (S i)) as (waits & Hlen & Hrest).
    { intros j Hj. apply Hall. lia. }
    assert (Hcode : ((status r =? 429) || (status r =? 418))%Z = true).
    { destruct Hstatus as [-> | ->]; reflexivity. }
    cbn [Nat.add fetch_attempts]. rewrite Hr, Hcode, Hrest.
    replace (i + S k)%nat with (S i + k)%nat by lia.
    eexists (_ :: waits). split; [cbn; f_equal; exact Hlen | reflexivity].
Qed.

(** With the network down at every attempt, the waits are the exponential
    backoff [delay * 2^i], one after each attempt but the last. *)
Lemma fetch_attempts_network_down (err : nat -> JsError) (n : nat) :
  forall i : nat,
  (S n + i = retries)%nat ->
  (forall j, (i <= j < retries)%nat -> fetch url j = NetworkError (err j)) ->
  fetch_attempts fetch url retries delay (S n) i
  = (if includes (message (err (retries - 1))) "Invalid symbol"
     then Returned None else Thrown (err (retries - 1)),
     get_then_sleep url (backoff_waits delay i n) ++ [EvGet url]).
Proof.
  induction n as [|n IH]; intros i Hsum Hall.
  - cbn [fetch_attempts]. rewrite Hall by lia.
    destruct (Z.ltb_spec (Z.of_nat i) (Z.of_nat retries - 1)); [lia|].
    replace (retries - 1)%nat with i by lia.
    destruct (includes (message (err i)) "Invalid symbol"); reflexivity.
  - specialize (IH (S i) ltac:(lia)).
    remember (S n) as n' eqn:Hn'.
    cbn [fetch_attempts]. rewrite Hall by lia.
    destruct (Z.ltb_spec (Z.of_nat i) (Z.of_nat retries - 1)); [|lia].
    subst n'. rewrite IH by (intros j Hj; apply Hall; lia).
    reflexivity.
Qed.

End FetcherBudget.

(** X1. Whatever the transport answers, [fetchWithRetry] issues at most
    [retries] GET requests, and its sleeps alternate with them: there are
    as many sleeps as GETs, or one fewer. *)
Theorem fetchWithRetry_within_budget
    (fetch : string -> nat -> FetchResult) (url : string)
    (retries : nat) (delay : Z) :
  let trace := snd (fetchWithRetry fetch url retries delay) in
  (gets trace <= retries)%nat
  /\ (sleeps trace <= gets trace <= sleeps trace + 1)%nat.
Proof. apply fetch_attempts_budget. Qed.

(** X2. [fetchWithRetry] lets an exception out only once the whole budget is
    used: the call has then made exactly [retries] GET requests, and the
    message of the exception does not mention an invalid symbol. *)
Theorem fetchWithRetry_throws_last
    (fetch : string -> nat -> FetchResult) (url : string)
    (retries : nat) (delay : Z) (e : JsError) :
  fst (fetchWithRetry fetch url retries delay) = Thrown e ->
  gets (snd (fetchWithRetry fetch url retries delay)) = retries
  /\ (1 <= retries)%nat
  /\ includes (message e) "Invalid symbol" = false.
Proof.
  intros H. unfold fetchWithRetry in *.
  apply (@fetch_attempts_thrown fetch url retries delay retries 0%nat e);
    [lia | exact H].
Qed.

Lemma fetchWithRetry_throws_last_witness :
  fst (fetchWithRetry network_down "u" 5 1000)
  = Thrown {| message := "Failed to fetch" |}
  /\ gets (snd (fetchWithRetry network_down "u" 5 1000)) = 5%nat.
Proof.
  assert (H : fst (fetchWithRetry network_down "u" 5 1000)
              = Thrown {| message := "Failed to fetch" |}) by reflexivity.
  split; [exact H|].
  exact (proj1 (@fetchWithRetry_throws_last network_down "u" 5 1000 _ H)).
Defined.

(** X3. A payload returned by [fetchWithRetry] is the parsed body of one of
    its own GET attempts, answered with a success status. *)
Theorem fetchWithRetry_payload_provenance
    (fetch : string -> nat -> FetchResult) (url : string)
    (retries : nat) (delay : Z) (j : json) :
  fst (fetchWithRetry fetch url retries delay) = Returned (Some j) ->
  exists (k : nat) (r : Response),
    (k < retries)%nat
    /\ fetch url k = Responded r
    /\ ok r = true /\ status r <> 429%Z /\ status r <> 418%Z
    /\ body r = BodyJson j.
Proof.
  intros H. unfold fetchWithRetry in H.
  destruct (@fetch_attempts_payload fetch url retries delay retries 0%nat j
              ltac:(lia) H) as (k & r & Hk & Hr).
  exists k, r. split; [lia | exact Hr].
Qed.

Lemma fetchWithRetry_payload_provenance_witness :
  fst (fetchWithRetry twice_429_then_ok "u" 5 1000)
  = Returned (Some (JTicker (ofZ 1)))
  /\ exists (k : nat) (r : Response),
       (k < 5)%nat /\ twice_429_then_ok "u" k = Responded r /\ ok r = true.
Proof.
  assert (H : fst (fetchWithRetry twice_429_then_ok "u" 5 1000)
              = Returned (Some (JTicker (ofZ 1)))) by reflexivity.
  split; [exact H|].
  destruct (@fetchWithRetry_payload_provenance twice_429_then_ok "u" 5 1000 _ H)
    as (k & r & Hk & Hr & Hok & _).
  exists k, r. split; [exact Hk|]. split; [exact Hr | exact Hok].
Defined.

(** X4. When the first [k] answers are rate limits (429 or 418), [k] being
    below the budget, and the next answer is a success with payload [j],
    [fetchWithRetry] returns [j] after exactly [k] sleeps and [k + 1] GET
    requests. *)
Theorem fetchWithRetry_rate_limited_then_ok
    (fetch : string -> nat -> FetchResult) (url : string)
    (retries : nat) (delay : Z) (k : nat) (r : Response) (j : json) :
  (k < retries)%nat ->
  (forall i, (i < k)%nat -> is_rate_limit (fetch url i)) ->
  fetch url k = Responded r ->
  ok r = true ->
  body r = BodyJson j ->
  exists waits,
    length waits = k
    /\ fetchWithRetry fetch url retries delay
       = (Returned (Some j), get_then_sleep url waits ++ [EvGet url])
    /\ sleeps (snd (fetchWithRetry fetch url retries delay)) = k
    /\ gets (snd (fetchWithRetry fetch url retries delay)) = S k.
Proof.
  intros Hk Hlimited Hr Hok Hbody.
  destruct (@fetch_attempts_rate_limited_prefix fetch url retries delay
              k (retries - k) 0%nat) as (waits & Hlen & Heq).
  { intros i Hi. apply Hlimited. lia. }
  assert (Hlast : fetch_attempts fetch url retries delay (retries - k) k
                  = (Returned (Some j), [EvGet url])).
  { destruct (retries - k)%nat as [|n] eqn:E; [lia|].
    cbn [fetch_attempts]. rewrite Hr.
    unfold ok in Hok. apply andb_true_iff in Hok. destruct Hok as [Hlo Hhi].
    apply Z.leb_le in Hlo, Hhi.
    destruct (Z.eqb_spec (status r) 429); [lia|].
    destruct (Z.eqb_spec (status r) 418); [lia|].
    cbn [orb]. unfold ok.
    rewrite (proj2 (Z.leb_le _ _) Hlo), (proj2 (Z.leb_le _ _) Hhi).
    cbn [andb negb]. rewrite Hbody. reflexivity. }
  unfold fetchWithRetry.
  replace (k + (retries - k))%nat with retries in Heq by lia.
  cbn [Nat.add] in Heq. rewrite Hlast in Heq. cbn [fst snd] in Heq.
  rewrite Heq. cbn [fst snd].
  exists waits. split; [exact Hlen|]. split; [reflexivity|].
  unfold sleeps, gets. rewrite !filter_app, !length_app.
  fold (sleeps (get_then_sleep url waits)) (gets (get_then_sleep url waits)).
  rewrite (sleeps_get_then_sleep url), (gets_get_then_sleep url), Hlen.
  cbn. lia.
Qed.

Lemma fetchWithRetry_rate_limited_then_ok_witness :
  (2 < 5)%nat
  /\ fst (fetchWithRetry twice_429_then_ok "u" 5 1000)
     = Returned (Some (JTicker (ofZ 1)))
  /\ sleeps (snd (fetchWithRetry twice_429_then_ok "u" 5 1000)) = 2%nat.
Proof.
  split; [lia|].
  destruct (@fetchWithRetry_rate_limited_then_ok twice_429_then_ok "u" 5 1000 2
              (ok_200 (JTicker (ofZ 1))) (JTicker (ofZ 1)))
    as (waits & _ & Heq & Hs & _); try reflexivity; try lia.
  - intros i Hi. exists (rate_limited 429).
    destruct i as [|[|i]]; [| |lia]; split; try reflexivity; left; reflexivity.
  - split; [rewrite Heq; reflexivity | exact Hs].
Defined.

(** X5. When every GET fails at the network level, [fetchWithRetry] makes
    all [retries] attempts, sleeping [delay * 2^i] after attempt [i] for
    every attempt but the last, and then rethrows the last error, or
    returns null when the message of that error mentions an invalid
    symbol.  The delay is a non-negative integer and the longest wait is
    at most [2^53], so that every product [delay * Math.pow(2, i)] is an
    integer the doubles hold exactly. *)
Theorem fetchWithRetry_network_down
    (fetch : string -> nat -> FetchResult) (url : string)
    (retries : nat) (delay : Z) (err : nat -> JsError) :
  (1 <= retries <= 1024)%nat ->
  (0 <= delay)%Z ->
  (backoff delay (retries - 1) <= 2 ^ 53)%Z ->
  (forall i, (i < retries)%nat -> fetch url i = NetworkError (err i)) ->
  fetchWithRetry fetch url retries delay
  = (if includes (message (err (retries - 1))) "Invalid symbol"
     then Returned None else Thrown (err (retries - 1)),
     get_then_sleep url (backoff_waits delay 0 (retries - 1)) ++ [EvGet url]).
Proof.
  intros Hpos _ _ Hall. unfold fetchWithRetry.
  pose proof (@fetch_attempts_network_down fetch url retries delay err
                (retries - 1) 0%nat ltac:(lia)
                (fun j Hj => Hall j (proj2 Hj))) as H.
  replace (S (retries - 1)) with retries in H by lia. exact H.
Qed.

Lemma fetchWithRetry_network_down_witness :
  (1 <= 5 <= 1024)%nat
  /\ (backoff 1000 (5 - 1) <= 2 ^ 53)%Z
  /\ fetchWithRetry network_down "u" 5 1000
     = (Thrown {| message := "Failed to fetch" |},
        [EvGet "u"; EvSleep (Some 1000%Z); EvGet "u"; EvSleep (Some 2000%Z);
         EvGet "u"; EvSleep (Some 4000%Z); EvGet "u"; EvSleep (Some 8000%Z);
         EvGet "u"]).
Proof.
  split; [lia|]. split; [vm_compute; discriminate|].
  exact (@fetchWithRetry_network_down network_down "u" 5 1000
           (fun _ => {| message := "Failed to fetch" |})
           ltac:(lia) ltac:(lia) ltac:(vm_compute; discriminate)
           (fun i _ => eq_refl)).
Defined.

(* ===================================================================== *)
(** * Session window calculator: current sessions                         *)
(* ===================================================================== *)

Section SessionWindows.
Local Open Scope Z_scope.

Lemma tomorrow745AM_value (now : Z) :
  -59011459200000 <= now <= 8640000000000000 - msPerDay ->
  getUTCMillisFor1d (getUTCFullYear now) (getUTCMonth now)
                    (getUTCDate now + 1) 7 45
  = Some (Day now * msPerDay + msPerDay - 15 * msPerMinute).
Proof.
  intros H. pose proof (Day_bounds now) as Hd.
  unfold getUTCMillisFor1d.
  rewrite DateUTC_of_fields by lia.
  unfold MakeTime.
  rewrite TimeClip_in_range
    by (unfold msPerHour, msPerMinute, msPerDay in *; lia).
  f_equal. unfold msPerHour, msPerMinute, msPerDay. lia.
Qed.

End SessionWindows.

(** X6. For the timeframes ['15m'] and ['4h'], [getSessions] returns the
    bucket of that length, aligned on a multiple of the length, that
    contains [now]; the previous session is the bucket just before it. *)
Theorem getSessions_intraday (tf timeframe : string) (now len : Z) :
  MILLISECONDS tf = Some len ->
  exists start : Z,
    getSessions (Some tf) timeframe now
    = {| sessionStart := Some start;
         sessionEnd := Some (start + len)%Z;
         prevSessionStart := Some (start - len)%Z;
         prevSessionEnd := Some start |}
    /\ (start <= now < start + len)%Z
    /\ (start mod len = 0)%Z
    /\ (len = 900000 \/ len = 14400000)%Z.
Proof.
  unfold MILLISECONDS. intros H.
  assert (Hcases : (tf = "15m"%string /\ len = 900000%Z)
                   \/ (tf = "4h"%string /\ len = 14400000%Z)).
  { destruct (String.eqb_spec tf "15m") as [->|_].
    - left. injection H as <-. split; reflexivity.
    - destruct (String.eqb_spec tf "4h") as [->|_]; [|discriminate H].
      right. injection H as <-. split; reflexivity. }
  exists (now / len * len)%Z.
  destruct Hcases as [[-> ->] | [-> ->]].
  - split; [reflexivity|]. split; [|split].
    + Z.div_mod_to_equations; lia.
    + apply Z.mod_mul; lia.
    + left; reflexivity.
  - split; [reflexivity|]. split; [|split].
    + Z.div_mod_to_equations; lia.
    + apply Z.mod_mul; lia.
    + right; reflexivity.
Qed.

Lemma getSessions_intraday_witness :
  MILLISECONDS "4h" = Some 14400000%Z
  /\ sessionStart (getSessions (Some "4h"%string) "1d" 1709200000000)
     = Some 1709193600000%Z.
Proof.
  split; [reflexivity|].
  destruct (@getSessions_intraday "4h" "1d" 1709200000000 14400000 eq_refl)
    as (start & Heq & _).
  reflexivity.
Defined.

(** X7. With timeframe ['1d'] the boundary that [now] is compared with is
    the UTC midnight that opened the UTC day of [now], so the first branch
    is always the one taken: the current session starts at that midnight,
    at or before [now], and ends 23 hours 45 minutes later; the previous
    session ends a quarter of an hour before the current one starts, so
    the two windows never overlap. *)
Theorem getSessions_1d_current_session (timeframe : string) (now : Z) :
  (-59011459200000 <= now <= 8640000000000000 - msPerDay)%Z ->
  let w := getSessions (Some "1d"%string) timeframe now in
  let midnight := (Day now * msPerDay)%Z in
  sessionStart w = Some midnight
  /\ sessionEnd w = Some (midnight + msPerDay - 15 * msPerMinute)%Z
  /\ prevSessionStart w = Some (midnight - msPerDay)%Z
  /\ prevSessionEnd w = Some (midnight - 15 * msPerMinute)%Z
  /\ (midnight <= now < midnight + msPerDay)%Z.
Proof.
  intros H w midnight. subst w midnight.
  assert (H' : (-59011459200000 <= now <= 8640000000000000)%Z)
    by (unfold msPerDay in H; lia).
  rewrite getSessions_1d, sessions1d_branches.
  destruct (@today8AM_not_after_now now H') as [H8 Hge].
  rewrite Hge, H8.
  rewrite (@tomorrow745AM_value now H), (@yesterday8AM_value now H'),
    (@today745AM_value now H').
  repeat split; apply Day_bounds.
Qed.

Lemma getSessions_1d_current_session_witness :
  (-59011459200000 <= 1709200000000 <= 8640000000000000 - msPerDay)%Z
  /\ sessionStart (getSessions (Some "1d"%string) "4h" 1709200000000)
     = Some 1709164800000%Z
  /\ sessionEnd (getSessions (Some "1d"%string) "4h" 1709200000000)
     = Some 1709250300000%Z.
Proof.
  assert (H : (-59011459200000 <= 1709200000000
               <= 8640000000000000 - msPerDay)%Z) by (unfold msPerDay; lia).
  split; [exact H|].
  pose proof (@getSessions_1d_current_session "4h" 1709200000000 H) as Hw.
  cbv zeta in Hw. destruct Hw as (Hs & He & _).
  split; [exact Hs | exact He].
Defined.

(** X8. For a timeframe that is neither empty, ['1d'], ['15m'] nor ['4h'],
    and that does not name a property the literal inherits from
    [Object.prototype], the bucket length is undefined and all four fields
    of the window are NaN. *)
Theorem getSessions_unknown_timeframe (tf timeframe : string) (now : Z) :
  tf <> ""%string -> tf <> "1d"%string ->
  tf <> "15m"%string -> tf <> "4h"%string ->
  ~ In tf Object_prototype_keys ->
  getSessions (Some tf) timeframe now
  = {| sessionStart := None; sessionEnd := None;
       prevSessionStart := None; prevSessionEnd := None |}.
Proof.
  intros H0 H1 H2 H3 _. unfold getSessions, MILLISECONDS.
  apply String.eqb_neq in H0, H1, H2, H3.
  rewrite H0. cbv iota. rewrite H0, H1. cbn [orb]. rewrite H2, H3. reflexivity.
Qed.

Lemma getSessions_unknown_timeframe_witness :
  "1h"%string <> "1d"%string
  /\ ~ In "1h"%string Object_prototype_keys
  /\ prevSessionStart (getSessions (Some "1h"%string) "1d" 1709200000000) = None.
Proof.
  assert (Hkeys : ~ In "1h"%string Object_prototype_keys).
  { intros Hin. repeat (destruct Hin as [Hin | Hin]; [discriminate Hin|]).
    destruct Hin. }
  split; [discriminate|]. split; [exact Hkeys|].
  rewrite (@getSessions_unknown_timeframe "1h" "1d" 1709200000000);
    [reflexivity | discriminate | discriminate | discriminate | discriminate
    | exact Hkeys].
Defined.

(* ===================================================================== *)
(** * Indicator library: short, flat and partial inputs                   *)
(* ===================================================================== *)

Section ShortInputs.

Lemma item_repeat (x : num) (n i : nat) : (i < n)%nat -> item (repeat x n) i = x.
Proof.
  unfold item. revert i. induction n as [|n IH]; intros i Hi; [lia|].
  destruct i as [|i]; [reflexivity|]. simpl. apply IH. lia.
Qed.

Lemma items_ext (l l' : list num) :
  length l = length l' ->
  (forall i, (i < length l)%nat -> item l i = item l' i) -> l = l'.
Proof.
  intros Hlen Hitems. apply (nth_ext l l' NaN NaN Hlen). exact Hitems.
Qed.

Lemma item_skipn (l : list num) : forall k i : nat,
  item (skipn k l) i = item l (k + i).
Proof.
  unfold item. induction l as [|a l IH]; intros k i.
  - rewrite skipn_nil. destruct i, (k + _)%nat; reflexivity.
  - destruct k as [|k]; [reflexivity|]. simpl. apply IH.
Qed.

Lemma item_slice_last (rsi : list num) (n i : nat) :
  (1 <= n <= length rsi)%nat ->
  item (slice_last rsi n) i = item rsi (length rsi - n + i).
Proof.
  intros H. unfold slice_last. destruct n as [|n]; [lia|]. apply item_skipn.
Qed.

End ShortInputs.

(** X9. On a series shorter than the period, [calculateEMA] returns as many
    sentinels as there are inputs and nothing else. *)
Theorem calculateEMA_short_input (data : list num) (period : nat) :
  (length data < period)%nat ->
  calculateEMA data period = repeat NaN (length data).
Proof.
  intros H. assert (Hp : (1 <= period)%nat) by lia.
  apply items_ext.
  - rewrite repeat_length. apply calculateEMA_length, Hp.
  - rewrite (calculateEMA_length data Hp). intros i Hi.
    rewrite (calculateEMA_item data Hp) by exact Hi.
    rewrite item_repeat by exact Hi. unfold ema_pushed.
    destruct (Nat.ltb_spec (S i) period); [reflexivity | lia].
Qed.

Lemma calculateEMA_short_input_witness :
  (length [ofZ 1; ofZ 3] < 14)%nat
  /\ calculateEMA [ofZ 1; ofZ 3] 14 = [NaN; NaN].
Proof.
  split; [simpl; lia|].
  apply (@calculateEMA_short_input [ofZ 1; ofZ 3] 14). simpl; lia.
Defined.

(** X10. On any series longer than the period, whatever its values, the
    array that [calculateRSI] returns has a number at every index (no hole
    is left by the out-of-order writes) and its first [period] entries are
    the sentinel. *)
Theorem calculateRSI_leading_sentinels (closes : list num) (period : nat) :
  (period < length closes)%nat ->
  firstn period (calculateRSI closes period) = repeat NaN period
  /\ forall j, (j < length closes)%nat ->
       array_get
         (fill_sentinels period
            (fst (fst (wilder_state closes period
                         (length closes - (period + 1))))))
         j <> None.
Proof.
  intros H. split.
  - apply items_ext.
    + rewrite length_firstn, repeat_length, calculateRSI_length.
      destruct (Nat.leb_spec (length closes) period); lia.
    + rewrite length_firstn, calculateRSI_length.
      destruct (Nat.leb_spec (length closes) period); [lia|].
      intros i Hi. rewrite item_repeat by lia.
      unfold item. rewrite nth_firstn.
      destruct (Nat.ltb_spec i period); [|lia].
      apply calculateRSI_sentinels; assumption.
  - intros j Hj. apply calculateRSI_dense; assumption.
Qed.

Lemma calculateRSI_leading_sentinels_witness :
  (3 < length rising_closes)%nat
  /\ firstn 3 (calculateRSI rising_closes 3) = [NaN; NaN; NaN].
Proof.
  assert (H : (3 < length rising_closes)%nat) by (vm_compute; lia).
  split; [exact H|].
  exact (proj1 (@calculateRSI_leading_sentinels rising_closes 3 H)).
Defined.

Section FlatRSI.

Variable closes : list num.
Variable period : nat.
Variable c : num.
Hypothesis period_pos : (1 <= period)%nat.
Hypothesis period_lt : (period < length closes)%nat.
Hypothesis array_sized : (Z.of_nat (length closes) < 2 ^ 32)%Z.
Hypothesis c_finite : is_finite c = true.
Hypothesis closes_flat : Forall (fun x => x = c) closes.

Lemma flat_item (i : nat) : (i < length closes)%nat -> item closes i = c.
Proof.
  intros Hi. unfold item.
  exact (proj1 (Forall_forall _ closes) closes_flat _ (nth_In closes NaN Hi)).
Qed.

(** A finite number minus itself is [+0]. *)
Lemma sub_same_finite : sub c c = zero.
Proof.
  destruct c as [s|s| |s m e]; try discriminate c_finite.
  - destruct s; reflexivity.
  - rewrite sub_finite, Z.sub_diag. reflexivity.
Qed.

Lemma flat_diff (i : nat) :
  (1 <= i < length closes)%nat ->
  (item closes i - item closes (i - 1))%num = zero.
Proof. intros Hi. rewrite !flat_item by lia. apply sub_same_finite. Qed.

Lemma flat_seed_sums (idxs : list nat) :
  (forall i, In i idxs -> (1 <= i < length closes)%nat) ->
  fold_left (seed_step closes) idxs (zero, zero) = (zero, zero).
Proof.
  induction idxs as [|i idxs IH]; intros Hidx; [reflexivity|].
  cbn [fold_left]. unfold seed_step at 2.
  rewrite flat_diff by (apply Hidx; left; reflexivity).
  change (zero >? zero)%num with false. cbv iota.
  change (zero - zero)%num with zero.
  apply IH. intros j Hj. apply Hidx. right. exact Hj.
Qed.

Lemma zero_div_period (x : num) : is_zero x -> is_zero (x / ofNat period)%num.
Proof.
  intros [s ->].
  destruct (@period_finite period period_pos) as (m & e & ->); [lia|].
  eexists. reflexivity.
Qed.

Lemma zero_average (x : num) :
  is_zero x ->
  is_zero ((x * (ofNat period - ofZ 1) + zero) / ofNat period)%num.
Proof.
  intros [s ->]. apply zero_div_period.
  destruct (@period_minus_one period period_pos) as [[s1 ->] | (s1 & m & e & ->)];
    try lia; destruct s, s1; eexists; reflexivity.
Qed.

Lemma flat_wilder_state (m : nat) :
  (period + m < length closes)%nat ->
  is_zero (snd (wilder_state closes period m))
  /\ forall j, (period <= j < period + 1 + m)%nat ->
       array_get (fst (fst (wilder_state closes period m))) j = Some (ofZ 100).
Proof.
  induction m as [|m IH]; intros Hm.
  - assert (Hz : is_zero (snd (wilder_state closes period 0))).
    { unfold wilder_state, wilder_init, seed_sums. cbn [seq fold_left].
      rewrite flat_seed_sums by (intros i Hi; apply in_seq in Hi; lia).
      cbn [snd]. apply zero_div_period. exists false. reflexivity. }
    split; [exact Hz|]. intros j Hj.
    unfold wilder_state in *. cbn [seq fold_left] in *.
    rewrite wilder_init_array, array_get_set.
    destruct (Nat.eqb_spec j period); [|lia].
    f_equal. apply rsi_value_zero_loss, Hz.
  - destruct (IH ltac:(lia)) as [Hz Hget].
    assert (Hz' : is_zero (snd (wilder_state closes period (S m)))).
    { rewrite wilder_state_S.
      destruct (wilder_state closes period m) as [[rsi g] l]. cbn [snd] in Hz.
      unfold wilder_step. cbn [snd].
      rewrite flat_diff by lia.
      change (zero <? zero)%num with false. cbv iota.
      apply zero_average, Hz. }
    split; [exact Hz'|].
    intros j Hj. rewrite wilder_state_array_S, array_get_set.
    destruct (Nat.eqb_spec j (period + 1 + m)).
    + f_equal. apply rsi_value_zero_loss, Hz'.
    + apply Hget. lia.
Qed.

Lemma flat_calculateRSI (i : nat) :
  (period <= i < length closes)%nat ->
  item (calculateRSI closes period) i = ofZ 100.
Proof.
  intros Hi. rewrite calculateRSI_long by exact period_lt.
  rewrite array_numbers_item, fill_sentinels_get.
  destruct (Nat.ltb_spec i period); [lia|].
  destruct (@flat_wilder_state (length closes - (period + 1))) as [_ Hget];
    [lia|].
  rewrite Hget by lia. reflexivity.
Qed.

End FlatRSI.

(** X11. On a flat series, every close being the same finite number,
    longer than the period (period at least 1, series of array size),
    [calculateRSI] returns 100 from position [period] on: with no gain and
    no loss the average loss is 0 and RS is taken as plus infinity. *)
Theorem calculateRSI_flat_series (closes : list num) (period : nat) (c : num) :
  (1 <= period)%nat ->
  (period < length closes)%nat ->
  (Z.of_nat (length closes) < 2 ^ 32)%Z ->
  is_finite c = true ->
  Forall (fun x => x = c) closes ->
  forall i, (period <= i < length closes)%nat ->
    item (calculateRSI closes period) i = ofZ 100.
Proof. intros. apply (@flat_calculateRSI closes period c); assumption. Qed.

Lemma calculateRSI_flat_series_witness :
  (3 < length (repeat (ofZ 7) 6))%nat
  /\ is_finite (ofZ 7) = true
  /\ item (calculateRSI (repeat (ofZ 7) 6) 3) 4 = ofZ 100.
Proof.
  split; [simpl; lia|]. split; [reflexivity|].
  apply (@calculateRSI_flat_series (repeat (ofZ 7) 6) 3 (ofZ 7));
    try (simpl; lia); try reflexivity.
  repeat constructor.
Defined.

Lemma getSignal_short_history_aux (closes : list num) :
  (length closes < 28)%nat ->
  getSignal (Some (calculateRSI closes 14))
  = if (length closes <=? 14)%nat then NO_DATA else NO_STRONG_SIGNAL.
Proof.
  intros H. destruct (Nat.leb_spec (length closes) 14) as [Hle|Hgt].
  - rewrite calculateRSI_short by exact Hle. reflexivity.
  - assert (Hlen : length (calculateRSI closes 14) = length closes).
    { rewrite calculateRSI_length.
      destruct (Nat.leb_spec (length closes) 14); [lia | reflexivity]. }
    destruct (@getRecentRSIDiff_direction (calculateRSI closes 14))
      as (snap & Hsnap & Hdir); [lia|].
    rewrite (getSignal_snapshot _ Hsnap).
    apply classify_snapshot_neutral. rewrite Hdir. cbv zeta.
    apply nan_compare_neutral. left.
    rewrite item_slice_last by lia.
    rewrite calculateRSI_sentinels by lia. reflexivity.
Qed.

(** X12. The RSI of period 14 of a history of fewer than 28 closes never
    classifies as a zone: with at most 14 closes the RSI series is empty
    and [getSignal] answers NO DATA; with 15 to 27 closes the last-14
    window starts on a sentinel and [getSignal] answers NO STRONG SIGNAL. *)
Theorem getSignal_short_history (closes : list num) :
  (length closes < 28)%nat ->
  getSignal (Some (calculateRSI closes 14))
  = if (length closes <=? 14)%nat then NO_DATA else NO_STRONG_SIGNAL.
Proof. exact (@getSignal_short_history_aux closes). Qed.

Lemma getSignal_short_history_witness :
  (length twenty_closes < 28)%nat
  /\ getSignal (Some (calculateRSI twenty_closes 14)) = NO_STRONG_SIGNAL.
Proof.
  split; [vm_compute; lia|].
  apply (@getSignal_short_history twenty_closes). vm_compute. lia.
Defined.

(* ===================================================================== *)
(** * Momentum snapshot and classifier: further properties                *)
(* ===================================================================== *)

Section SnapshotFacts.

Lemma ltb_irrefl (x : num) : (x <? x)%num = false.
Proof.
  destruct (x <? x)%num eqn:E; [|reflexivity].
  rewrite (ltb_asym _ _ E) in E. discriminate.
Qed.

Lemma extremes_of_step (seen : list num) (st : num * num) (v : num) :
  extremes_of seen st -> extremes_of (seen ++ [v]) (extremes_step st v).
Proof.
  destruct st as [hi lo]. intros [Hstate Hbound].
  assert (Hin : forall u, In u (seen ++ [v]) -> In u seen \/ u = v).
  { intros u Hu. apply in_app_or in Hu. destruct Hu as [Hu|[Hu|[]]]; auto. }
  destruct (isNaN v) eqn:Nv.
  - (* a sentinel changes nothing *)
    rewrite extremes_step_nan by exact Nv. split.
    + rewrite forallb_app. cbn [forallb]. rewrite Nv, andb_true_r.
      destruct (forallb isNaN seen); [exact Hstate|].
      destruct Hstate as (H1 & H2 & H3 & H4).
      repeat split; try assumption; apply in_or_app; left; assumption.
    + intros u Hu Nu. destruct (Hin u Hu) as [Hs | ->].
      * apply Hbound; assumption.
      * rewrite Nv in Nu. discriminate.
  - destruct (forallb isNaN seen) eqn:Hall.
    + (* the first defined reading *)
      destruct Hstate as [-> ->]. rewrite extremes_step_first by exact Nv.
      split.
      * rewrite forallb_app, Hall. cbn [forallb andb]. rewrite Nv. cbn [andb].
        repeat split; try assumption; apply in_or_app; right; left; reflexivity.
      * intros u Hu Nu. destruct (Hin u Hu) as [Hs | ->].
        -- rewrite (proj1 (forallb_forall _ _) Hall u Hs) in Nu. discriminate.
        -- split; apply ltb_irrefl.
    + destruct Hstate as (Hhi & Hlo & Nhi & Nlo).
      unfold extremes_step. rewrite Nv. cbn [negb]. unfold gtb. split.
      * rewrite forallb_app, Hall. cbn [andb].
        destruct (hi <? v)%num, (v <? lo)%num; repeat split; try assumption;
          apply in_or_app; (left; assumption) || (right; left; reflexivity).
      * intros u Hu Nu.
        destruct (Hin u Hu) as [Hs | ->].
        -- destruct (Hbound u Hs Nu) as [Hb1 Hb2]. split.
           ++ destruct (hi <? v)%num eqn:Hhv; [|exact Hb1].
              destruct (v <? u)%num eqn:Hvu; [|reflexivity].
              rewrite (ltb_trans _ _ _ Hhv Hvu) in Hb1. discriminate.
           ++ destruct (v <? lo)%num eqn:Hvl; [|exact Hb2].
              destruct (u <? v)%num eqn:Huv; [|reflexivity].
              rewrite (ltb_trans _ _ _ Huv Hvl) in Hb2. discriminate.
        -- split.
           ++ destruct (hi <? v)%num eqn:Hhv; [apply ltb_irrefl | exact Hhv].
           ++ destruct (v <? lo)%num eqn:Hvl; [apply ltb_irrefl | exact Hvl].
Qed.

Lemma extremes_of_fold (l : list num) : forall (seen : list num) (st : num * num),
  extremes_of seen st -> extremes_of (seen ++ l) (fold_left extremes_step l st).
Proof.
  induction l as [|v l IH]; intros seen st H.
  - rewrite app_nil_r. exact H.
  - cbn [fold_left]. replace (seen ++ v :: l) with ((seen ++ [v]) ++ l)
      by (rewrite <- app_assoc; reflexivity).
    apply IH, extremes_of_step, H.
Qed.

Lemma extremes_of_window (w : list num) : extremes_of w (extremes w).
Proof.
  unfold extremes. apply (@extremes_of_fold w [] (NegInfinity, Infinity)).
  split; [split; reflexivity|]. intros v [].
Qed.

Lemma getRecentRSIDiff_fields (rsi : list num) (lookback : nat)
    (snap : MomentumSnapshot) :
  getRecentRSIDiff rsi lookback = Some snap ->
  (lookback <= length rsi)%nat
  /\ (recentHigh snap, recentLow snap) = extremes (slice_last rsi lookback)
  /\ pumpStrength snap = sub (recentHigh snap) (recentLow snap)
  /\ dumpStrength snap = abs (sub (recentLow snap) (recentHigh snap)).
Proof.
  unfold getRecentRSIDiff.
  destruct (Nat.ltb_spec (length rsi) lookback) as [Hlt|Hge]; [discriminate|].
  destruct (extremes (slice_last rsi lookback)) as [hi lo].
  intros H. injection H as <-. repeat split; try reflexivity. exact Hge.
Qed.

Lemma classify_snapshot_cases (s : MomentumSnapshot) :
  classify_snapshot s <> NO_DATA
  /\ (classify_snapshot s = MAX_ZONE_PUMP <->
      direction s = pump /\ (pumpStrength s >=? ofZ 30)%num = true)
  /\ forall d, label_direction (classify_snapshot s) = Some d -> direction s = d.
Proof.
  unfold classify_snapshot, isAbove30, inRange.
  destruct (direction s);
    cbn [Direction_eqb andb];
    rewrite ?andb_false_r, ?andb_true_r;
    generalize (pumpStrength s >=? ofZ 30)%num (dumpStrength s >=? ofZ 30)%num
               ((pumpStrength s >=? ofZ 21)%num && (pumpStrength s <=? ofZ 26)%num)
               ((dumpStrength s >=? ofZ 21)%num && (dumpStrength s <=? ofZ 26)%num)
               ((pumpStrength s >=? ofZ 1)%num && (pumpStrength s <=? ofZ 10)%num)
               ((dumpStrength s >=? ofZ 1)%num && (dumpStrength s <=? ofZ 10)%num);
    intros [] [] [] [] [] []; cbn;
    (split; [discriminate|]); (split; [split; [intros H; try discriminate H; split; reflexivity | intros [H1 H2]; try discriminate H1; try discriminate H2; reflexivity] |]);
    intros d H; try discriminate H; injection H as <-; reflexivity.
Qed.

End SnapshotFacts.

(** X13. In the snapshot of [getRecentRSIDiff], no defined reading of the
    window lies above [recentHigh] or below [recentLow]; when the window
    has a defined reading, both extremes are defined readings of the
    window, and otherwise they are the initial infinities.  Sentinels take
    no part. *)
Theorem getRecentRSIDiff_extremes (rsi : list num) (lookback : nat)
    (snap : MomentumSnapshot) :
  getRecentRSIDiff rsi lookback = Some snap ->
  let w := slice_last rsi lookback in
  (forall v, In v w -> isNaN v = false ->
     (recentHigh snap <? v)%num = false /\ (v <? recentLow snap)%num = false)
  /\ if forallb isNaN w
     then recentHigh snap = NegInfinity /\ recentLow snap = Infinity
     else In (recentHigh snap) w /\ In (recentLow snap) w
          /\ isNaN (recentHigh snap) = false /\ isNaN (recentLow snap) = false.
Proof.
  intros H w. destruct (getRecentRSIDiff_fields _ _ H) as (_ & Hext & _).
  pose proof (extremes_of_window w) as Hof. fold w in Hext.
  rewrite <- Hext in Hof. destruct Hof as [Hstate Hbound].
  split; assumption.
Qed.

Lemma getRecentRSIDiff_extremes_witness :
  getRecentRSIDiff nan_start_rsi 14
  = Some {| recentHigh := ofZ 45; recentLow := ofZ 10;
            pumpStrength := ofZ 35; dumpStrength := ofZ 35;
            direction := neutral; strength := NaN |}
  /\ In (ofZ 45) (slice_last nan_start_rsi 14).
Proof.
  assert (H : getRecentRSIDiff nan_start_rsi 14
              = Some {| recentHigh := ofZ 45; recentLow := ofZ 10;
                        pumpStrength := ofZ 35; dumpStrength := ofZ 35;
                        direction := neutral; strength := NaN |})
    by (vm_compute; reflexivity).
  split; [exact H|].
  pose proof (@getRecentRSIDiff_extremes nan_start_rsi 14 _ H) as Hx.
  cbv zeta in Hx. destruct Hx as [_ Hx].
  change (forallb isNaN (slice_last nan_start_rsi 14)) with false in Hx.
  exact (proj1 Hx).
Defined.

(** X14. [getSignal] answers NO DATA exactly when the RSI series is absent
    or holds fewer than 14 readings. *)
Theorem getSignal_no_data (rsi14 : option (list num)) :
  getSignal rsi14 = NO_DATA
  <-> match rsi14 with
      | None => True
      | Some rsi => (length rsi < 14)%nat
      end.
Proof.
  destruct rsi14 as [rsi|]; [|split; reflexivity].
  unfold getSignal, getRecentRSIDiff.
  destruct (Nat.ltb_spec (length rsi) 14) as [Hlt|Hge].
  - split; [intros _; exact Hlt | reflexivity].
  - destruct (extremes (slice_last rsi 14)) as [hi lo].
    split; [|lia]. intros H.
    destruct (proj1 (classify_snapshot_cases _) H).
Qed.

(** X15. A zone label always agrees with the direction of the window: a
    PUMP label is only given when the last reading of the window is above
    the first, a DUMP label only when it is below. *)
Theorem getSignal_label_direction (rsi : list num) (snap : MomentumSnapshot)
    (d : Direction) :
  getRecentRSIDiff rsi 14 = Some snap ->
  label_direction (getSignal (Some rsi)) = Some d ->
  direction snap = d
  /\ let w := slice_last rsi 14 in
     match d with
     | pump => (item w 13 >? item w 0)%num = true
     | dump => (item w 13 <? item w 0)%num = true
     | neutral => False
     end.
Proof.
  intros Hsnap Hlabel.
  rewrite (getSignal_snapshot _ Hsnap) in Hlabel.
  pose proof (proj2 (proj2 (classify_snapshot_cases snap)) d Hlabel) as Hd.
  split; [exact Hd|].
  destruct (getRecentRSIDiff_fields _ _ Hsnap) as (Hlen & _).
  destruct (getRecentRSIDiff_direction rsi Hlen) as (snap' & Hsnap' & Hdir).
  rewrite Hsnap in Hsnap'. injection Hsnap' as Heq. subst snap'.
  cbv zeta in Hdir |- *. rewrite Hdir in Hd.
  destruct (item (slice_last rsi 14) 13 >? item (slice_last rsi 14) 0)%num.
  - subst d. reflexivity.
  - destruct (item (slice_last rsi 14) 13 <? item (slice_last rsi 14) 0)%num.
    + subst d. reflexivity.
    + subst d. rewrite (classify_snapshot_neutral snap Hdir) in Hlabel.
      discriminate Hlabel.
Qed.

Lemma getSignal_label_direction_witness :
  label_direction (getSignal (Some falling_rsi)) = Some dump
  /\ (item (slice_last falling_rsi 14) 13 <? item (slice_last falling_rsi 14) 0)%num
     = true.
Proof.
  assert (H : label_direction (getSignal (Some falling_rsi)) = Some dump)
    by (vm_compute; reflexivity).
  split; [exact H|].
  destruct (getRecentRSIDiff falling_rsi 14) as [snap|] eqn:E;
    [|vm_compute in E; discriminate E].
  exact (proj2 (@getSignal_label_direction falling_rsi snap dump E H)).
Defined.

(** X16. The list shown as MAX ZONE PUMP holds exactly the analyses, in
    their order, whose RSI window rises and has a pump strength of at
    least 30. *)
Theorem maxPumpZoneSignals_spec (l : list SymbolAnalysis) (s : SymbolAnalysis) :
  In s (maxPumpZoneSignals l)
  <-> In s l
      /\ exists snap,
           getRecentRSIDiff (rsi14 s) 14 = Some snap
           /\ direction snap = pump
           /\ (pumpStrength snap >=? ofZ 30)%num = true.
Proof.
  unfold maxPumpZoneSignals. rewrite filter_In.
  assert (Heqb : forall a, Signal_eqb a MAX_ZONE_PUMP = true <-> a = MAX_ZONE_PUMP)
    by (intros a; destruct a; split; intros H; try discriminate H; reflexivity).
  rewrite Heqb. split; intros [Hin H]; (split; [exact Hin|]).
  - unfold getSignal in H.
    destruct (getRecentRSIDiff (rsi14 s) 14) as [snap|]; [|discriminate H].
    exists snap. split; [reflexivity|].
    apply (proj1 (proj2 (classify_snapshot_cases snap))), H.
  - destruct H as (snap & Hsnap & Hdir & Hstr).
    rewrite (getSignal_snapshot _ Hsnap).
    apply (proj1 (proj2 (classify_snapshot_cases snap))). split; assumption.
Qed.

Section StrengthFacts.

(** Among numbers other than NaN, "not above" and "not below" chain with
    "below" as in any total preorder. *)
Lemma ltb_between (a b lo hi : num) :
  isNaN lo = false -> isNaN hi = false ->
  (a <? b)%num = true ->
  (hi <? b)%num = false -> (a <? lo)%num = false ->
  (lo <? hi)%num = true.
Proof.
  intros Nlo Nhi Hab Hhb Hal.
  apply ltb_lex in Hab. destruct Hab as (Na & Nb & Hab).
  apply ltb_lex. split; [exact Nlo|]. split; [exact Nhi|].
  assert (H1 : ~ lex_lt (rank hi) (rank b)).
  { intros H. rewrite (proj2 (ltb_lex hi b)) in Hhb; [discriminate|].
    repeat split; assumption. }
  assert (H2 : ~ lex_lt (rank a) (rank lo)).
  { intros H. rewrite (proj2 (ltb_lex a lo)) in Hal; [discriminate|].
    repeat split; assumption. }
  destruct (rank a) as [[a1 a2] a3], (rank b) as [[b1 b2] b3],
           (rank lo) as [[l1 l2] l3], (rank hi) as [[h1 h2] h3].
  unfold lex_lt in *. lia.
Qed.

Lemma Forall_In_valid (l : list num) (x : num) :
  Forall (fun v => valid v = true) l -> In x l -> valid x = true.
Proof. intros H Hin. exact (proj1 (Forall_forall _ l) H x Hin). Qed.

End StrengthFacts.

(** X17. On a window of valid doubles, a direction other than neutral
    always comes with a strictly positive strength: the window then holds
    two defined readings that differ, so recentHigh lies strictly above
    recentLow, pumpStrength is positive and dumpStrength equals it. *)
Theorem directed_window_has_strength (rsi : list num) (snap : MomentumSnapshot) :
  Forall (fun x => valid x = true) rsi ->
  getRecentRSIDiff rsi 14 = Some snap ->
  direction snap <> neutral ->
  (recentLow snap <? recentHigh snap)%num = true
  /\ (pumpStrength snap >? zero)%num = true
  /\ dumpStrength snap = pumpStrength snap.
Proof.
  intros Hvalid Hsnap Hdir.
  destruct (getRecentRSIDiff_fields _ _ Hsnap) as (Hlen & Hext & Hp & Hd).
  destruct (getRecentRSIDiff_direction rsi Hlen) as (snap' & Hsnap' & Hdir').
  rewrite Hsnap in Hsnap'. injection Hsnap' as Heq. subst snap'.
  cbv zeta in Hdir'.
  pose proof (extremes_of_window (slice_last rsi 14)) as Hof.
  rewrite <- Hext in Hof. destruct Hof as [Hstate Hbound].
  assert (Hw : length (slice_last rsi 14) = 14%nat)
    by (apply slice_last_length; lia).
  assert (Hin : forall i, (i < 14)%nat ->
            In (item (slice_last rsi 14) i) (slice_last rsi 14)).
  { intros i Hi. unfold item. apply nth_In. lia. }
  assert (Hvw : Forall (fun x => valid x = true) (slice_last rsi 14))
    by (apply Forall_skipn; exact Hvalid).
  (* two readings of the window, one strictly below the other *)
  assert (Hpair : exists a b, In a (slice_last rsi 14) /\ In b (slice_last rsi 14)
                              /\ (a <? b)%num = true).
  { unfold gtb in Hdir'.
    destruct (item (slice_last rsi 14) 0 <? item (slice_last rsi 14) 13)%num eqn:E1.
    - exists (item (slice_last rsi 14) 0), (item (slice_last rsi 14) 13).
      repeat split; try apply Hin; try lia. exact E1.
    - destruct (item (slice_last rsi 14) 13 <? item (slice_last rsi 14) 0)%num eqn:E2.
      + exists (item (slice_last rsi 14) 13), (item (slice_last rsi 14) 0).
        repeat split; try apply Hin; try lia. exact E2.
      + contradiction. }
  destruct Hpair as (a & b & Ha & Hb & Hab).
  destruct (ltb_not_nan _ _ Hab) as [Na Nb].
  destruct (forallb isNaN (slice_last rsi 14)) eqn:Hall.
  { rewrite (proj1 (forallb_forall _ _) Hall a Ha) in Na. discriminate. }
  destruct Hstate as (Hhi & Hlo & Nhi & Nlo).
  assert (Hlt : (recentLow snap <? recentHigh snap)%num = true).
  { apply (@ltb_between a b); try assumption.
    - apply Hbound; assumption.
    - apply Hbound; assumption. }
  assert (Vhi : valid (recentHigh snap) = true)
    by (exact (@Forall_In_valid _ _ Hvw Hhi)).
  assert (Vlo : valid (recentLow snap) = true)
    by (exact (@Forall_In_valid _ _ Hvw Hlo)).
  split; [exact Hlt|]. split.
  - rewrite Hp. apply sub_positive; assumption.
  - rewrite Hp, Hd. symmetry. apply sub_ordered; assumption.
Qed.

Lemma directed_window_has_strength_witness :
  Forall (fun x => valid x = true) rising_rsi
  /\ getRecentRSIDiff rising_rsi 14 = Some rising_snapshot
  /\ direction rising_snapshot <> neutral
  /\ (pumpStrength rising_snapshot >? zero)%num = true.
Proof.
  assert (H1 : Forall (fun x => valid x = true) rising_rsi)
    by (repeat constructor).
  assert (H2 : getRecentRSIDiff rising_rsi 14 = Some rising_snapshot)
    by (vm_compute; reflexivity).
  assert (H3 : direction rising_snapshot <> neutral) by discriminate.
  split; [exact H1|]. split; [exact H2|]. split; [exact H3|].
  exact (proj1 (proj2 (@directed_window_has_strength rising_rsi rising_snapshot
                         H1 H2 H3))).
Defined.

(* ===================================================================== *)
(** * Per-symbol analysis                                                 *)
(* ===================================================================== *)

Section AnalysisFacts.

Variable env : Env.
Variable sym interval : string.

(** A successful analysis is built from a kline payload and a ticker, both
    obtained through [fetchWithRetry]; its fields are computed from the
    candles as follows. *)
Lemma fetchAndAnalyze_success (a : SymbolAnalysis) :
  fetchAndAnalyze env sym interval = Returned (Some a) ->
  exists (candles : list Candle) (ticker : json),
    fst (fetchWithRetry (env_fetch env) (klines_url sym interval) 5 1000)
    = Returned (Some (JKlines candles))
    /\ fst (fetchWithRetry (env_fetch env) (ticker_url sym) 5 1000)
       = Returned (Some ticker)
    /\ symbol a = sym
    /\ closes a = map close candles
    /\ rsi14 a = calculateRSI (map close candles) 14
    /\ (prevClosedGreen a, prevClosedRed a)
       = (if (2 <=? length candles)%nat then
            match nth_error candles (length candles - 2) with
            | Some c => (Some (close c >? open c)%num, Some (close c <? open c)%num)
            | None => (None, None)
            end
          else (None, None))
    /\ highestVolumeColorPrev a
       = let w := getSessions (Some interval) (env_timeframe env) (env_now env) in
         highestVolumeColor
           (filter (fun c => ge_time (timestamp c) (prevSessionStart w)
                             && le_time (timestamp c) (prevSessionEnd w))
                   candles).
Proof.
  unfold fetchAndAnalyze.
  destruct (fst (fetchWithRetry (env_fetch env) (klines_url sym interval) 5 1000))
    as [[[code msg|syms|candles|p]|]|e]; try discriminate.
  destruct (fst (fetchWithRetry (env_fetch env) (ticker_url sym) 5 1000))
    as [[ticker|]|e]; try discriminate.
  intros H. exists candles, ticker.
  split; [reflexivity|]. split; [reflexivity|].
  destruct (2 <=? length candles)%nat;
    [destruct (nth_error candles (length candles - 2))|];
    injection H as <-; repeat split; reflexivity.
Qed.

(** [fetchAndAnalyze] skips the symbol exactly when the klines request
    returns null, or the klines arrive and the ticker request returns
    null. *)
Lemma fetchAndAnalyze_skip :
  fetchAndAnalyze env sym interval = Returned None
  <-> fst (fetchWithRetry (env_fetch env) (klines_url sym interval) 5 1000)
      = Returned None
      \/ ((exists candles,
             fst (fetchWithRetry (env_fetch env) (klines_url sym interval) 5 1000)
             = Returned (Some (JKlines candles)))
          /\ fst (fetchWithRetry (env_fetch env) (ticker_url sym) 5 1000)
             = Returned None).
Proof.
  unfold fetchAndAnalyze.
  destruct (fst (fetchWithRetry (env_fetch env) (klines_url sym interval) 5 1000))
    as [[[code msg|syms|candles|p]|]|e];
    try (split; [intros H; discriminate H
                | intros [H | [[c H] _]]; discriminate H]).
  - destruct (fst (fetchWithRetry (env_fetch env) (ticker_url sym) 5 1000))
      as [[ticker|]|e].
    + split; [|intros [H | [_ H]]; discriminate H].
      destruct (2 <=? length candles)%nat;
        [destruct (nth_error candles (length candles - 2))|];
        intros H; discriminate H.
    + split; [|reflexivity]. intros _. right. split; [eauto | reflexivity].
    + split; [intros H; discriminate H | intros [H | [_ H]]; discriminate H].
  - split; [intros _; left; reflexivity | reflexivity].
Qed.

End AnalysisFacts.

Section VolumeFacts.

Lemma highest_volume_of_step (seen : list Candle) (st : num * option Candle)
    (c : Candle) :
  highest_volume_of seen st ->
  highest_volume_of (seen ++ [c]) (highest_volume_step st c).
Proof.
  destruct st as [maxVolume kept]. intros [Hbound Hkept].
  assert (Hin : forall u, In u (seen ++ [c]) -> In u seen \/ u = c).
  { intros u Hu. apply in_app_or in Hu. destruct Hu as [Hu|[Hu|[]]]; auto. }
  unfold highest_volume_step, gtb.
  destruct (maxVolume <? volume c)%num eqn:E.
  - split.
    + intros u Hu. destruct (Hin u Hu) as [Hs | ->]; [|apply ltb_irrefl].
      destruct (volume c <? volume u)%num eqn:E'; [|reflexivity].
      pose proof (Hbound u Hs) as Hb.
      rewrite (ltb_trans _ _ _ E E') in Hb. discriminate Hb.
    + split; [apply in_or_app; right; left; reflexivity|].
      split; [reflexivity|].
      destruct kept as [c0|].
      * destruct Hkept as (_ & _ & Hpos). exact (ltb_trans _ _ _ Hpos E).
      * subst maxVolume. exact E.
  - split.
    + intros u Hu. destruct (Hin u Hu) as [Hs | ->]; [apply Hbound, Hs | exact E].
    + destruct kept as [c0|]; [|exact Hkept].
      destruct Hkept as (H1 & H2 & H3).
      split; [apply in_or_app; left; exact H1|]. split; assumption.
Qed.

Lemma highest_volume_of_fold (l : list Candle) :
  forall (seen : list Candle) (st : num * option Candle),
  highest_volume_of seen st ->
  highest_volume_of (seen ++ l) (fold_left highest_volume_step l st).
Proof.
  induction l as [|c l IH]; intros seen st H.
  - rewrite app_nil_r. exact H.
  - cbn [fold_left]. replace (seen ++ c :: l) with ((seen ++ [c]) ++ l)
      by (rewrite <- app_assoc; reflexivity).
    apply IH, highest_volume_of_step, H.
Qed.

End VolumeFacts.

(** X18. A successful [fetchAndAnalyze] keeps the symbol it was asked for,
    the closes of the candles in their order and their RSI of period 14;
    so an analysis built from fewer than 28 candles is never listed as MAX
    ZONE PUMP. *)
Theorem fetchAndAnalyze_fields (env : Env) (sym interval : string)
    (a : SymbolAnalysis) :
  fetchAndAnalyze env sym interval = Returned (Some a) ->
  symbol a = sym
  /\ rsi14 a = calculateRSI (closes a) 14
  /\ (exists candles,
        fst (fetchWithRetry (env_fetch env) (klines_url sym interval) 5 1000)
        = Returned (Some (JKlines candles))
        /\ closes a = map close candles)
  /\ ((length (closes a) < 28)%nat -> maxPumpZoneSignals [a] = []).
Proof.
  intros H.
  destruct (@fetchAndAnalyze_success _ _ _ _ H)
    as (candles & ticker & Hk & _ & Hsym & Hcl & Hrsi & _).
  split; [exact Hsym|]. split; [rewrite Hcl; exact Hrsi|].
  split; [exists candles; split; assumption|].
  intros Hshort. unfold maxPumpZoneSignals. cbn [filter].
  rewrite Hrsi, <- Hcl.
  pose proof (@getSignal_short_history_aux (closes a) Hshort) as Hsig.
  rewrite Hsig. destruct (length (closes a) <=? 14)%nat; reflexivity.
Qed.

Lemma fetchAndAnalyze_fields_witness :
  exists a,
    fetchAndAnalyze exchange_env "GOODUSDT" "1d" = Returned (Some a)
    /\ symbol a = "GOODUSDT"%string
    /\ maxPumpZoneSignals [a] = [].
Proof.
  destruct (fetchAndAnalyze exchange_env "GOODUSDT" "1d") as [[a|]|e] eqn:E;
    [|vm_compute in E; discriminate E | vm_compute in E; discriminate E].
  exists a. split; [reflexivity|].
  destruct (@fetchAndAnalyze_fields exchange_env "GOODUSDT" "1d" a E)
    as (Hsym & _ & (candles & Hk & Hcl) & Hshort).
  split; [exact Hsym|]. apply Hshort.
  assert (Hc : candles = [sample_candle 0 1 2; sample_candle 1 2 3]).
  { vm_compute in Hk. injection Hk as Hk. symmetry. exact Hk. }
  rewrite Hcl, Hc. simpl. lia.
Defined.

(** X19. In a successful analysis the two previous-candle flags are never
    both true, and they are null together, exactly when fewer than two
    candles came back. *)
Theorem fetchAndAnalyze_previous_candle (env : Env) (sym interval : string)
    (a : SymbolAnalysis) :
  fetchAndAnalyze env sym interval = Returned (Some a) ->
  ~ (prevClosedGreen a = Some true /\ prevClosedRed a = Some true)
  /\ (prevClosedGreen a = None <-> (length (closes a) < 2)%nat)
  /\ (prevClosedRed a = None <-> (length (closes a) < 2)%nat).
Proof.
  intros H.
  destruct (@fetchAndAnalyze_success _ _ _ _ H)
    as (candles & ticker & _ & _ & _ & Hcl & _ & Hflags & _).
  assert (Hlen : length (closes a) = length candles)
    by (rewrite Hcl; apply length_map).
  rewrite Hlen.
  destruct (Nat.leb_spec 2 (length candles)) as [Hge|Hlt].
  - destruct (nth_error candles (length candles - 2)) as [c|] eqn:E.
    + injection Hflags as Hg Hr. rewrite Hg, Hr. split; [|split].
      * intros [Hg' Hr']. injection Hg' as Hg'. injection Hr' as Hr'.
        unfold gtb in Hg'. rewrite (ltb_asym _ _ Hg') in Hr'. discriminate.
      * split; [discriminate | lia].
      * split; [discriminate | lia].
    + apply nth_error_None in E. lia.
  - injection Hflags as Hg Hr. rewrite Hg, Hr. split; [|split].
    + intros [Hg' _]. discriminate.
    + split; [intros _; exact Hlt | reflexivity].
    + split; [intros _; exact Hlt | reflexivity].
Qed.

Lemma fetchAndAnalyze_previous_candle_witness :
  exists a,
    fetchAndAnalyze exchange_env "GOODUSDT" "1d" = Returned (Some a)
    /\ ~ (prevClosedGreen a = Some true /\ prevClosedRed a = Some true).
Proof.
  destruct (fetchAndAnalyze exchange_env "GOODUSDT" "1d") as [[a|]|e] eqn:E;
    [|vm_compute in E; discriminate E | vm_compute in E; discriminate E].
  exists a. split; [reflexivity|].
  exact (proj1 (@fetchAndAnalyze_previous_candle exchange_env "GOODUSDT" "1d" a E)).
Defined.

(** X20. [fetchAndAnalyze] drops a symbol, returning null rather than
    failing, exactly when the klines request returns null, or the klines
    arrive and the ticker request returns null. *)
Theorem fetchAndAnalyze_drops (env : Env) (sym interval : string) :
  fetchAndAnalyze env sym interval = Returned None
  <-> fst (fetchWithRetry (env_fetch env) (klines_url sym interval) 5 1000)
      = Returned None
      \/ ((exists candles,
             fst (fetchWithRetry (env_fetch env) (klines_url sym interval) 5 1000)
             = Returned (Some (JKlines candles)))
          /\ fst (fetchWithRetry (env_fetch env) (ticker_url sym) 5 1000)
             = Returned None).
Proof. apply fetchAndAnalyze_skip. Qed.

(** X21. The colour reported for the previous session is that of a candle
    of the list whose volume is above -1 and which no candle of the list
    exceeds in volume; it is null exactly when no candle has a volume
    above -1, in particular on the empty list. *)
Theorem highestVolumeColor_spec (candlesPrev : list Candle) :
  match highestVolumeColor candlesPrev with
  | Some color =>
      exists c, In c candlesPrev
                /\ color = candle_color c
                /\ (neg (ofZ 1) <? volume c)%num = true
                /\ forall c', In c' candlesPrev ->
                     (volume c <? volume c')%num = false
  | None =>
      forall c, In c candlesPrev -> (neg (ofZ 1) <? volume c)%num = false
  end.
Proof.
  pose proof (@highest_volume_of_fold candlesPrev [] (neg (ofZ 1), None)) as H.
  cbn [app] in H.
  assert (H0 : highest_volume_of [] (neg (ofZ 1), None))
    by (split; [intros c [] | reflexivity]).
  specialize (H H0).
  unfold highestVolumeColor.
  destruct candlesPrev as [|c0 rest]; [intros c []|].
  destruct (fold_left highest_volume_step (c0 :: rest) (neg (ofZ 1), None))
    as [maxVolume kept].
  destruct H as [Hbound Hkept]. cbn [snd].
  destruct kept as [c|].
  - destruct Hkept as (Hin & Hvol & Hpos).
    exists c. split; [exact Hin|]. split; [reflexivity|].
    rewrite Hvol. split; [exact Hpos | exact Hbound].
  - subst maxVolume. exact Hbound.
Qed.

(* ===================================================================== *)
(** * Batch scheduler: what one run may change                            *)
(* ===================================================================== *)

Section SchedulerFacts.

Lemma promise_all_returned {A : Type} (ps : list (Outcome A)) : forall vs,
  promise_all ps = Returned vs -> ps = map Returned vs.
Proof.
  induction ps as [|p ps IH]; intros vs H.
  - injection H as <-. reflexivity.
  - cbn [promise_all] in H. destruct p as [v|e]; [|discriminate H].
    destruct (promise_all ps) as [vs'|e]; [|discriminate H].
    injection H as <-. cbn [map]. f_equal. apply IH. reflexivity.
Qed.

(** [Promise.all] fulfils when no member rejects. *)
Lemma promise_all_fulfils {A : Type} (ps : list (Outcome A)) :
  (forall p, In p ps -> forall e, p <> Thrown e) ->
  exists vs, promise_all ps = Returned vs.
Proof.
  induction ps as [|p ps IH]; intros H; [eexists; reflexivity|].
  destruct IH as [vs Hvs]; [intros q Hq; apply H; right; exact Hq|].
  cbn [promise_all]. destruct p as [v|e].
  - rewrite Hvs. eexists; reflexivity.
  - destruct (H (Thrown e) (or_introl eq_refl) e eq_refl).
Qed.

Lemma filter_non_null_length {A : Type} (l : list (option A)) :
  (length (filter_non_null l) <= length l)%nat.
Proof. induction l as [|[a|] l IH]; simpl; lia. Qed.

Lemma filter_non_null_In {A : Type} (l : list (option A)) (a : A) :
  In a (filter_non_null l) <-> In (Some a) l.
Proof.
  induction l as [|[b|] l IH]; simpl.
  - reflexivity.
  - rewrite IH. split; intros [H|H]; auto.
    + left. f_equal. exact H.
    + left. injection H as H. exact H.
  - rewrite IH. split; [auto | intros [H|H]; [discriminate H | exact H]].
Qed.

(** The batch part, when every member settles without rejecting and the
    component is still mounted. *)
Lemma run_batch_fulfilled (env : Env) (st : SchedulerState)
    (newSignals : list (option SymbolAnalysis)) :
  promise_all (map (fun s => fetchAndAnalyze env s (env_timeframe env))
                   (firstn BATCH_SIZE (skipn (currentIndex st) (symbols st))))
  = Returned newSignals ->
  env_stillMounted env = true ->
  run_batch env st
  = (Returned tt,
     {| signals := signals st ++ filter_non_null newSignals;
        loading := if (currentIndex st + BATCH_SIZE <? length (symbols st))%nat
                   then loading st else false;
        lastUpdated := Some (env_localeTime env);
        isMounted := isMounted st;
        currentIndex := (currentIndex st + BATCH_SIZE)%nat;
        symbols := symbols st;
        nextBatchScheduled :=
          (currentIndex st + BATCH_SIZE <? length (symbols st))%nat |}).
Proof. intros Hall Hm. unfold run_batch. rewrite Hall, Hm. reflexivity. Qed.

(** What the batch part may change, whatever the transport does. *)
Lemma run_batch_changes (env : Env) (st : SchedulerState) :
  let st' := snd (run_batch env st) in
  (exists new,
     signals st' = signals st ++ new
     /\ (length new <= BATCH_SIZE)%nat
     /\ forall a, In a new ->
          In (symbol a) (firstn BATCH_SIZE (skipn (currentIndex st) (symbols st))))
  /\ (currentIndex st' = currentIndex st
      \/ currentIndex st' = (currentIndex st + BATCH_SIZE)%nat)
  /\ symbols st' = symbols st
  /\ isMounted st' = isMounted st
  /\ (nextBatchScheduled st' = true ->
        (currentIndex st' < length (symbols st'))%nat /\ loading st' = loading st
        \/ st' = st)
  /\ (env_stillMounted env = false -> st' = st).
Proof.
  unfold run_batch.
  set (batch := firstn BATCH_SIZE (skipn (currentIndex st) (symbols st))).
  assert (Hnone : exists new : list SymbolAnalysis,
            signals st = signals st ++ new
            /\ (length new <= BATCH_SIZE)%nat
            /\ forall a, In a new -> In (symbol a) batch).
  { exists []. rewrite app_nil_r. repeat split; [cbn; lia | intros a []]. }
  destruct (promise_all (map (fun s => fetchAndAnalyze env s (env_timeframe env)) batch))
    as [newSignals|e] eqn:Hall.
  - destruct (env_stillMounted env) eqn:Hm; cbn [snd].
    + cbn [signals currentIndex symbols isMounted nextBatchScheduled loading].
      split; [|split; [right; reflexivity|split; [reflexivity|split; [reflexivity|split]]]].
      * exists (filter_non_null newSignals).
        apply promise_all_returned in Hall.
        assert (Hlen : length newSignals = length batch).
        { rewrite <- (length_map (fun s => fetchAndAnalyze env s (env_timeframe env)) batch),
            Hall, length_map. reflexivity. }
        split; [reflexivity|]. split.
        -- pose proof (filter_non_null_length newSignals).
           pose proof (firstn_le_length BATCH_SIZE (skipn (currentIndex st) (symbols st))).
           fold batch in H0.
           assert (length batch <= BATCH_SIZE)%nat
             by (unfold batch; rewrite length_firstn; lia).
           lia.
        -- intros a Ha. apply filter_non_null_In in Ha.
           assert (Hin : In (Returned (Some a))
                            (map (fun s => fetchAndAnalyze env s (env_timeframe env)) batch)).
           { rewrite Hall. apply in_map. exact Ha. }
           apply in_map_iff in Hin. destruct Hin as (s & Hs & Hsin).
           destruct (@fetchAndAnalyze_success _ _ _ _ Hs)
             as (_ & _ & _ & _ & Hsym & _).
           rewrite Hsym. exact Hsin.
      * intros Hsched. left. apply Nat.ltb_lt in Hsched.
        split; [exact Hsched|].
        apply Nat.ltb_lt in Hsched. rewrite Hsched. reflexivity.
      * discriminate.
    + split; [exact Hnone|]. split; [left; reflexivity|].
      split; [reflexivity|]. split; [reflexivity|].
      split; [intros _; right; reflexivity | reflexivity].
  - cbn [snd]. split; [exact Hnone|]. split; [left; reflexivity|].
    split; [reflexivity|]. split; [reflexivity|].
    split; [intros _; right; reflexivity | reflexivity].
Qed.

End SchedulerFacts.

Section ProcessBatchFacts.

Variable env : Env.
Variable st : SchedulerState.

(** The three ways a run of [processBatch] can go. *)
Lemma processBatch_cases :
  (isMounted st = false /\ processBatch env st = (Returned tt, timer_fired st))
  \/ (isMounted st = true /\ symbols st = []
      /\ (forall l, fst (fetchWithRetry (env_fetch env) exchangeInfo_url 5 1000)
                    <> Returned (Some (JExchangeInfo l)))
      /\ processBatch env st = (Returned tt, set_loading false (timer_fired st)))
  \/ (isMounted st = true
      /\ exists universe,
           (symbols st = []
            /\ (exists l, fst (fetchWithRetry (env_fetch env) exchangeInfo_url 5 1000)
                          = Returned (Some (JExchangeInfo l))
                          /\ universe = filter (fun s => endsWith s "USDT") l)
            \/ symbols st <> [] /\ universe = symbols st)
           /\ processBatch env st
              = run_batch env (set_symbols universe (timer_fired st))).
Proof.
  unfold processBatch. fold (timer_fired st).
  change (isMounted (timer_fired st)) with (isMounted st).
  change (symbols (timer_fired st)) with (symbols st).
  destruct (isMounted st); [|left; split; reflexivity]. right.
  destruct (symbols st) as [|s0 rest] eqn:Hsym.
  - destruct (fst (fetchWithRetry (env_fetch env) exchangeInfo_url 5 1000))
      as [[[code msg|l|rows|p]|]|e] eqn:Hf;
      try (left; split; [reflexivity|]; split; [reflexivity|];
           split; [intros l' H; discriminate H | reflexivity]).
    right. split; [reflexivity|]. eexists. split; [|reflexivity].
    left. split; [reflexivity|]. exists l. split; reflexivity.
  - right. split; [reflexivity|]. exists (s0 :: rest). split.
    + right. split; [discriminate | reflexivity].
    + f_equal. unfold set_symbols, timer_fired. cbn. rewrite Hsym. reflexivity.
Qed.

End ProcessBatchFacts.

(** X22. The liveness flag guards the results: when the component is
    unmounted, before the run or while the batch was in flight,
    [processBatch] leaves [signals], the cursor and the last-updated stamp
    as they were and schedules no further batch. *)
Theorem processBatch_unmounted (env : Env) (st : SchedulerState) :
  isMounted st = false \/ env_stillMounted env = false ->
  let st' := snd (processBatch env st) in
  signals st' = signals st
  /\ currentIndex st' = currentIndex st
  /\ lastUpdated st' = lastUpdated st
  /\ nextBatchScheduled st' = false.
Proof.
  intros Hdead st'. subst st'.
  destruct (processBatch_cases env st)
    as [[_ ->] | [(_ & _ & _ & ->) | (Hm & universe & _ & ->)]].
  - repeat split; reflexivity.
  - repeat split; reflexivity.
  - destruct Hdead as [Hdead|Hdead]; [rewrite Hdead in Hm; discriminate Hm|].
    pose proof (run_batch_changes env (set_symbols universe (timer_fired st))) as H.
    cbv zeta in H. destruct H as (_ & _ & _ & _ & _ & Hsame).
    rewrite (Hsame Hdead). repeat split; reflexivity.
Qed.

Lemma processBatch_unmounted_witness :
  (isMounted unmounted_state = false \/ env_stillMounted exchange_env = false)
  /\ signals (snd (processBatch exchange_env unmounted_state)) = []
  /\ nextBatchScheduled (snd (processBatch exchange_env unmounted_state)) = false.
Proof.
  assert (H : isMounted unmounted_state = false
              \/ env_stillMounted exchange_env = false) by (left; reflexivity).
  split; [exact H|].
  pose proof (@processBatch_unmounted exchange_env unmounted_state H) as Hx.
  cbv zeta in Hx. destruct Hx as (Hs & _ & _ & Hn).
  split; [exact Hs | exact Hn].
Defined.

(** X23. Whatever the transport does, one run of [processBatch] only ever
    appends to [signals], at most one batch of ten analyses, each for a
    symbol of the slice of the universe under the cursor; the cursor stays
    or advances by ten; a known universe is kept; and a further batch is
    scheduled only while the cursor is inside the universe, [loading] then
    staying as it was. *)
Theorem processBatch_changes (env : Env) (st : SchedulerState) :
  let st' := snd (processBatch env st) in
  (exists new,
     signals st' = signals st ++ new
     /\ (length new <= BATCH_SIZE)%nat
     /\ forall a, In a new ->
          In (symbol a)
             (firstn BATCH_SIZE (skipn (currentIndex st) (symbols st'))))
  /\ (currentIndex st' = currentIndex st
      \/ currentIndex st' = (currentIndex st + BATCH_SIZE)%nat)
  /\ (symbols st <> [] -> symbols st' = symbols st)
  /\ (nextBatchScheduled st' = true ->
        (currentIndex st' < length (symbols st'))%nat
        /\ loading st' = loading st).
Proof.
  intros st'. subst st'.
  assert (Hnone : forall u, exists new : list SymbolAnalysis,
            signals st = signals st ++ new
            /\ (length new <= BATCH_SIZE)%nat
            /\ forall a, In a new ->
                 In (symbol a) (firstn BATCH_SIZE (skipn (currentIndex st) u))).
  { intros u. exists []. rewrite app_nil_r.
    repeat split; [cbn; lia | intros a []]. }
  destruct (processBatch_cases env st)
    as [[_ ->] | [(_ & _ & _ & ->) | (Hm & universe & Huni & ->)]].
  - cbn [snd]. split; [apply Hnone|]. split; [left; reflexivity|].
    split; [reflexivity | discriminate].
  - cbn [snd]. split; [apply Hnone|]. split; [left; reflexivity|].
    split; [reflexivity | discriminate].
  - pose proof (run_batch_changes env (set_symbols universe (timer_fired st))) as H.
    cbv zeta in H.
    destruct H as ((new & Hsig & Hlen & Hsym) & Hidx & Hsyms & _ & Hsched & _).
    cbn [set_symbols timer_fired signals currentIndex symbols loading] in *.
    split; [|split; [exact Hidx|split]].
    + exists new. rewrite Hsyms. repeat split; assumption.
    + intros Hne. rewrite Hsyms.
      destruct Huni as [[Hempty _] | [_ ->]]; [contradiction | reflexivity].
    + intros Hs. destruct (Hsched Hs) as [H|H]; [exact H|].
      rewrite H in Hs. discriminate Hs.
Qed.

(** X24. When the universe is not yet known and the instrument list cannot
    be obtained (the request fails, returns null, or returns a payload
    that is not an instrument list), [processBatch] ends the pass without
    failing: [loading] is cleared, nothing is appended, the universe stays
    empty and no batch is scheduled. *)
Theorem processBatch_discovery_failure (env : Env) (st : SchedulerState) :
  isMounted st = true ->
  symbols st = [] ->
  (forall l, fst (fetchWithRetry (env_fetch env) exchangeInfo_url 5 1000)
             <> Returned (Some (JExchangeInfo l))) ->
  processBatch env st = (Returned tt, set_loading false (timer_fired st))
  /\ loading (snd (processBatch env st)) = false
  /\ signals (snd (processBatch env st)) = signals st
  /\ symbols (snd (processBatch env st)) = []
  /\ nextBatchScheduled (snd (processBatch env st)) = false.
Proof.
  intros Hm Hsym Hfail.
  destruct (processBatch_cases env st)
    as [[Hm' _] | [(_ & _ & _ & Heq) | (_ & universe & Huni & _)]].
  - rewrite Hm in Hm'. discriminate Hm'.
  - rewrite Heq. cbn. rewrite Hsym. repeat split; reflexivity.
  - destruct Huni as [[_ (l & Hl & _)] | [Hne _]].
    + destruct (Hfail l Hl).
    + contradiction.
Qed.

Lemma processBatch_discovery_failure_witness :
  isMounted initial_state = true
  /\ symbols initial_state = []
  /\ loading (snd (processBatch sample_env initial_state)) = false.
Proof.
  split; [reflexivity|]. split; [reflexivity|].
  assert (Hfail : forall l,
            fst (fetchWithRetry (env_fetch sample_env) exchangeInfo_url 5 1000)
            <> Returned (Some (JExchangeInfo l)))
    by (intros l H; vm_compute in H; discriminate H).
  exact (proj1 (proj2 (@processBatch_discovery_failure sample_env initial_state
                         eq_refl eq_refl Hfail))).
Defined.

(* ===================================================================== *)
(** * Batch scheduler: the universe and the whole pass                    *)
(* ===================================================================== *)

Section SuffixFacts.

Lemma string_length_append (p s : string) :
  String.length (p ++ s) = (String.length p + String.length s)%nat.
Proof. induction p as [|c p IH]; simpl; [reflexivity | rewrite IH; reflexivity]. Qed.

Lemma substring_all (s : string) : substring 0 (String.length s) s = s.
Proof. induction s as [|c s IH]; simpl; [reflexivity | rewrite IH; reflexivity]. Qed.

Lemma substring_append_skip (p s : string) (m : nat) :
  substring (String.length p) m (p ++ s) = substring 0 m s.
Proof. induction p as [|c p IH]; simpl; [reflexivity | exact IH]. Qed.

Lemma substring_split (s : string) : forall n : nat,
  (n <= String.length s)%nat ->
  s = (substring 0 n s ++ substring n (String.length s - n) s)%string.
Proof.
  induction s as [|c s IH]; intros n Hn.
  - destruct n; [reflexivity | simpl in Hn; lia].
  - destruct n as [|n].
    + rewrite Nat.sub_0_r, substring_all. reflexivity.
    + simpl. f_equal. apply IH. simpl in Hn. lia.
Qed.

(** [s.endsWith(suffix)] holds exactly when [s] is some prefix followed by
    [suffix]. *)
Lemma endsWith_iff (s suffix : string) :
  endsWith s suffix = true <-> exists p, s = (p ++ suffix)%string.
Proof.
  unfold endsWith. split.
  - intros H. apply andb_true_iff in H. destruct H as [Hlen Heq].
    apply Nat.leb_le in Hlen. apply String.eqb_eq in Heq.
    exists (substring 0 (String.length s - String.length suffix) s).
    pose proof (@substring_split s (String.length s - String.length suffix)
                  ltac:(lia)) as Hsplit.
    replace (String.length s - (String.length s - String.length suffix))%nat
      with (String.length suffix) in Hsplit by lia.
    rewrite Heq in Hsplit. exact Hsplit.
  - intros [p ->]. rewrite string_length_append.
    apply andb_true_iff. split; [apply Nat.leb_le; lia|].
    replace (String.length p + String.length suffix - String.length suffix)%nat
      with (String.length p) by lia.
    rewrite substring_append_skip, substring_all. apply String.eqb_refl.
Qed.

Lemma In_firstn_skipn {A : Type} (x : A) (n k : nat) (l : list A) :
  In x (firstn n (skipn k l)) -> In x l.
Proof.
  intros H.
  assert (Hf : forall (m : nat) (u : list A), In x (firstn m u) -> In x u).
  { induction m as [|m IH]; intros [|a u] Hin; try destruct Hin as [].
    - left; assumption.
    - right. apply IH. assumption. }
  assert (Hs : forall (m : nat) (u : list A), In x (skipn m u) -> In x u).
  { induction m as [|m IH]; intros [|a u] Hin; try assumption.
    right. apply IH. assumption. }
  apply (Hs k), (Hf n), H.
Qed.

End SuffixFacts.

(** X25. When the instrument list arrives, the universe of the pass is
    made of exactly the listed symbols that end in USDT, in the order of
    the list. *)
Theorem processBatch_universe (env : Env) (st : SchedulerState) (l : list string) :
  isMounted st = true ->
  symbols st = [] ->
  fst (fetchWithRetry (env_fetch env) exchangeInfo_url 5 1000)
  = Returned (Some (JExchangeInfo l)) ->
  symbols (snd (processBatch env st)) = filter (fun s => endsWith s "USDT") l
  /\ forall s, In s (symbols (snd (processBatch env st)))
               <-> In s l /\ exists p, s = (p ++ "USDT")%string.
Proof.
  intros Hm Hsym Hl.
  assert (Heq : symbols (snd (processBatch env st))
                = filter (fun s => endsWith s "USDT") l).
  { destruct (processBatch_cases env st)
      as [[Hm' _] | [(_ & _ & Hfail & _) | (_ & universe & Huni & ->)]].
    - rewrite Hm in Hm'. discriminate Hm'.
    - destruct (Hfail l Hl).
    - pose proof (run_batch_changes env (set_symbols universe (timer_fired st))) as H.
      cbv zeta in H. destruct H as (_ & _ & Hsyms & _).
      rewrite Hsyms. cbn [set_symbols symbols].
      destruct Huni as [[_ (l' & Hl' & ->)] | [Hne _]]; [|contradiction].
      rewrite Hl in Hl'. injection Hl' as <-. reflexivity. }
  split; [exact Heq|].
  intros s. rewrite Heq, filter_In, endsWith_iff. reflexivity.
Qed.

Lemma processBatch_universe_witness :
  isMounted initial_state = true
  /\ symbols (snd (processBatch exchange_env initial_state))
     = ["GOODUSDT"; "ETHUSDT"]%string.
Proof.
  split; [reflexivity|].
  exact (proj1 (@processBatch_universe exchange_env initial_state
                  ["GOODUSDT"; "BTCBUSD"; "ETHUSDT"]%string
                  eq_refl eq_refl eq_refl)).
Defined.

Section PassFacts.

Variable envs : nat -> Env.
Variable universe : list string.

Hypothesis stays_mounted : forall k, env_stillMounted (envs k) = true.
Hypothesis no_rejection : forall k s e,
  In s universe ->
  fetchAndAnalyze (envs k) s (env_timeframe (envs k)) <> Thrown e.

(** A run in which every analysis settles. *)
Lemma processBatch_fulfilled (k : nat) (st : SchedulerState) :
  isMounted st = true ->
  universe_of (envs k) st universe ->
  exists new,
    processBatch (envs k) st
    = (Returned tt,
       {| signals := signals st ++ new;
          loading := if (currentIndex st + BATCH_SIZE <? length universe)%nat
                     then loading st else false;
          lastUpdated := Some (env_localeTime (envs k));
          isMounted := true;
          currentIndex := (currentIndex st + BATCH_SIZE)%nat;
          symbols := universe;
          nextBatchScheduled :=
            (currentIndex st + BATCH_SIZE <? length universe)%nat |})
    /\ (length new
        <= length (firstn BATCH_SIZE (skipn (currentIndex st) universe)))%nat
    /\ forall a, In a new -> In (symbol a) universe.
Proof.
  intros Hm Huni.
  assert (Hrun : processBatch (envs k) st
                 = run_batch (envs k) (set_symbols universe (timer_fired st))).
  { destruct (processBatch_cases (envs k) st)
      as [[Hm' _] | [(_ & Hsym & Hfail & _) | (_ & u & Hu & Heq)]].
    - rewrite Hm in Hm'. discriminate Hm'.
    - unfold universe_of in Huni.
      destruct Huni as [[_ (l & Hl & _)] | [Hne _]];
        [destruct (Hfail l Hl) | contradiction].
    - rewrite Heq. f_equal. f_equal. unfold universe_of in Huni.
      destruct Hu as [[Hs (l & Hl & ->)] | [Hne ->]],
               Huni as [[Hs' (l' & Hl' & ->)] | [Hne' ->]];
        try contradiction; try reflexivity.
      rewrite Hl in Hl'. injection Hl' as <-. reflexivity. }
  set (st1 := set_symbols universe (timer_fired st)) in *.
  set (batch := firstn BATCH_SIZE (skipn (currentIndex st) universe)).
  destruct (@promise_all_fulfils _
              (map (fun s => fetchAndAnalyze (envs k) s (env_timeframe (envs k)))
                   batch)) as [newSignals Hall].
  { intros p Hp e. apply in_map_iff in Hp. destruct Hp as (s & <- & Hs).
    apply no_rejection. exact (In_firstn_skipn _ _ _ _ Hs). }
  exists (filter_non_null newSignals).
  rewrite Hrun, (@run_batch_fulfilled (envs k) st1 newSignals Hall (stays_mounted k)).
  cbn [st1 set_symbols timer_fired signals loading currentIndex symbols isMounted].
  rewrite Hm. split; [reflexivity|].
  pose proof (promise_all_returned _ Hall) as Hmap.
  assert (Hlen : length newSignals = length batch).
  { rewrite <- (length_map (fun s => fetchAndAnalyze (envs k) s
                                        (env_timeframe (envs k))) batch),
      Hmap, length_map. reflexivity. }
  split.
  - pose proof (filter_non_null_length newSignals). fold batch. lia.
  - intros a Ha. apply filter_non_null_In in Ha.
    assert (Hin : In (Returned (Some a))
                     (map (fun s => fetchAndAnalyze (envs k) s
                                      (env_timeframe (envs k))) batch)).
    { rewrite Hmap. apply in_map. exact Ha. }
    apply in_map_iff in Hin. destruct Hin as (s & Hs & Hsin).
    destruct (@fetchAndAnalyze_success _ _ _ _ Hs) as (_ & _ & _ & _ & Hsym & _).
    rewrite Hsym. exact (In_firstn_skipn _ _ _ _ Hsin).
Qed.

(** From a cursor inside a non-empty universe, enough runs bring the pass
    to its end. *)
Lemma run_pass_inside (fuel : nat) : forall (k : nat) (st : SchedulerState),
  isMounted st = true ->
  universe_of (envs k) st universe ->
  (currentIndex st < length universe)%nat ->
  (length universe <= currentIndex st + 10 * fuel)%nat ->
  (length (signals st) <= currentIndex st)%nat ->
  (forall a, In a (signals st) -> In (symbol a) universe) ->
  let r := run_pass envs fuel k st in
  fst r = Returned tt
  /\ loading (snd r) = false
  /\ nextBatchScheduled (snd r) = false
  /\ symbols (snd r) = universe
  /\ (exists b, (1 <= b <= fuel)%nat
                /\ currentIndex (snd r) = (currentIndex st + 10 * b)%nat
                /\ (currentIndex st + 10 * (b - 1) < length universe
                    <= currentIndex st + 10 * b)%nat)
  /\ (length (signals (snd r)) <= length universe)%nat
  /\ forall a, In a (signals (snd r)) -> In (symbol a) universe.
Proof.
  induction fuel as [|fuel IH]; intros k st Hm Huni Hidx Hfuel Hlen Hsyms; [lia|].
  destruct (@processBatch_fulfilled k st Hm Huni) as (new & Heq & Hnew & Hin).
  cbv zeta. cbn [run_pass]. rewrite Heq.
  rewrite length_firstn, length_skipn in Hnew. unfold BATCH_SIZE in *.
  cbn [nextBatchScheduled].
  destruct (Nat.ltb_spec (currentIndex st + 10) (length universe)) as [Hmore|Hdone].
  - (* a further batch is scheduled *)
    edestruct (IH (S k)) as (Hr & Hl & Hs & Hu & (b & Hb & Hcur & Hbnd) & Hsig & Hsym);
      [..|split; [exact Hr|split; [exact Hl|split; [exact Hs|split; [exact Hu|]]]]].
    + reflexivity.
    + right. cbn [symbols]. split; [|reflexivity].
      intros Hnil. rewrite Hnil in Hidx. cbn in Hidx. lia.
    + cbn [currentIndex]. exact Hmore.
    + cbn [currentIndex]. lia.
    + cbn [signals currentIndex]. rewrite length_app. lia.
    + cbn [signals]. intros a Ha. apply in_app_or in Ha.
      destruct Ha as [Ha|Ha]; [apply Hsyms | apply Hin]; exact Ha.
    + cbn [currentIndex] in Hcur, Hbnd.
      split; [|split; [exact Hsig | exact Hsym]].
      exists (S b). split; [lia|]. split; [lia|].
      replace (S b - 1)%nat with (S (b - 1)) by lia. lia.
  - cbn [fst snd loading nextBatchScheduled symbols currentIndex signals].
    split; [reflexivity|]. split; [reflexivity|]. split; [reflexivity|].
    split; [reflexivity|]. split; [|split].
    + exists 1%nat. split; [lia|]. split; [lia|]. cbn. lia.
    + rewrite length_app. lia.
    + intros a Ha. apply in_app_or in Ha.
      destruct Ha as [Ha|Ha]; [apply Hsyms | apply Hin]; exact Ha.
Qed.

(** With no USDT instrument the single run finds nothing to do. *)
Lemma run_pass_empty (fuel : nat) (st : SchedulerState) :
  isMounted st = true ->
  universe_of (envs 0%nat) st universe ->
  universe = [] ->
  currentIndex st = 0%nat ->
  signals st = [] ->
  let r := run_pass envs (S fuel) 0 st in
  fst r = Returned tt
  /\ loading (snd r) = false
  /\ nextBatchScheduled (snd r) = false
  /\ symbols (snd r) = universe
  /\ currentIndex (snd r) = 10%nat
  /\ signals (snd r) = [].
Proof.
  intros Hm Huni Hempty Hidx Hsig.
  destruct (@processBatch_fulfilled 0%nat st Hm Huni) as (new & Heq & Hnew & _).
  cbv zeta. cbn [run_pass]. rewrite Heq.
  rewrite Hempty in *. rewrite Hidx, Hsig in *.
  rewrite skipn_nil, firstn_nil in Hnew.
  destruct new as [|a new]; [|cbn in Hnew; lia].
  cbn. repeat split; reflexivity.
Qed.

End PassFacts.

(** X26. A pass started from the effect's initial state comes to its end:
    if the instrument list arrives, the component stays mounted and no
    analysis of a universe symbol rejects, then the chain of runs stops by
    itself after one run per ten symbols (a single run when the universe
    is empty), with [loading] cleared, nothing scheduled, the universe
    set, and [signals] holding no more analyses than the universe has
    symbols, each for a symbol of the universe. *)
Theorem run_pass_completes (envs : nat -> Env) (fuel : nat) (l : list string) :
  (forall k, env_stillMounted (envs k) = true) ->
  (forall k s e,
     In s (filter (fun s => endsWith s "USDT") l) ->
     fetchAndAnalyze (envs k) s (env_timeframe (envs k)) <> Thrown e) ->
  fst (fetchWithRetry (env_fetch (envs 0%nat)) exchangeInfo_url 5 1000)
  = Returned (Some (JExchangeInfo l)) ->
  (1 <= fuel)%nat ->
  (length (filter (fun s => endsWith s "USDT") l) <= 10 * fuel)%nat ->
  let universe := filter (fun s => endsWith s "USDT") l in
  let r := run_pass envs fuel 0 initial_state in
  fst r = Returned tt
  /\ loading (snd r) = false
  /\ nextBatchScheduled (snd r) = false
  /\ symbols (snd r) = universe
  /\ (exists batches,
        (1 <= batches <= fuel)%nat
        /\ currentIndex (snd r) = (10 * batches)%nat
        /\ (10 * (batches - 1) < Nat.max 1 (length universe) <= 10 * batches)%nat)
  /\ (length (signals (snd r)) <= length universe)%nat
  /\ forall a, In a (signals (snd r)) -> In (symbol a) universe.
Proof.
  intros Hmounted Hok Hlist Hfuel Hsize universe r. subst r.
  assert (Huni : universe_of (envs 0%nat) initial_state universe).
  { left. split; [reflexivity|]. exists l. split; [exact Hlist | reflexivity]. }
  destruct (Nat.eq_dec (length universe) 0) as [Hnil|Hne].
  - apply length_zero_iff_nil in Hnil.
    destruct fuel as [|fuel]; [lia|].
    destruct (@run_pass_empty envs universe Hmounted Hok fuel initial_state
                eq_refl Huni Hnil eq_refl eq_refl)
      as (Hr & Hl & Hs & Hsym & Hcur & Hsig).
    split; [exact Hr|]. split; [exact Hl|]. split; [exact Hs|].
    split; [exact Hsym|]. split; [|split].
    + exists 1%nat. rewrite Hcur, Hnil. cbn. lia.
    + rewrite Hsig. cbn. lia.
    + rewrite Hsig. intros a [].
  - destruct (@run_pass_inside envs universe Hmounted Hok fuel 0%nat
                initial_state eq_refl Huni)
      as (Hr & Hl & Hs & Hsym & (b & Hb & Hcur & Hbnd) & Hsig & Hin).
    + cbn [currentIndex initial_state]. lia.
    + cbn [currentIndex initial_state Nat.add]. exact Hsize.
    + cbn. lia.
    + intros a [].
    + split; [exact Hr|]. split; [exact Hl|]. split; [exact Hs|].
      split; [exact Hsym|]. split; [|split; [exact Hsig | exact Hin]].
      cbn [currentIndex initial_state Nat.add] in Hcur, Hbnd.
      exists b. split; [exact Hb|]. split; [exact Hcur|]. lia.
Qed.

Lemma run_pass_completes_witness :
  let r := run_pass big_env 2 0 initial_state in
  fst r = Returned tt
  /\ loading (snd r) = false
  /\ nextBatchScheduled (snd r) = false
  /\ currentIndex (snd r) = 20%nat
  /\ (length (signals (snd r)) <= 12)%nat.
Proof.
  pose (listing := List.app ["BTCBUSD"%string; "ETHBTC"%string]
                     (map (fun i => String (ascii_of_nat (65 + i)) "USDT")
                          (seq 0 12))).
  assert (Hmounted : forall k, env_stillMounted (big_env k) = true)
    by (intros k; reflexivity).
  assert (Hok : forall k s e,
            In s (filter (fun s => endsWith s "USDT") listing) ->
            fetchAndAnalyze (big_env k) s (env_timeframe (big_env k))
            <> Thrown e).
  { intros k s e Hin. vm_compute in Hin.
    repeat (destruct Hin as [<- | Hin]; [vm_compute; discriminate|]).
    destruct Hin. }
  assert (Hlist : fst (fetchWithRetry (env_fetch (big_env 0%nat))
                         exchangeInfo_url 5 1000)
                  = Returned (Some (JExchangeInfo listing)))
    by (vm_compute; reflexivity).
  assert (Hfuel : (1 <= 2)%nat) by lia.
  assert (Hsize : (length (filter (fun s => endsWith s "USDT") listing)
                   <= 10 * 2)%nat) by (vm_compute; lia).
  destruct (@run_pass_completes big_env 2 listing Hmounted Hok Hlist Hfuel Hsize)
    as (Hr & Hl & Hs & _ & (b & Hb & Hcur & Hbnd) & Hsig & _).
  change (length (filter (fun s => endsWith s "USDT") listing))
    with 12%nat in Hbnd, Hsig.
  cbv zeta. split; [exact Hr|]. split; [exact Hl|]. split; [exact Hs|].
  split; [|exact Hsig]. rewrite Hcur. cbn in Hbnd. lia.
Defined.
